(** * octokit-wrapper: retry engine, request builder, Task and TaskChain

    A shallow embedding of the resilient execution core of the repository:
    - [Wrapper]: [createRequest]/[buildRequest], [runWithRetries],
      [attemptRequest] and [request] of the wrapper module (the variant with
      [withRetryBreaker]), and the older variant without a stop predicate
      ([Legacy], src/octokit-wrapper.js);
    - [Executors]: [Task] and [TaskChain] of src/executors/classes.

    JavaScript values are dynamically typed, objects are mutable and shared
    by reference, and a [throw] does not roll back what was written before
    it.  The embedding keeps all three: values carry their run-time type,
    objects live in a store addressed by references, and code runs in a
    state monad whose completions are normal or abrupt. *)

From Stdlib Require Import ZArith String List Lia.
From stdpp Require Import base tactics option list gmap strings pretty.

Local Open Scope Z_scope.

(** ** JavaScript values *)

Module Js.

Inductive ErrorKind := KError | KTypeError.

(** An [Error] object: its constructor, its message and the [status]
    property that request errors carry. *)
Record Error := mkError {
  err_kind : ErrorKind;
  err_message : string;
  err_status : option Z
}.

Definition newError (msg : string) : Error := mkError KError msg None.
Definition newTypeError (msg : string) : Error := mkError KTypeError msg None.

(** The shape of a retry breaker: [(error) => [shouldStop, error]]. *)
Definition RetryBreaker : Type := Error -> bool * Error.

(** Values.  Numbers are doubles: [VNumber z] is the integer [z],
    [VFraction m e] the number [m / 2^e] (every double that is not an
    integer is of this form), [VInfinity] one of the two infinities and
    [VNaN] not-a-number.  The arithmetic that the code does (a comparison,
    a power of two, a product with a power of two) is exact on them but for
    overflow, which gives an infinity from 2^1024 on.  An integer beyond
    2^53 stands for a double only when it is one; negative zero and the
    rounding of a result that is no double are outside the model.  Strings
    are not values of the model (labels, property names and messages are
    typed [string]).  Plain objects, functions and tasks are references;
    the behaviour of a function called as a retry breaker travels with
    it. *)
Inductive Value :=
| VUndefined
| VNull
| VBool (b : bool)
| VNumber (z : Z)
| VFraction (m : Z) (e : positive)
| VInfinity (negative : bool)
| VNaN
| VObject (ref : nat)
| VFunction (ref : nat) (call : RetryBreaker)
| VError (e : Error)
| VTask (ref : nat).

Inductive TypeTag := TUndefined | TObject | TBoolean | TNumber | TFunction.

Definition typeof (v : Value) : TypeTag :=
  match v with
  | VUndefined => TUndefined
  | VNull => TObject
  | VBool _ => TBoolean
  | VNumber _ | VFraction _ _ | VInfinity _ | VNaN => TNumber
  | VObject _ | VError _ | VTask _ => TObject
  | VFunction _ _ => TFunction
  end.

(** ToBoolean. *)
Definition truthy (v : Value) : bool :=
  match v with
  | VUndefined | VNull | VNaN => false
  | VBool b => b
  | VNumber z => negb (z =? 0)
  | VFraction m _ => negb (m =? 0)
  | VInfinity _ => true
  | VObject _ | VFunction _ _ | VError _ | VTask _ => true
  end.

(** [!v]. *)
Definition js_not (v : Value) : Value := VBool (negb (truthy v)).

(** A number that is not [NaN]: [m / 2^e], or an infinity. *)
Inductive Num :=
| Finite (m : Z) (e : N)
| Infinite (negative : bool).

Definition scale (e : N) : Z := 2 ^ Z.of_N e.

(** ToNumber; [None] is [NaN].  Objects, functions and errors convert
    through their string form, which is not a numeric literal. *)
Definition to_number (v : Value) : option Num :=
  match v with
  | VUndefined | VNaN => None
  | VNull => Some (Finite 0 0)
  | VBool b => Some (Finite (if b then 1 else 0) 0)
  | VNumber z => Some (Finite z 0)
  | VFraction m e => Some (Finite m (Npos e))
  | VInfinity negative => Some (Infinite negative)
  | VObject _ | VFunction _ _ | VError _ | VTask _ => None
  end.

Definition num_le (x y : Num) : bool :=
  match x, y with
  | Finite m e, Finite m' e' => m * scale e' <=? m' * scale e
  | Infinite true, _ => true
  | _, Infinite false => true
  | _, _ => false
  end.

Definition num_lt (x y : Num) : bool := negb (num_le y x).

Definition num_eq (x y : Num) : bool := num_le x y && num_le y x.

(** [a <= b], [a >= b], [a < b]: false as soon as one side is [NaN]. *)
Definition js_le (a b : Value) : bool :=
  match to_number a, to_number b with
  | Some x, Some y => num_le x y
  | _, _ => false
  end.

Definition js_ge (a b : Value) : bool :=
  match to_number a, to_number b with
  | Some x, Some y => num_le y x
  | _, _ => false
  end.

Definition js_lt (a b : Value) : bool :=
  match to_number a, to_number b with
  | Some x, Some y => num_lt x y
  | _, _ => false
  end.

(** The double [m / 2^e]: an infinity when it has outgrown the doubles, an
    integer when it is one. *)
Definition ofFinite (m : Z) (e : N) : Value :=
  if scale (1024 + e) <=? Z.abs m then VInfinity (m <? 0)
  else
    match e with
    | N0 => VNumber m
    | Npos p =>
      if m mod scale e =? 0 then VNumber (m / scale e) else VFraction m p
    end.

(** [a * b]. *)
Definition js_mul (a b : Value) : Value :=
  match to_number a, to_number b with
  | Some (Finite m e), Some (Finite m' e') => ofFinite (m * m') (e + e')
  | Some (Finite m _), Some (Infinite negative)
  | Some (Infinite negative), Some (Finite m _) =>
    if m =? 0 then VNaN else VInfinity (xorb negative (m <? 0))
  | Some (Infinite negative), Some (Infinite negative') =>
    VInfinity (xorb negative negative')
  | _, _ => VNaN
  end.

(** [2 ** k], for an integer [k]: 2^1024 is no double any more, and below
    2^-1074 there is only zero. *)
Definition js_pow2 (k : Z) : Value :=
  if 1024 <=? k then VInfinity false
  else if 0 <=? k then VNumber (2 ^ k)
  else if -1074 <=? k then VFraction 1 (Z.to_pos (- k))
  else VNumber 0.

#[global] Instance ErrorKind_eq_dec : EqDecision ErrorKind.
Proof. solve_decision. Defined.

#[global] Instance Error_eq_dec : EqDecision Error.
Proof. solve_decision. Defined.

(** [a === b].  References compare by identity, [NaN] differs from itself;
    error objects, which have no reference in the model, compare by
    content. *)
Definition strict_eq (a b : Value) : bool :=
  match a, b with
  | VUndefined, VUndefined | VNull, VNull => true
  | VBool x, VBool y => bool_decide (x = y)
  | VObject r, VObject s | VTask r, VTask s => bool_decide (r = s)
  | VFunction r _, VFunction s _ => bool_decide (r = s)
  | VError e, VError f => bool_decide (e = f)
  | _, _ =>
    match typeof a, typeof b, to_number a, to_number b with
    | TNumber, TNumber, Some x, Some y => num_eq x y
    | _, _, _, _ => false
    end
  end.

(** The digits of [r / 2^e] after the point, for [0 <= r < 2^e]: the
    expansion ends, since [r / 2^e = r * 5^e / 10^e]. *)
Fixpoint fractionDigits (e : nat) (r : Z) (d : Z) : string :=
  match e with
  | O => EmptyString
  | S e' =>
    if r =? 0 then EmptyString
    else pretty (10 * r / d) +:+ fractionDigits e' (10 * r mod d) d
  end.

(** The text a value contributes to a template literal.  The source text
    of a function is not modelled.  A number is written in full, as
    JavaScript writes it when it has at most 15 digits and lies between
    10^-6 and 10^21. *)
Definition to_display (v : Value) : string :=
  match v with
  | VUndefined => "undefined"
  | VNull => "null"
  | VBool b => if b then "true" else "false"
  | VNumber z => pretty z
  | VFraction m e =>
    if m mod scale (Npos e) =? 0 then pretty (m / scale (Npos e))
    else
      (if m <? 0 then "-" else EmptyString) +:+
      pretty (Z.abs m / scale (Npos e)) +:+ "." +:+
      fractionDigits (Pos.to_nat e) (Z.abs m mod scale (Npos e)) (scale (Npos e))
  | VInfinity negative => if negative then "-Infinity" else "Infinity"
  | VNaN => "NaN"
  | VObject _ => "[object Object]"
  | VFunction _ _ => "function"
  | VError e => "Error: " +:+ err_message e
  | VTask _ => "[object EventTarget]"
  end.

(** How a piece of code completes: normally with a value, or abruptly with
    a thrown error (for an [async] function: the promise is fulfilled or
    rejected). *)
Inductive Completion (A : Type) :=
| Normal (a : A)
| Throw (e : Error).
Arguments Normal {A} a.
Arguments Throw {A} e.

(** A property read [o.k] on the properties of an object. *)
Definition get (o : gmap string Value) (k : string) : Value :=
  default VUndefined (o !! k).

(** An object that the code uses as a keyed collection ([context.steps],
    the object that [getInputs] fills): its own properties, and its
    prototype when that is no longer [Object.prototype] ([None] is the
    prototype that the literal [{}] gives). *)
Record Obj := mkObj {
  own : gmap string Value;
  proto : option Value
}.

(** [{}] *)
Definition emptyObj : Obj := mkObj ∅ None.

(** The values that the setter of [__proto__] takes: objects and
    [null]. *)
Definition objectOrNull (v : Value) : bool :=
  match v with
  | VNull | VObject _ | VFunction _ _ | VError _ | VTask _ => true
  | _ => false
  end.

(** Whether an assignment to [__proto__] finds the accessor of
    [Object.prototype]: not under a [null] prototype. *)
Definition inheritsAccessor (o : Obj) : bool :=
  match proto o with
  | Some VNull => false
  | _ => true
  end.

(** [o[k] = v].  The key [__proto__] names the accessor of
    [Object.prototype]: the assignment creates no property, and replaces
    the prototype when [v] is an object or [null].  Any other key becomes
    an own property.  The objects that the model lets [__proto__] install
    are taken to be ordinary: they inherit from [Object.prototype], are
    not frozen and have no accessor and no read-only property (those of a
    function, [name] and [length], are not modelled); under a prototype
    with an accessor or a read-only property of the name assigned, the
    assignment would create no property, or throw, and such prototypes
    are outside the model. *)
Definition assignProp (o : Obj) (k : string) (v : Value) : Obj :=
  if String.eqb k "__proto__" && inheritsAccessor o then
    if objectOrNull v then mkObj (own o) (Some v) else o
  else mkObj (<[k := v]> (own o)) (proto o).

(** Calling a value as [stopRetries(e)]. *)
Definition call_breaker (f : Value) (e : Error) : Completion (bool * Error) :=
  match f with
  | VFunction _ call => Normal (call e)
  | _ => Throw (newTypeError "stopRetries is not a function")
  end.

(** The default breaker, [(error) => [error.status === 404, error]]. *)
Definition defaultStopRetries : RetryBreaker :=
  fun error => (bool_decide (err_status error = Some 404), error).

End Js.

Export Js.

(** ** The wrapper module: retry engine and request builder *)

Module Wrapper.

(** [{ success: true, data }] or [{ success: false, error }]. *)
Inductive Result :=
| Success (data : Value)
| Failure (error : Error).

(** What a run of the engine does, in order: an invocation of the
    callback on a given attempt, or a suspension [setTimeout(res, delay)].
    Console output is not recorded. *)
Inductive Event :=
| Call (attempt : Z)
| Sleep (delay : Value).

(** [new Error(`Request failed after ${maxRetries} attempts`)]. *)
Definition exhausted (maxRetries : Value) : Error :=
  newError ("Request failed after " +:+ to_display maxRetries +:+ " attempts").

(** The [while (attempt <= maxRetries)] loop of [runWithRetries].  The
    callback is given by the completion of each of its invocations,
    indexed by the attempt that makes it.  [budget] bounds the number of
    iterations; under a finite limit [runWithRetries] passes one that the
    loop never uses up ([retryLoop_budget]). *)
Fixpoint retryLoop (callback : Z -> Completion Value)
    (maxRetries interval stopRetries : Value)
    (budget : nat) (attempt : Z) : list Event * Completion (option Result) :=
  match budget with
  | O => ([], Normal None)
  | S budget' =>
    if js_le (VNumber attempt) maxRetries then
      match callback attempt with
      | Normal data => ([Call attempt], Normal (Some (Success data)))
      | Throw e =>
        match call_breaker stopRetries e with
        | Throw te => ([Call attempt], Throw te)
        | Normal (shouldStop, error) =>
          if shouldStop then
            ([Call attempt], Normal (Some (Failure error)))
          else if js_ge (VNumber attempt) maxRetries then
            ([Call attempt], Normal (Some (Failure (exhausted maxRetries))))
          else
            let delay := js_mul interval (js_pow2 (attempt - 1)) in
            let '(events, completion) :=
              retryLoop callback maxRetries interval stopRetries
                        budget' (attempt + 1) in
            (Call attempt :: Sleep delay :: events, completion)
        end
      end
    else ([], Normal None)
  end.

(** The iterations the loop can make: none when [maxRetries] is [NaN],
    and as many as the attempts that are not above a finite limit.  Under
    an infinite limit the loop ends by a success or a stop only; the budget
    is then 2^53, the attempt at which the counter of the source stops
    advancing: a run of that many attempts is outside the model. *)
Definition loopBudget (maxRetries : Value) : nat :=
  match to_number maxRetries with
  | Some (Finite m e) => Z.to_nat (m / scale e)
  | Some (Infinite false) => Z.to_nat (2 ^ 53)
  | _ => O
  end.

(** The objects of the wrapper: the request state objects
    [{ restQuery, queryObject, propertyName }] and the plain objects, among
    them the retry configurations.  Both are reached through references,
    so that two builders can share one. *)
Inductive RestQuery :=
| Route (route : string)         (* 'GET /repositories/{repository_id}' *)
| Endpoint (method : string).    (* octokit.rest.repos.getContent *)

Definition Params : Type := list (string * string).

Record RequestState := {
  restQuery : RestQuery;
  queryObject : Params;
  propertyName : option string   (* [None] is [null] *)
}.

Record Store := mkStore {
  states : gmap nat RequestState;
  objects : gmap nat (gmap string Value)
}.

(** The properties that a value offers to a destructuring or to a spread;
    [None] for [undefined] and [null], which have none to read.  Values
    other than plain objects carry no property that the wrapper names. *)
Definition props (heap : gmap nat (gmap string Value)) (v : Value)
    : option (gmap string Value) :=
  match v with
  | VUndefined | VNull => None
  | VObject r => Some (default ∅ (heap !! r))
  | _ => Some ∅
  end.

(** [runWithRetries(callback, retryConfig)].  The result [None] is
    [undefined]: the loop was left without a [return]. *)
Definition runWithRetries (heap : gmap nat (gmap string Value))
    (callback : Z -> Completion Value) (retryConfig : Value)
    : list Event * Completion (option Result) :=
  match props heap retryConfig with
  | None => ([], Throw (newTypeError "Cannot destructure 'retryConfig'"))
  | Some o =>
    let maxRetries := get o "maxRetries" in
    let interval := get o "interval" in
    let stopRetries := get o "stopRetries" in
    retryLoop callback maxRetries interval stopRetries (loopBudget maxRetries) 1
  end.

(** The client capability: what [octokit.request(route, params)] and a
    bound [octokit.rest] method answer on their n-th use by the engine.
    [fields] are the properties of [data]. *)
Record Response := {
  data : Value;
  fields : gmap string Value
}.

Record Octokit := {
  octokit_request : string -> Params -> Z -> Completion Response;
  octokit_rest : string -> Params -> Z -> Completion Response
}.

Definition nonEmpty (name : option string) : bool :=
  match name with
  | Some s => negb (String.eqb s EmptyString)
  | None => false
  end.

(** The double quote character, as a string. *)
Definition quote : string := String (Ascii.ascii_of_nat 34) EmptyString.

(** [request(octokit, requestData)], on its n-th invocation.  The first
    branch is for a reference that designates nothing, which no builder
    holds. *)
Definition request (σ : Store) (octokit : Octokit) (requestData : nat) (n : Z)
    : Completion Value :=
  match states σ !! requestData with
  | None => Throw (newTypeError "requestData is undefined")
  | Some st =>
    let answer :=
      match restQuery st with
      | Endpoint m => octokit_rest octokit m (queryObject st) n
      | Route r => octokit_request octokit r (queryObject st) n
      end in
    match answer with
    | Throw e => Throw e
    | Normal response =>
      let projected :=
        if nonEmpty (propertyName st) then
          match data response with
          | VUndefined | VNull => VUndefined
          | _ => get (fields response) (default EmptyString (propertyName st))
          end
        else data response in
      if nonEmpty (propertyName st) && strict_eq projected VUndefined then
        Throw (newError ("Property " +:+ quote +:+ default EmptyString (propertyName st)
                 +:+ quote +:+ " not found in response."))
      else Normal projected
    end
  end.

(** [attemptRequest(octokit, requestData, retryConfig)]. *)
Definition attemptRequest (σ : Store) (octokit : Octokit)
    (requestData : nat) (retryConfig : Value)
    : list Event * Completion (option Result) :=
  runWithRetries (objects σ) (request σ octokit requestData) retryConfig.

(** A request builder: the object that [buildRequest] returns.  Its
    methods are closures over [state] and [retryConfig]; the builder is
    given by these two captured references. *)
Record Builder := mkBuilder {
  b_state : nat;
  b_retryConfig : Value
}.

Definition allocObject (o : gmap string Value) (σ : Store) : nat * Store :=
  let r := fresh (dom (objects σ)) in
  (r, mkStore (states σ) (<[r := o]> (objects σ))).

Definition allocState (st : RequestState) (σ : Store) : nat * Store :=
  let r := fresh (dom (states σ)) in
  (r, mkStore (<[r := st]> (states σ)) (objects σ)).

(** [{ ...v }]: spreading [undefined] or [null] copies nothing. *)
Definition spread (σ : Store) (v : Value) : gmap string Value :=
  default ∅ (props (objects σ) v).

Definition buildRequest (state : nat) (retryConfig : Value) : Builder :=
  mkBuilder state retryConfig.

(** [withRetries: maxRetries => ...] *)
Definition withRetries (b : Builder) (maxRetries : Value) (σ : Store)
    : Completion Builder * Store :=
  match typeof maxRetries with
  | TNumber =>
    let '(r, σ') :=
      allocObject (<["maxRetries" := maxRetries]> (spread σ (b_retryConfig b))) σ in
    (Normal (buildRequest (b_state b) (VObject r)), σ')
  | _ => (Throw (newError "maxRetries must be a number!"), σ)
  end.

(** [withInterval: interval => ...] *)
Definition withInterval (b : Builder) (interval : Value) (σ : Store)
    : Completion Builder * Store :=
  match typeof interval with
  | TNumber =>
    let '(r, σ') :=
      allocObject (<["interval" := interval]> (spread σ (b_retryConfig b))) σ in
    (Normal (buildRequest (b_state b) (VObject r)), σ')
  | _ => (Throw (newError "interval must be a number!"), σ)
  end.

(** [withRetryBreaker: callback => ...] *)
Definition withRetryBreaker (b : Builder) (callback : Value) (σ : Store)
    : Completion Builder * Store :=
  match typeof callback with
  | TFunction =>
    let '(r, σ') :=
      allocObject (<["stopRetries" := callback]> (spread σ (b_retryConfig b))) σ in
    (Normal (buildRequest (b_state b) (VObject r)), σ')
  | _ => (Throw (newError "callback must be a function!"), σ)
  end.

(** [withRetryConfig: config => { return buildRequest(state, config) }]:
    the caller's object is captured as it is. *)
Definition withRetryConfig (b : Builder) (config : Value) (σ : Store)
    : Completion Builder * Store :=
  (Normal (buildRequest (b_state b) config), σ).

(** [withProperty: propertyName => buildRequest({ ...state, propertyName }, retryConfig)].
    The first branch is for a reference that designates nothing, which no
    builder holds. *)
Definition withProperty (b : Builder) (name : option string) (σ : Store)
    : Completion Builder * Store :=
  match states σ !! b_state b with
  | None => (Throw (newTypeError "state is undefined"), σ)
  | Some st =>
    let '(r, σ') :=
      allocState {| restQuery := restQuery st;
                    queryObject := queryObject st;
                    propertyName := name |} σ in
    (Normal (buildRequest r (b_retryConfig b)), σ')
  end.

(** [runWith: octokit => attemptRequest(octokit, state, retryConfig)] *)
Definition runWith (b : Builder) (octokit : Octokit) (σ : Store)
    : list Event * Completion (option Result) :=
  attemptRequest σ octokit (b_state b) (b_retryConfig b).

Definition MAX_RETRIES : Z := 3.
Definition INTERVAL : Z := 2000.

(** [createRequest(restQuery, queryObject)] *)
Definition createRequest (q : RestQuery) (params : Params) (σ : Store)
    : Builder * Store :=
  let '(rc, σ1) :=
    allocObject (<["maxRetries" := VNumber MAX_RETRIES]>
                 (<["interval" := VNumber INTERVAL]>
                 (<["stopRetries" := VFunction 0 defaultStopRetries]> ∅))) σ in
  let '(st, σ2) :=
    allocState {| restQuery := q; queryObject := params; propertyName := None |} σ1 in
  (buildRequest st (VObject rc), σ2).

(** The configuration calls of a builder, as one type. *)
Inductive ConfigCall :=
| WithRetries (maxRetries : Value)
| WithInterval (interval : Value)
| WithRetryBreaker (callback : Value)
| WithProperty (name : option string).

Definition configure (call : ConfigCall) (b : Builder) (σ : Store)
    : Completion Builder * Store :=
  match call with
  | WithRetries v => withRetries b v σ
  | WithInterval v => withInterval b v σ
  | WithRetryBreaker v => withRetryBreaker b v σ
  | WithProperty name => withProperty b name σ
  end.


(** What a builder describes: the request state and the properties of the
    retry configuration that its methods close over. *)
Definition descriptor (σ : Store) (b : Builder) : option RequestState :=
  states σ !! b_state b.

Definition policy (σ : Store) (b : Builder) : option (gmap string Value) :=
  props (objects σ) (b_retryConfig b).

(** A builder of a store: the references that its methods close over
    designate objects of the store. *)
Definition valid (σ : Store) (b : Builder) : Prop :=
  is_Some (states σ !! b_state b) ∧
  ∀ r, b_retryConfig b = VObject r → is_Some (objects σ !! r).

Definition withPropertyName (name : option string) (st : RequestState)
    : RequestState :=
  {| restQuery := restQuery st; queryObject := queryObject st;
     propertyName := name |}.

(** What a configuration call on [b] in [σ] is meant to change: [b'] in
    [σ'] describes what [b] described in [σ], but for the one setting of
    the call. *)
Definition changes (call : ConfigCall) (σ : Store) (b : Builder)
    (σ' : Store) (b' : Builder) : Prop :=
  match call with
  | WithRetries v =>
    descriptor σ' b' = descriptor σ b ∧
    policy σ' b' = Some (<["maxRetries" := v]> (default ∅ (policy σ b)))
  | WithInterval v =>
    descriptor σ' b' = descriptor σ b ∧
    policy σ' b' = Some (<["interval" := v]> (default ∅ (policy σ b)))
  | WithRetryBreaker v =>
    descriptor σ' b' = descriptor σ b ∧
    policy σ' b' = Some (<["stopRetries" := v]> (default ∅ (policy σ b)))
  | WithProperty name =>
    descriptor σ' b' = withPropertyName name <$> descriptor σ b ∧
    policy σ' b' = policy σ b
  end.

(** One pass through the body of the loop of [runWithRetries]: it ends
    the run with a completion, or it asks for another attempt after a
    delay. *)
Inductive Step :=
| Done (c : Completion (option Result))
| Again (delay : Value).

Definition step (callback : Z -> Completion Value)
    (maxRetries interval stopRetries : Value) (attempt : Z) : Step :=
  match callback attempt with
  | Normal data => Done (Normal (Some (Success data)))
  | Throw e =>
    match call_breaker stopRetries e with
    | Throw te => Done (Throw te)
    | Normal (shouldStop, error) =>
      if shouldStop then Done (Normal (Some (Failure error)))
      else if js_ge (VNumber attempt) maxRetries then
        Done (Normal (Some (Failure (exhausted maxRetries))))
      else Again (js_mul interval (js_pow2 (attempt - 1)))
    end
  end.

(** The events of a run that starts with attempt [first] and makes [more]
    attempts after it, each after the backoff delay of the one before. *)
Fixpoint schedule (interval : Value) (first : Z) (more : nat) : list Event :=
  match more with
  | O => [Call first]
  | S k =>
    Call first :: Sleep (js_mul interval (js_pow2 (first - 1)))
      :: schedule interval (first + 1) k
  end.

(** The number of invocations of the callback in a run. *)
Fixpoint calls (events : list Event) : nat :=
  match events with
  | [] => O
  | Call _ :: rest => S (calls rest)
  | Sleep _ :: rest => calls rest
  end.

(** The suspensions that a run makes before a given attempt, since the
    attempt before it (or since the start); [None] when the run does not
    make that attempt. *)
Fixpoint sleptBefore (events : list Event) (attempt : Z) (pending : list Value)
    : option (list Value) :=
  match events with
  | [] => None
  | Sleep d :: rest => sleptBefore rest attempt (pending ++ [d])
  | Call a :: rest =>
    if a =? attempt then Some pending else sleptBefore rest attempt []
  end.

Definition delaysBefore (events : list Event) (attempt : Z) : option (list Value) :=
  sleptBefore events attempt [].

End Wrapper.

(** ** The older wrapper (src/octokit-wrapper.js): no stop predicate, no
    check of the configuration values *)

Module Legacy.
Import Wrapper.

Fixpoint retryLoop (callback : Z -> Completion Value)
    (maxRetries interval : Value)
    (budget : nat) (attempt : Z) : list Event * Completion (option Result) :=
  match budget with
  | O => ([], Normal None)
  | S budget' =>
    if js_le (VNumber attempt) maxRetries then
      match callback attempt with
      | Normal data => ([Call attempt], Normal (Some (Success data)))
      | Throw e =>
        if js_ge (VNumber attempt) maxRetries then
          ([Call attempt], Normal (Some (Failure (exhausted maxRetries))))
        else
          let delay := js_mul interval (js_pow2 (attempt - 1)) in
          let '(events, completion) :=
            retryLoop callback maxRetries interval budget' (attempt + 1) in
          (Call attempt :: Sleep delay :: events, completion)
      end
    else ([], Normal None)
  end.

Definition runWithRetries (heap : gmap nat (gmap string Value))
    (callback : Z -> Completion Value) (retryConfig : Value)
    : list Event * Completion (option Result) :=
  match props heap retryConfig with
  | None => ([], Throw (newTypeError "Cannot destructure 'retryConfig'"))
  | Some o =>
    let maxRetries := get o "maxRetries" in
    let interval := get o "interval" in
    retryLoop callback maxRetries interval (loopBudget maxRetries) 1
  end.

(** [withRetries: maxRetries => buildRequest(state, { ...retryConfig, maxRetries })] *)
Definition withRetries (b : Builder) (maxRetries : Value) (σ : Store)
    : Completion Builder * Store :=
  let '(r, σ') :=
    allocObject (<["maxRetries" := maxRetries]> (spread σ (b_retryConfig b))) σ in
  (Normal (buildRequest (b_state b) (VObject r)), σ').

(** [withInterval: interval => buildRequest(state, { ...retryConfig, interval })] *)
Definition withInterval (b : Builder) (interval : Value) (σ : Store)
    : Completion Builder * Store :=
  let '(r, σ') :=
    allocObject (<["interval" := interval]> (spread σ (b_retryConfig b))) σ in
  (Normal (buildRequest (b_state b) (VObject r)), σ').

(** A breaker that never stops and hands the error back. *)
Definition neverStop : RetryBreaker := λ e, (false, e).

End Legacy.

(** ** Task and TaskChain (src/executors/classes) *)

Module Executors.

Inductive Signal := taskSuccess | taskError.

(** The execution context [{ inputs, steps }] of a chain run. *)
Record Context := mkContext {
  ctx_inputs : Value;
  ctx_steps : Obj
}.

(** The action of a task, given by the completion of each invocation
    [this.#action(context)]: it may depend on the context it is handed and
    on the attempt that invokes it.  An action that writes to the context
    or to a chain is outside the model. *)
Definition Action : Type := Context -> Z -> Completion Value.

(** A declared input [{ name, defaultValue, isTemplate }]. *)
Record Input := {
  in_name : string;
  in_defaultValue : Value;
  in_isTemplate : Value
}.

(** An element of the array [inputs]: [null] or [undefined], or an object
    [{ name, defaultValue, isTemplate }] whose name is a string. *)
Inductive Element :=
| Nullish
| Declared (input : Input).

(** The property [inputs] of a config: absent, an array, or a value that
    is no array. *)
Inductive Inputs :=
| NoInputs
| InputArray (elements : list Element)
| NotAnArray.

(** The [config] object of a task; an absent property is [undefined]. *)
Record Config := {
  cfg_inputs : Inputs;
  cfg_retries : Value;
  cfg_interval : Value;
  cfg_stopRetries : Value
}.

(** A [Task] instance: its private fields.  [t_chain] is [#chain], [None]
    for [null]. *)
Record TaskObj := mkTask {
  t_label : string;
  t_action : Action;
  t_config : Config;
  t_chain : option nat
}.

(** A [TaskChain] instance: [#chain] and [#stopChain]. *)
Record ChainObj := mkChain {
  c_chain : list Value;
  c_stopChain : Value
}.

(** A listener registered on the global event target, on which
    [#dispatchEvent] dispatches through the host's [dispatchEvent].  It is
    given by the arguments of the calls [event.detail.breakChain(value)]
    that it makes, in order, when it is handed a signal, the task that
    raised it and the result or error that the signal carries.  A listener
    that does more than that (one that calls [setChain] on
    [event.detail.task], changes a chain, registers a listener or throws)
    is outside the model. *)
Definition Listener : Type := Signal -> nat -> Value -> list Value.

Record World := mkWorld {
  tasks : gmap nat TaskObj;
  chains : gmap nat ChainObj;
  listeners : list Listener
}.

(** What the code does, in order. *)
Inductive Event :=
| EvRun (task : nat)                       (* task.run(context) is entered *)
| EvAction (task : nat) (attempt : Z)      (* this.#action(context) *)
| EvSleep (delay : Value)                  (* setTimeout(res, delay) *)
| EvSignal (s : Signal) (task : nat) (payload : Value)   (* dispatchEvent(customEvent) *)
| EvRecord (label : string) (result : Value)   (* context.steps[label] = result *)
| EvCheckAbort (stopChain : Value).        (* if (this.#stopChain) *)

(** Code runs on the world, leaves a trace and completes normally or
    abruptly; what it wrote before a [throw] stays written. *)
Definition M (A : Type) : Type := World -> list Event * Completion A * World.

Definition ret {A} (a : A) : M A := λ w, ([], Normal a, w).

Definition bind {A B} (m : M A) (k : A -> M B) : M B :=
  λ w, match m w with
       | (tr, Normal a, w1) =>
         let '(tr', c, w2) := k a w1 in (tr ++ tr', c, w2)
       | (tr, Throw e, w1) => (tr, Throw e, w1)
       end.

Definition throw {A} (e : Error) : M A := λ w, ([], Throw e, w).

Definition emit (ev : Event) : M unit := λ w, ([ev], Normal tt, w).

Definition gets {A} (f : World -> A) : M A := λ w, ([], Normal (f w), w).

Definition modify (f : World -> World) : M unit := λ w, ([], Normal tt, f w).

Definition lift {A} (c : Completion A) : M A := λ w, ([], c, w).

(** [try { body } catch (e) { handler }] *)
Definition try_catch {A} (body : M A) (handler : Error -> M A) : M A :=
  λ w, match body w with
       | (tr, Normal a, w1) => (tr, Normal a, w1)
       | (tr, Throw e, w1) =>
         let '(tr', c, w2) := handler e w1 in (tr ++ tr', c, w2)
       end.

Notation "x <- m ;; k" := (bind m (λ x, k))
  (at level 100, m at next level, right associativity).
Notation "m ;;; k" := (bind m (λ _, k))
  (at level 100, right associativity).

(** [string.isEmptyOrNull] of the package @stgroves/js-utilities, which is
    outside the repository, read by its name; on a string it asks whether
    the string is empty. *)
Definition isEmptyOrNull (s : string) : bool := String.eqb s EmptyString.

(** [/\s/.test(label)], on strings of code units below 256: the white
    space among them is tab, line feed, vertical tab, form feed, carriage
    return, space and no-break space. *)
Definition isWhiteSpace (c : Ascii.ascii) : bool :=
  let n := Ascii.nat_of_ascii c in
  ((9 <=? n)%nat && (n <=? 13)%nat) || (n =? 32)%nat || (n =? 160)%nat.

Fixpoint hasWhiteSpace (s : string) : bool :=
  match s with
  | EmptyString => false
  | String c rest => isWhiteSpace c || hasWhiteSpace rest
  end.

(** A destructuring default: [x = d] takes [d] when the property is
    [undefined]. *)
Definition orDefault (v d : Value) : Value :=
  match v with
  | VUndefined => d
  | _ => v
  end.

(** *** Task *)

(** The error of [const { name, ... } = input] for an input that is
    [null] or [undefined]. *)
Definition nullishInput : Error :=
  newTypeError "Cannot destructure property 'name' of 'input' as it is undefined.".

(** The [forEach] over [inputs] in [#validateInputs]. *)
Fixpoint validateDeclared (declared : list Element) : Completion unit :=
  match declared with
  | [] => Normal tt
  | Nullish :: _ => Throw nullishInput
  | Declared input :: rest =>
    if isEmptyOrNull (in_name input) then
      Throw (newError "inputs must have a name!")
    else
      match typeof (orDefault (in_isTemplate input) (VBool true)) with
      | TBoolean => validateDeclared rest
      | _ => Throw (newError "isTemplate must be a boolean!")
      end
  end.

(** The elements that [#validateInputs] goes through: [inputs = []] when
    the property is absent. *)
Definition elementsOf (inputs : Inputs) : list Element :=
  match inputs with
  | InputArray elements => elements
  | _ => []
  end.

(** [Array.isArray(inputs)], after the default. *)
Definition isArray (inputs : Inputs) : bool :=
  match inputs with
  | NotAnArray => false
  | _ => true
  end.

(** [#validateInputs(label, action, config)].  The label is a string, the
    action a function and the configuration an object by their types: the
    checks of [typeof action] and [typeof config] pass.  (A configuration
    that is [null] passes the check of [typeof] too, and the destructuring
    that follows throws a TypeError; it is outside the model.) *)
Definition validateInputs (label : string) (config : Config) : Completion unit :=
  if isEmptyOrNull label then Throw (newError "Task must have a label!")
  else if hasWhiteSpace label then
    Throw (newError "label must not contain any whitespaces!")
  else
    let retries := orDefault (cfg_retries config) (VNumber 3) in
    let interval := orDefault (cfg_interval config) (VNumber 2000) in
    let stopRetries :=
      orDefault (cfg_stopRetries config) (VFunction 0 defaultStopRetries) in
    if negb (isArray (cfg_inputs config)) then
      Throw (newError "inputs must be an array!")
    else
    match validateDeclared (elementsOf (cfg_inputs config)) with
    | Throw e => Throw e
    | Normal _ =>
      match typeof retries with
      | TNumber =>
        if js_lt retries (VNumber 1) then
          Throw (newError "retries must be at least 1!")
        else
          match typeof interval with
          | TNumber =>
            if js_lt interval (VNumber 500) then
              Throw (newError "interval must be at least 500(ms)!")
            else
              match typeof stopRetries with
              | TFunction => Normal tt
              | _ => Throw (newError "stopRetries must be a Function!")
              end
          | _ => Throw (newError "interval must be a number!")
          end
      | _ => Throw (newError "retries must be a number!")
      end
    end.

(** [new Task(label, action, config)] *)
Definition newTask (label : string) (action : Action) (config : Config) : M nat :=
  _ <- lift (validateInputs label config) ;;
  r <- gets (λ w, fresh (dom (tasks w))) ;;
  modify (λ w, mkWorld (<[r := mkTask label action config None]> (tasks w))
                       (chains w) (listeners w)) ;;;
  ret r.

(** [new TaskChain()]: [#chain] is empty, [#stopChain] not yet assigned. *)
Definition newTaskChain : M nat :=
  r <- gets (λ w, fresh (dom (chains w))) ;;
  modify (λ w, mkWorld (tasks w) (<[r := mkChain [] VUndefined]> (chains w))
                       (listeners w)) ;;;
  ret r.

(** The world in which [#stopChain] of chain [c] is [value]. *)
Definition flagged (c : nat) (value : Value) (w : World) : World :=
  mkWorld (tasks w)
          (alter (λ ch, mkChain (c_chain ch) value) c (chains w))
          (listeners w).

(** [this.#stopChain = value] of a chain. *)
Definition setStopChain (c : nat) (value : Value) : M unit :=
  modify (flagged c value).

(** [breakChain(value = true)] of a chain. *)
Definition breakChain (c : nat) (value : Value) : M unit :=
  setStopChain c (orDefault value (VBool true)).

(** The closure [customEvent.detail.breakChain]: what a call with [value]
    makes of the local [stopChain]. *)
Definition override (stopChain value : Value) : Value :=
  if strict_eq value stopChain then stopChain else value.

(** What the listeners leave in [stopChain]: every listener of the global
    target is served (the event has no other target to propagate to), and
    each call of [detail.breakChain] acts on what the calls before it
    left. *)
Definition decision (ls : list Listener) (event : Signal) (self : nat)
    (payload : Value) (stopChain : Value) : Value :=
  fold_left override (concat (map (λ l : Listener, l event self payload) ls))
            stopChain.

(** The error of [this.#chain.breakChain()] when [#chain] is [null]. *)
Definition nullChain : Error :=
  newTypeError "Cannot read properties of null (reading 'breakChain')".

(** [#dispatchEvent(event, context, stopChain = true)] of task [self];
    [payload] is the result or the error that [context] holds. *)
Definition dispatchEvent (self : nat) (event : Signal) (payload : Value)
    (stopChain : Value) : M unit :=
  ls <- gets listeners ;;
  emit (EvSignal event self payload) ;;;
  if truthy (decision ls event self payload (orDefault stopChain (VBool true))) then
    owner <- gets (λ w, t_chain <$> tasks w !! self) ;;
    match owner with
    | Some (Some c) => breakChain c VUndefined
    | _ => throw nullChain
    end
  else ret tt.

(** The world in which [#chain] of task [t] is [chain]. *)
Definition attach (t : nat) (chain : option nat) (w : World) : World :=
  mkWorld (alter (λ o, mkTask (t_label o) (t_action o) (t_config o) chain) t (tasks w))
          (chains w) (listeners w).

(** [setChain(chain)] and [getName()], called on a value. *)
Definition setChain (task : Value) (chain : option nat) : M unit :=
  match task with
  | VTask t => modify (attach t chain)
  | VUndefined | VNull =>
    throw (newTypeError "Cannot read properties of null (reading 'setChain')")
  | _ => throw (newTypeError "task.setChain is not a function")
  end.

Definition getName (task : Value) : M string :=
  match task with
  | VTask t =>
    o <- gets (λ w, tasks w !! t) ;;
    match o with
    | Some obj => ret (t_label obj)
    | None => throw (newTypeError "task.getName is not a function")
    end
  | VUndefined | VNull =>
    throw (newTypeError "Cannot read properties of null (reading 'getName')")
  | _ => throw (newTypeError "task.getName is not a function")
  end.

Definition exhausted (retries : Value) : Error :=
  newError ("Request failed after " +:+ to_display retries +:+ " attempts").

(** The [try] block of the loop of [Task.run]: the action, then the
    dispatch of the success signal. *)
Definition tryBlock (self : nat) (action : Action) (context : Context)
    (attempt : Z) : M (option (bool * Value)) :=
  emit (EvAction self attempt) ;;;
  result <- lift (action context attempt) ;;
  dispatchEvent self taskSuccess result (VBool false) ;;;
  ret (Some (true, result)).

(** Its [catch (e)] block; [again] is the rest of the loop, from
    [attempt++] on. *)
Definition catchBlock (self : nat) (retries interval stopRetries : Value)
    (attempt : Z) (again : M (option (bool * Value))) (e : Error)
    : M (option (bool * Value)) :=
  r <- lift (call_breaker stopRetries e) ;;
  let '(shouldStop, error) := r in
  if shouldStop then
    dispatchEvent self taskError (VError error) VUndefined ;;;
    ret (Some (false, VError error))
  else if js_ge (VNumber attempt) retries then
    let error := exhausted retries in
    dispatchEvent self taskError (VError error) VUndefined ;;;
    ret (Some (false, VError error))
  else
    let delay := js_mul interval (js_pow2 (attempt - 1)) in
    emit (EvSleep delay) ;;;
    again.

(** The [while (attempt <= retries)] loop of [Task.run].  [budget] bounds
    the number of iterations; [Task_run] passes one that the loop never
    uses up. *)
Fixpoint runLoop (self : nat) (action : Action) (context : Context)
    (retries interval stopRetries : Value)
    (budget : nat) (attempt : Z) : M (option (bool * Value)) :=
  match budget with
  | O => ret None
  | S budget' =>
    if js_le (VNumber attempt) retries then
      try_catch
        (tryBlock self action context attempt)
        (catchBlock self retries interval stopRetries attempt
           (runLoop self action context retries interval stopRetries
                    budget' (attempt + 1)))
    else ret None
  end.

Definition loopBudget (retries : Value) : nat :=
  match to_number retries with
  | Some (Finite m e) => Z.to_nat (m / scale e)
  | Some (Infinite false) => Z.to_nat (2 ^ 53)
  | _ => O
  end.

(** [run(context)] of task [self]; [None] is [undefined]. *)
Definition Task_run (self : nat) (context : Context) : M (option (bool * Value)) :=
  o <- gets (λ w, tasks w !! self) ;;
  match o with
  | None => throw (newTypeError "task.run is not a function")
  | Some obj =>
    let retries := orDefault (cfg_retries (t_config obj)) (VNumber 3) in
    let interval := orDefault (cfg_interval (t_config obj)) (VNumber 2000) in
    let stopRetries :=
      orDefault (cfg_stopRetries (t_config obj)) (VFunction 0 defaultStopRetries) in
    emit (EvRun self) ;;;
    runLoop self (t_action obj) context retries interval stopRetries
            (loopBudget retries) 1
  end.

(** [task.run(context)], called on a value. *)
Definition run (task : Value) (context : Context) : M (option (bool * Value)) :=
  match task with
  | VTask t => Task_run t context
  | VUndefined | VNull =>
    throw (newTypeError "Cannot read properties of null (reading 'run')")
  | _ => throw (newTypeError "task.run is not a function")
  end.

(** *** TaskChain *)

Definition instanceofTask (v : Value) : bool :=
  match v with
  | VTask _ => true
  | _ => false
  end.

(** [#validateTask(task)]: [if (!task instanceof Task) throw ...], which
    JavaScript reads as [(!task) instanceof Task]. *)
Definition validateTask (task : Value) : M unit :=
  if instanceofTask (js_not task) then
    throw (newError "task is not an instance of Task!")
  else ret tt.

(** [#validateLabel(label)] *)
Definition validateLabel (label : string) : M unit :=
  if isEmptyOrNull label then throw (newError "label cannot be empty!")
  else if hasWhiteSpace label then
    throw (newError "label must not contain any whitespaces!")
  else ret tt.

Definition chainOf (c : nat) : M (list Value) :=
  gets (λ w, default [] (c_chain <$> chains w !! c)).

(** The world in which the array [#chain] of chain [c] has gone through
    [f]. *)
Definition rewrite_chain (c : nat) (f : list Value -> list Value) (w : World) : World :=
  mkWorld (tasks w)
          (alter (λ ch, mkChain (f (c_chain ch)) (c_stopChain ch)) c (chains w))
          (listeners w).

Definition setChainArray (c : nat) (f : list Value -> list Value) : M unit :=
  modify (rewrite_chain c f).

(** [this.#chain.findIndex((x) => x.getName() === label)], from index [i]
    on. *)
Fixpoint findIndexByLabel (chain : list Value) (label : string) (i : nat)
    : M (option nat) :=
  match chain with
  | [] => ret None
  | x :: rest =>
    n <- getName x ;;
    if String.eqb n label then ret (Some i)
    else findIndexByLabel rest label (S i)
  end.

(** [#findByLabel(label)] *)
Definition findByLabel (c : nat) (label : string) : M nat :=
  chain <- chainOf c ;;
  idx <- findIndexByLabel chain label O ;;
  match idx with
  | None => throw (newError (label +:+ " cannot be found!"))
  | Some i => ret i
  end.

(** [this.#chain.indexOf(task)], from index [i] on. *)
Fixpoint indexOf (chain : list Value) (task : Value) (i : nat) : option nat :=
  match chain with
  | [] => None
  | x :: rest => if strict_eq x task then Some i else indexOf rest task (S i)
  end.

(** [getTask(label)]; the task found is returned as the value held by
    the array. *)
Definition getTask (c : nat) (label : string) : M Value :=
  if isEmptyOrNull label then throw (newError "Task must have a label!")
  else if hasWhiteSpace label then
    throw (newError "label must not contain any whitespaces!")
  else
    idx <- findByLabel c label ;;
    chain <- chainOf c ;;
    ret (default VUndefined (chain !! idx)).

(** [addTask(task)] *)
Definition addTask (c : nat) (task : Value) : M unit :=
  validateTask task ;;;
  setChainArray c (λ chain, chain ++ [task]) ;;;
  setChain task (Some c).

(** [removeTask(task)] *)
Definition removeTask (c : nat) (task : Value) : M unit :=
  validateTask task ;;;
  chain <- chainOf c ;;
  match indexOf chain task O with
  | None =>
    n <- getName task ;;
    throw (newError (n +:+ " cannot be found!"))
  | Some idx =>
    setChainArray c (λ chain, take idx chain ++ drop (S idx) chain) ;;;
    setChain task None
  end.

(** [chain.splice(idx, 0, v)]. *)
Definition insertedAt (idx : nat) (v : Value) (chain : list Value) : list Value :=
  take idx chain ++ v :: drop idx chain.

(** [insertBeforeTask(task, label)] *)
Definition insertBeforeTask (c : nat) (task : Value) (label : string) : M unit :=
  validateTask task ;;;
  validateLabel label ;;;
  idx <- findByLabel c label ;;
  setChainArray c (insertedAt idx task) ;;;
  setChain task (Some c).

(** [insertAfterTask(task, label)] *)
Definition insertAfterTask (c : nat) (task : Value) (label : string) : M unit :=
  validateTask task ;;;
  validateLabel label ;;;
  idx <- findByLabel c label ;;
  setChainArray c (insertedAt (S idx) task) ;;;
  setChain task (Some c).

Definition stopChainOf (c : nat) : M Value :=
  gets (λ w, default VUndefined (c_stopChain <$> chains w !! c)).

(** The [for (const task of this.#chain)] loop of [TaskChain.run], on the
    tasks still to visit. *)
Fixpoint runTasks (c : nat) (todo : list Value) (context : Context) : M Context :=
  match todo with
  | [] => ret context
  | task :: rest =>
    r <- run task context ;;
    match r with
    | None => throw (newTypeError "undefined is not iterable")
    | Some (_, result) =>
      label <- getName task ;;
      let context' :=
        mkContext (ctx_inputs context) (assignProp (ctx_steps context) label result) in
      emit (EvRecord label result) ;;;
      stopChain <- stopChainOf c ;;
      emit (EvCheckAbort stopChain) ;;;
      if truthy stopChain then ret context'
      else runTasks c rest context'
    end
  end.

(** [run(inputs)] of chain [c].  The source returns nothing; the context
    that the run has built is returned here, for the statements about
    it. *)
Definition TaskChain_run (c : nat) (inputs : Value) : M Context :=
  let context := mkContext inputs emptyObj in
  setStopChain c (VBool false) ;;;
  chain <- chainOf c ;;
  runTasks c chain context.

(** The label of a member of a chain (a member that is not a task has
    none), and the members and their labels, in order. *)
Definition labelOf (w : World) (v : Value) : option string :=
  match v with
  | VTask t => t_label <$> tasks w !! t
  | _ => None
  end.

Definition members (w : World) (c : nat) : list Value :=
  default [] (c_chain <$> chains w !! c).

Definition labels (w : World) (c : nat) : list (option string) :=
  map (labelOf w) (members w c).

Definition stopChain (w : World) (c : nat) : Value :=
  default VUndefined (c_stopChain <$> chains w !! c).

(** The index of the first member that carries a label, from index [i]
    on. *)
Fixpoint firstWithLabel (w : World) (chain : list Value) (label : string)
    (i : nat) : option nat :=
  match chain with
  | [] => None
  | x :: rest =>
    if bool_decide (labelOf w x = Some label) then Some i
    else firstWithLabel w rest label (S i)
  end.

(** A chain run seen from the chain: a task is run, a result is recorded
    under a label, the abort flag is checked. *)
Inductive ChainEvent :=
| Ran (task : nat)
| Recorded (label : string) (result : Value)
| Checked (abort : bool).

Fixpoint chainView (events : list Event) : list ChainEvent :=
  match events with
  | [] => []
  | EvRun t :: rest => Ran t :: chainView rest
  | EvRecord l r :: rest => Recorded l r :: chainView rest
  | EvCheckAbort v :: rest => Checked (truthy v) :: chainView rest
  | _ :: rest => chainView rest
  end.

(** One executed task of a chain run: the task, the label and the result
    recorded for it, and what the check of the abort flag found. *)
Record Entry := mkEntry {
  e_task : nat;
  e_label : string;
  e_result : Value;
  e_abort : bool
}.

Definition shape (log : list Entry) : list ChainEvent :=
  concat (map (λ e, [Ran (e_task e); Recorded (e_label e) (e_result e);
                     Checked (e_abort e)]) log).




(** The world after [this.#chain.breakChain()] on chain [c]. *)
Definition aborted (w : World) (c : nat) : World := flagged c (VBool true) w.

(** What a dispatch makes of the world, by the owner of the task and the
    decision that the listeners leave. *)
Definition settled (w : World) (owner : option nat) (d : Value) (w' : World) : Prop :=
  if truthy d then ∃ c, owner = Some c ∧ w' = aborted w c else w' = w.

(** What a run of the loop of [Task.run] can come to, for task [self] of
    owner [owner] in world [w]: the signal that goes with what it returns,
    and the world that it leaves. *)
Definition outcome (self : nat) (w : World) (owner : option nat)
    (tr : list Event) (r : Completion (option (bool * Value))) (w' : World) : Prop :=
  match r with
  | Normal (Some (true, res)) =>
    EvSignal taskSuccess self res ∈ tr ∧
    settled w owner (decision (listeners w) taskSuccess self res (VBool false)) w'
  | Normal (Some (false, err)) =>
    EvSignal taskError self err ∈ tr ∧
    settled w owner (decision (listeners w) taskError self err (VBool true)) w'
  | Normal None => w' = w
  | Throw e => w' = w
  end.

(** The completion that goes with a signal in the trace. *)
Definition signalled (self : nat) (w : World) (owner : option nat)
    (tr : list Event) (r : Completion (option (bool * Value))) : Prop :=
  (∀ p, EvSignal taskError self p ∈ tr →
        r = Normal (Some (false, p)) ∨
        (r = Throw nullChain ∧ owner = None ∧
         truthy (decision (listeners w) taskError self p (VBool true)) = true)) ∧
  (∀ res, EvSignal taskSuccess self res ∈ tr →
        truthy (decision (listeners w) taskSuccess self res (VBool false)) = false
        ∨ owner ≠ None →
        r = Normal (Some (true, res))).

(** A run of a task seen as a run of the retry engine: the invocations of
    the action and the suspensions, and the completion of the engine that
    goes with what [Task.run] returns. *)
Fixpoint engineView (events : list Event) : list Wrapper.Event :=
  match events with
  | [] => []
  | EvAction _ attempt :: rest => Wrapper.Call attempt :: engineView rest
  | EvSleep delay :: rest => Wrapper.Sleep delay :: engineView rest
  | _ :: rest => engineView rest
  end.

Definition ofEngine (r : Completion (option Wrapper.Result))
    : Completion (option (bool * Value)) :=
  match r with
  | Normal (Some (Wrapper.Success data)) => Normal (Some (true, data))
  | Normal (Some (Wrapper.Failure error)) => Normal (Some (false, VError error))
  | Normal None => Normal None
  | Throw e => Throw e
  end.

(** No listener overrides the abort decision of a signal of a task: what
    the listeners leave in [stopChain] is what the signal starts from. *)
Definition notOverridden (w : World) (event : Signal) (self : nat)
    (stopChain : Value) : Prop :=
  ∀ payload,
    decision (listeners w) event self payload stopChain = stopChain.

End Executors.

(** ** Concrete operations, policies and worlds, for the examples *)

Module Fixtures.
Import Wrapper.

(** An operation that fails with status 500 twice and then with status
    404, and the default policy of [createRequest] with a limit of five. *)
Definition flaky (i : Z) : Completion Value :=
  Throw (mkError KError "request failed" (Some (if i <? 3 then 500 else 404))).


Definition policy5 : gmap string Value :=
  <["maxRetries" := VNumber 5]>
  (<["interval" := VNumber 2000]>
  (<["stopRetries" := VFunction 0 defaultStopRetries]> ∅)).

(** The same policy with a limit of 1100 attempts. *)
Definition policy1100 : gmap string Value :=
  <["maxRetries" := VNumber 1100]>
  (<["interval" := VNumber 2000]>
  (<["stopRetries" := VFunction 0 defaultStopRetries]> ∅)).

(** The same policy with a limit of 3/2. *)
Definition policyThreeHalves : gmap string Value :=
  <["maxRetries" := VFraction 3 1]>
  (<["interval" := VNumber 2000]>
  (<["stopRetries" := VFunction 0 defaultStopRetries]> ∅)).

Definition policy1 : gmap string Value :=
  <["maxRetries" := VNumber 1]>
  (<["interval" := VNumber 2000]>
  (<["stopRetries" := VFunction 0 defaultStopRetries]> ∅)).

(** An operation that always fails with status 500, and one that succeeds
    on its third invocation. *)
Definition failing (i : Z) : Completion Value :=
  Throw (mkError KError "request failed" (Some 500)).


(** A client whose every answer is an error of status 500, the builder
    that [createRequest] returns in the empty store, two configurations
    derived from it, and a caller's configuration object whose stop
    predicate is [null]. *)
Definition octokit500 : Octokit :=
  {| octokit_request := λ _ _ _, Throw (mkError KError "Server Error" (Some 500));
     octokit_rest := λ _ _ _, Throw (mkError KError "Server Error" (Some 500)) |}.

Definition template : Builder * Store :=
  createRequest (Route "GET /repositories/{repository_id}") [] (mkStore ∅ ∅).




Definition nullBreaker : gmap string Value :=
  <["maxRetries" := VNumber 3]>
  (<["interval" := VNumber 2000]>
  (<["stopRetries" := VNull]> ∅)).

Definition callerStore : nat * Store := allocObject nullBreaker template.2.

End Fixtures.

Module ChainFixtures.
Import Executors.

Definition emptyWorld : World := mkWorld ∅ ∅ [].

(** A configuration that sets the number of attempts and nothing else. *)
Definition attempts (n : Z) : Config :=
  {| cfg_inputs := NoInputs; cfg_retries := VNumber n;
     cfg_interval := VUndefined; cfg_stopRetries := VUndefined |}.

(** A configuration that sets [inputs] and nothing else. *)
Definition withInputs (inputs : Inputs) : Config :=
  {| cfg_inputs := inputs; cfg_retries := VUndefined;
     cfg_interval := VUndefined; cfg_stopRetries := VUndefined |}.

Definition succeeds (v : Value) : Action := λ _ _, Normal v.

Definition fails : Action :=
  λ _ _, Throw (mkError KError "Server Error" (Some 500)).

Definition noContext : Context := mkContext VNull emptyObj.

Definition worldAfter {A} (m : M A) (w : World) : World := (m w).2.

(** A chain whose one task, "build", always fails. *)
Definition oneFailing : World :=
  worldAfter (c <- newTaskChain ;;
              t <- newTask "build" fails (attempts 1) ;;
              addTask c (VTask t)) emptyWorld.

(** The same task, never added to a chain, and a listener that answers
    every failure signal with [event.detail.breakChain(false)]. *)
Definition forgiving : Listener :=
  λ event _ _, match event with taskError => [VBool false] | taskSuccess => [] end.

Definition detachedQuiet : World :=
  worldAfter (newTask "build" fails (attempts 1)) emptyWorld.

Definition detachedForgiven : World :=
  mkWorld (tasks detachedQuiet) (chains detachedQuiet) [forgiving].

(** A chain with one task "build", and a second task "build" not yet in
    it. *)
Definition twoBuilds : World :=
  worldAfter (c <- newTaskChain ;;
              a <- newTask "build" fails (attempts 1) ;;
              b <- newTask "build" (succeeds (VNumber 7)) (attempts 1) ;;
              addTask c (VTask a)) emptyWorld.

(** The chain once the second "build" is added to it. *)
Definition duplicated : World := worldAfter (addTask 0 (VTask 1)) twoBuilds.

(** An empty chain. *)
Definition emptyChain : World := worldAfter newTaskChain emptyWorld.


End ChainFixtures.

(** ** More of the wrapper: the cost of a run, chains of configuration
    calls, and the answers of the client *)

Module Fluent.
Import Wrapper.

(** The sum of the delays that a run hands to [setTimeout], in
    milliseconds, when each of them is an integer.  This is what the run
    asks for, not the time that it waits: a timer set for more than
    2^31 - 1 milliseconds fires after one. *)
Fixpoint totalDelay (events : list Event) : option Z :=
  match events with
  | [] => Some 0
  | Sleep (VNumber d) :: rest => Z.add d <$> totalDelay rest
  | Sleep _ :: rest => None
  | Call _ :: rest => totalDelay rest
  end.

(** A chain of configuration calls [b.c1(..).c2(..)...]: each call is made
    on the builder that the call before it returned, and the first call
    that throws ends the chain. *)
Fixpoint configureAll (calls : list ConfigCall) (b : Builder) (σ : Store)
    : Completion Builder * Store :=
  match calls with
  | [] => (Normal b, σ)
  | call :: rest =>
    match configure call b σ with
    | (Normal b', σ') => configureAll rest b' σ'
    | (Throw e, σ') => (Throw e, σ')
    end
  end.

(** What a call sets in a retry configuration and in a request state. *)
Definition setPolicy (o : gmap string Value) (call : ConfigCall) : gmap string Value :=
  match call with
  | WithRetries v => <["maxRetries" := v]> o
  | WithInterval v => <["interval" := v]> o
  | WithRetryBreaker v => <["stopRetries" := v]> o
  | WithProperty _ => o
  end.

Definition setDescriptor (st : RequestState) (call : ConfigCall) : RequestState :=
  match call with
  | WithProperty name => withPropertyName name st
  | _ => st
  end.

(** The policy and the request state that [createRequest] starts from. *)
Definition defaultPolicy : gmap string Value :=
  <["maxRetries" := VNumber MAX_RETRIES]>
  (<["interval" := VNumber INTERVAL]>
  (<["stopRetries" := VFunction 0 defaultStopRetries]> ∅)).

Definition initialState (q : RestQuery) (params : Params) : RequestState :=
  {| restQuery := q; queryObject := params; propertyName := None |}.

(** The answer of the client to the request that a state describes, on its
    n-th use. *)
Definition answer (octokit : Octokit) (st : RequestState) (n : Z)
    : Completion Response :=
  match restQuery st with
  | Endpoint m => octokit_rest octokit m (queryObject st) n
  | Route r => octokit_request octokit r (queryObject st) n
  end.

(** [undefined] and [null], which [?.] does not read through. *)
Definition nullish (v : Value) : bool :=
  match v with
  | VUndefined | VNull => true
  | _ => false
  end.

(** The error of [request] for a field that the response lacks. *)
Definition propertyNotFound (name : string) : Error :=
  newError ("Property " +:+ quote +:+ name +:+ quote +:+ " not found in response.").

End Fluent.

(** ** A task seen from the wrapper *)

Module TaskPolicy.
Import Executors.

(** The retry configuration [{ maxRetries, interval, stopRetries }] that
    the settings of a task amount to, with the defaults of [Task.run]. *)
Definition policyOf (config : Config) : gmap string Value :=
  <["maxRetries" := orDefault (cfg_retries config) (VNumber 3)]>
  (<["interval" := orDefault (cfg_interval config) (VNumber 2000)]>
  (<["stopRetries" :=
       orDefault (cfg_stopRetries config) (VFunction 0 defaultStopRetries)]> ∅)).

End TaskPolicy.

(** ** What a run leaves of a world *)

Module RunViews.
Import Executors.

(** Two worlds with the same tasks, the same listeners and the same
    members in every chain: they differ in abort flags at most. *)
Definition kept (w w' : World) : Prop :=
  tasks w' = tasks w ∧ listeners w' = listeners w ∧
  ∀ c, members w' c = members w c.


End RunViews.

(** ** The declared inputs of a task and the input template of a chain *)

Module Inputs.
Import Executors.

Section Clone.

(** [object.deepClone] of the package @stgroves/js-utilities, which is
    outside the repository: it is given by the copy that it returns for a
    value. *)
Variable deepClone : Value -> Value.

(** The value that [getInputs] stores for a declared input:
    [isTemplate ? object.deepClone(defaultValue) : defaultValue]. *)
Definition valueOf (input : Input) : Value :=
  if truthy (orDefault (in_isTemplate input) (VBool true))
  then deepClone (in_defaultValue input)
  else in_defaultValue input.

(** [NEW_OBJECT[name] = ...], the body of the [forEach] of [getInputs]. *)
Definition assign (o : Obj) (input : Input) : Obj :=
  assignProp o (in_name input) (valueOf input).

(** The [forEach] over [this.#config.inputs]. *)
Fixpoint assignAll (elements : list Element) (o : Obj) : Completion Obj :=
  match elements with
  | [] => Normal o
  | Nullish :: _ => Throw nullishInput
  | Declared input :: rest => assignAll rest (assign o input)
  end.

(** [getInputs()] of task [self]: [this.#config.inputs] is read as the
    caller gave it, without the default that the constructor applies when
    it validates. *)
Definition Task_getInputs (self : nat) : M Obj :=
  o <- gets (λ w, tasks w !! self) ;;
  match o with
  | None => throw (newTypeError "task.getInputs is not a function")
  | Some obj =>
    match cfg_inputs (t_config obj) with
    | NoInputs =>
      throw (newTypeError "Cannot read properties of undefined (reading 'forEach')")
    | NotAnArray =>
      throw (newTypeError "this.#config.inputs.forEach is not a function")
    | InputArray elements => lift (assignAll elements emptyObj)
    end
  end.

(** [task.getInputs()], called on a value. *)
Definition getInputs (task : Value) : M Obj :=
  match task with
  | VTask t => Task_getInputs t
  | VUndefined | VNull =>
    throw (newTypeError "Cannot read properties of null (reading 'getInputs')")
  | _ => throw (newTypeError "task.getInputs is not a function")
  end.

(** [this.#chain.reduce((template, task) => ({ ...template, ...task.getInputs() }), {})],
    on the members still to visit, the template being given by its own
    properties: a spread copies the own properties, and those of the
    inputs of the task take precedence over the template built so far. *)
Fixpoint reduceInputs (chain : list Value) (template : gmap string Value)
    : M (gmap string Value) :=
  match chain with
  | [] => ret template
  | task :: rest =>
    inputs <- getInputs task ;;
    reduceInputs rest (own inputs ∪ template)
  end.

(** [getInputTemplate()] of chain [c]: the own properties of the object
    that it returns. *)
Definition getInputTemplate (c : nat) : M (gmap string Value) :=
  chain <- chainOf c ;;
  reduceInputs chain ∅.

(** What [getInputs] assigns for a name that is not [__proto__]. *)
Definition put (m : gmap string Value) (input : Input) : gmap string Value :=
  <[in_name input := valueOf input]> m.

End Clone.

(** The inputs that an array of elements declares, when none of them is
    [null] or [undefined]. *)
Fixpoint inputsOf (elements : list Element) : option (list Input) :=
  match elements with
  | [] => Some []
  | Nullish :: _ => None
  | Declared input :: rest => cons input <$> inputsOf rest
  end.

(** The inputs that a member of a chain declares; a member that is not a
    task, or whose configuration has no array of inputs, declares none. *)
Definition declared (w : World) (v : Value) : option (list Input) :=
  match v with
  | VTask t =>
    tasks w !! t ≫= λ obj,
      match cfg_inputs (t_config obj) with
      | InputArray elements => inputsOf elements
      | _ => None
      end
  | _ => None
  end.

(** The declarations of a list of members, in the order of the members. *)
Definition declarations (w : World) (chain : list Value) : list Input :=
  concat (map (λ v, default [] (declared w v)) chain).

End Inputs.

(** ** The providers *)

Module Providers.
Import Wrapper.

(** A sequence of calls of a closure, one after the other, each made when
    the one before it has settled: the results, in order, and the state
    that the last call leaves.  Calls that overlap (a second call made
    while the first awaits) are outside the model. *)
Fixpoint callTimes {S R : Type} (f : S -> R * S) (n : nat) (s : S) : list R * S :=
  match n with
  | O => ([], s)
  | S n' =>
    let '(r, s1) := f s in
    let '(rs, s2) := callTimes f n' s1 in
    (r :: rs, s2)
  end.

(** The variable [cachedOctokit] that a provider reads ([None] is [null];
    an Octokit instance is an object, given by its reference), and the
    number of constructions made so far, which the host is asked by. *)
Record Cache := mkCache {
  cachedOctokit : option nat;
  constructions : nat
}.

Definition emptyCache : Cache := mkCache None O.

Definition failedToCreate : Error := newError "Failed to create Octokit.".

(** The function that [createAppOctokitProvider] and
    [createUserOctokitProvider] of the wrapper return.  [construct] is
    what [app.getInstallationOctokit(installationID)], or
    [new Octokit({ auth })], completes with on each use. *)
Definition provider (construct : nat -> Completion nat) (s : Cache)
    : Result * Cache :=
  match cachedOctokit s with
  | Some o => (Success (VObject o), s)
  | None =>
    match construct (constructions s) with
    | Normal o => (Success (VObject o), mkCache (Some o) (S (constructions s)))
    | Throw _ => (Failure failedToCreate, mkCache None (S (constructions s)))
    end
  end.

(** The function that [createAppOctokitProvider] of
    [src/tasks/createAppOctokitProvider.js] returns (and that of the
    stand-alone [createUserOctokitProvider]): the variable [cachedOctokit]
    of the module is read and nowhere assigned. *)
Definition moduleProvider (construct : nat -> Completion nat) (s : Cache)
    : Completion Value * Cache :=
  match cachedOctokit s with
  | Some o => (Normal (VObject o), s)
  | None =>
    (match construct (constructions s) with
     | Normal o => Normal (VObject o)
     | Throw e => Throw e
     end,
     mkCache (cachedOctokit s) (S (constructions s)))
  end.

(** The answer of the host to the n-th construction, as the module
    provider hands it on. *)
Definition handedOn (construct : nat -> Completion nat) (n : nat) : Completion Value :=
  match construct n with
  | Normal o => Normal (VObject o)
  | Throw e => Throw e
  end.

(** The variable [ready] of a sodium provider, and the number of times
    that [sodiumLib.ready] was awaited. *)
Record Sodium := mkSodium {
  ready : bool;
  awaited : nat
}.

(** The function that [createSodiumProvider(sodiumLib)] returns.
    [readiness] is what the promise [sodiumLib.ready] settles to: a
    promise settles once, so every [await] of it completes alike. *)
Definition sodiumProvider (readiness : Completion unit) (sodiumLib : Value)
    (s : Sodium) : Completion Value * Sodium :=
  if negb (ready s) then
    match readiness with
    | Normal _ => (Normal sodiumLib, mkSodium true (S (awaited s)))
    | Throw e => (Throw e, mkSodium (ready s) (S (awaited s)))
    end
  else (Normal sodiumLib, s).

End Providers.

(** ** The functions of the wrapper that make one request *)

Module Callers.
Import Wrapper.

(** What a caller does, in order: the events of the engine, a call made
    on the client directly, and the lines written to the console. *)
Inductive CallerEvent :=
| Engine (e : Event)
| Direct (method : string) (params : Params)
| Log (message : string)
| LogError (message : string).

(** [createRequest(restQuery, queryObject).runWith(octokit)]. *)
Definition send (q : RestQuery) (params : Params) (octokit : Octokit) (σ : Store)
    : list Event * Completion (option Result) :=
  let '(b, σ') := createRequest q params σ in runWith b octokit σ'.

(** [getRepoByID(octokit, repoID)] *)
Definition getRepoByID (octokit : Octokit) (repoID : string) (σ : Store)
    : list Event * Completion (option Result) :=
  send (Route "GET /repositories/{repository_id}") [("repository_id", repoID)]
       octokit σ.

(** [getRef(octokit, owner, repo, ref)] *)
Definition getRef (octokit : Octokit) (owner repo ref : string) (σ : Store)
    : list Event * Completion (option Result) :=
  send (Endpoint "git.getRef") [("owner", owner); ("repo", repo); ("ref", ref)]
       octokit σ.

(** [getBranch(octokit, owner, repo, branchName)] *)
Definition getBranch (octokit : Octokit) (owner repo branchName : string) (σ : Store)
    : list Event * Completion (option Result) :=
  getRef octokit owner repo ("heads/" +:+ branchName) σ.

(** [getTag(octokit, owner, repo, tagName)] *)
Definition getTag (octokit : Octokit) (owner repo tagName : string) (σ : Store)
    : list Event * Completion (option Result) :=
  getRef octokit owner repo ("tags/" +:+ tagName) σ.

(** A result as the object that it is, and the read [response?.k] of what
    [runWith] resolved to ([None] is [undefined]). *)
Definition resultObject (r : Result) : gmap string Value :=
  match r with
  | Success d => <["success" := VBool true]> (<["data" := d]> ∅)
  | Failure e => <["success" := VBool false]> (<["error" := VError e]> ∅)
  end.

Definition optionalGet (response : option Result) (k : string) : Value :=
  match response with
  | None => VUndefined
  | Some r => get (resultObject r) k
  end.

Section Host.

(** The host and the client beyond the requests: the read
    [baseBranchData.data.object.sha] of an answer, [Buffer.from(v, 'base64')]
    on a value, and [buffer.toString('utf-8')]. *)
Variable shaOf : Response -> Completion string.
Variable Buffer_from : Value -> Completion Value.
Variable toUtf8 : Value -> Value.

(** [ensureBranchExists(octokit, owner, repo, branchName, baseBranch)].
    The direct calls in the [catch] block come after the attempts of the
    engine. *)
Definition ensureBranchExists (octokit : Octokit)
    (owner repo branchName baseBranch : string) (σ : Store)
    : list CallerEvent * Completion unit :=
  let '(events, completion) := getBranch octokit owner repo branchName σ in
  match completion with
  | Normal _ =>
    (map Engine events ++ [Log ("Branch " +:+ branchName +:+ " already exists.")],
     Normal tt)
  | Throw error =>
    if bool_decide (err_status error = Some 404) then
      let n := Z.of_nat (calls events) + 1 in
      let baseParams :=
        [("owner", owner); ("repo", repo); ("ref", "heads/" +:+ baseBranch)] in
      let before :=
        map Engine events ++
        [Log ("Branch " +:+ branchName +:+ " does not exist. Creating it...");
         Direct "git.getRef" baseParams] in
      match octokit_rest octokit "git.getRef" baseParams n with
      | Throw e => (before, Throw e)
      | Normal baseBranchData =>
        match shaOf baseBranchData with
        | Throw e => (before, Throw e)
        | Normal baseSha =>
          let newParams :=
            [("owner", owner); ("repo", repo);
             ("ref", "refs/heads/" +:+ branchName); ("sha", baseSha)] in
          match octokit_rest octokit "git.createRef" newParams (n + 1) with
          | Throw e => (before ++ [Direct "git.createRef" newParams], Throw e)
          | Normal _ =>
            (before ++ [Direct "git.createRef" newParams;
                        Log ("Branch " +:+ branchName +:+ " created successfully.")],
             Normal tt)
          end
        end
      end
    else
      (map Engine events ++
       [LogError ("Error checking branch: " +:+ err_message error)],
       Normal tt)
  end.

(** What [getFile] returns: [{ data: response, processedFile }]. *)
Record File := mkFile {
  file_data : option Result;
  processedFile : Value
}.

(** [getFile(octokit, owner, repo, path, { branch, getRaw })] *)
Definition getFile (octokit : Octokit) (owner repo path branch : string)
    (getRaw : bool) (σ : Store) : list Event * Completion File :=
  let '(events, completion) :=
    send (Endpoint "repos.getContent")
         [("owner", owner); ("repo", repo); ("path", path); ("ref", branch)]
         octokit σ in
  match completion with
  | Throw e => (events, Throw e)
  | Normal response =>
    match Buffer_from (optionalGet response "content") with
    | Throw e => (events, Throw e)
    | Normal buffer =>
      (events, Normal (mkFile response (if getRaw then buffer else toUtf8 buffer)))
    end
  end.

(** [Buffer.from(content).toString('base64')] of a string. *)
Variable toBase64 : string -> string.

(** [createOrUpdateFile(octokit, owner, repo, path, content, commit, branch)].
    [foundSha] is what [data.sha] reads on the result object that
    [getFile] returns as [data]. *)
Definition createOrUpdateFile (octokit : Octokit)
    (owner repo path content commit branch : string) (σ : Store)
    : list Event * Completion (option Result) :=
  let '(events, completion) := getFile octokit owner repo path branch false σ in
  let write (foundSha : Value) :=
    let filePackage :=
      [("owner", owner); ("repo", repo); ("path", path); ("message", commit);
       ("content", toBase64 content); ("branch", branch)] in
    let '(events', result) :=
      send (Endpoint "repos.createOrUpdateFileContents")
           (if truthy foundSha
            then filePackage ++ [("sha", to_display foundSha)]
            else filePackage)
           octokit σ in
    (events ++ events', result) in
  let caught (error : Error) :=
    if negb (bool_decide (err_status error = Some 404))
    then (events, Throw error)
    else write VUndefined in
  match completion with
  | Throw error => caught error
  | Normal file =>
    match file_data file with
    | None =>
      caught (newTypeError "Cannot read properties of undefined (reading 'sha')")
    | Some data => write (get (resultObject data) "sha")
    end
  end.

End Host.

End Callers.

(** ** More concrete clients, chains and worlds, for the examples *)

Module MoreFixtures.
Import Wrapper.

(** A client whose every answer is an error of status 404, and one that
    answers with a payload that has an [id] and no [name]. *)
Definition octokit404 : Octokit :=
  {| octokit_request := λ _ _ _, Throw (mkError KError "Not Found" (Some 404));
     octokit_rest := λ _ _ _, Throw (mkError KError "Not Found" (Some 404)) |}.

Definition repoPayload : Response :=
  {| data := VObject 7; fields := {[ "id" := VNumber 42 ]} |}.

Definition octokitRepo : Octokit :=
  {| octokit_request := λ _ _ _, Normal repoPayload;
     octokit_rest := λ _ _ _, Normal repoPayload |}.

(** The template request asked for one field of the payload. *)
Definition projected (name : string) : Builder * Store :=
  match withProperty (Fixtures.template.1) (Some name) (Fixtures.template.2) with
  | (Normal b, σ) => (b, σ)
  | (Throw _, σ) => (Fixtures.template.1, σ)
  end.

(** A configuration whose number of attempts is [NaN], and a chain whose
    one task, "build", carries it. *)
Definition nanConfig : Executors.Config :=
  {| Executors.cfg_inputs := Executors.NoInputs; Executors.cfg_retries := VNaN;
     Executors.cfg_interval := VUndefined;
     Executors.cfg_stopRetries := VUndefined |}.

Definition nanWorld : Executors.World :=
  ChainFixtures.worldAfter
    (Executors.bind Executors.newTaskChain (λ c,
     Executors.bind (Executors.newTask "build" ChainFixtures.fails nanConfig) (λ t,
     Executors.addTask c (VTask t))))
    ChainFixtures.emptyWorld.

(** A chain of two tasks that both declare the input "env"; the second
    declares "tag" as well.  The copy of a number is the number. *)
Definition declares (inputs : list Executors.Input) : Executors.Config :=
  {| Executors.cfg_inputs := Executors.InputArray (map Executors.Declared inputs);
     Executors.cfg_retries := VUndefined;
     Executors.cfg_interval := VUndefined;
     Executors.cfg_stopRetries := VUndefined |}.

Definition env (v : Z) : Executors.Input :=
  {| Executors.in_name := "env"; Executors.in_defaultValue := VNumber v;
     Executors.in_isTemplate := VUndefined |}.

Definition tag (v : Z) : Executors.Input :=
  {| Executors.in_name := "tag"; Executors.in_defaultValue := VNumber v;
     Executors.in_isTemplate := VBool false |}.

Definition templated : Executors.World :=
  ChainFixtures.worldAfter
    (Executors.bind Executors.newTaskChain (λ c,
     Executors.bind
       (Executors.newTask "build" ChainFixtures.fails (declares [env 1])) (λ a,
     Executors.bind
       (Executors.newTask "deploy" ChainFixtures.fails (declares [env 2; tag 3])) (λ b,
     Executors.bind (Executors.addTask c (VTask a)) (λ _,
     Executors.addTask c (VTask b))))))
    ChainFixtures.emptyWorld.

Definition copy (v : Value) : Value := v.




(** Two chains that share the failing task "build": it is added to the
    first chain, which "deploy" follows it in, and then to the second. *)
Definition shared : Executors.World :=
  ChainFixtures.worldAfter
    (Executors.bind Executors.newTaskChain (λ c1,
     Executors.bind Executors.newTaskChain (λ c2,
     Executors.bind
       (Executors.newTask "build" ChainFixtures.fails (ChainFixtures.attempts 1)) (λ a,
     Executors.bind
       (Executors.newTask "deploy" (ChainFixtures.succeeds (VNumber 8))
                          (ChainFixtures.attempts 1)) (λ b,
     Executors.bind (Executors.addTask c1 (VTask a)) (λ _,
     Executors.bind (Executors.addTask c1 (VTask b)) (λ _,
     Executors.addTask c2 (VTask a))))))))
    ChainFixtures.emptyWorld.

(** A host whose first two constructions of a client fail and whose third
    gives the client 9. *)
Definition thirdConstruction (n : nat) : Completion nat :=
  if (n <? 2)%nat then Throw (newError "Bad credentials") else Normal 9%nat.

(** [Buffer.from] of Node, which refuses [undefined], and a decoding that
    the examples do not look into. *)
Definition nodeBuffer (v : Value) : Completion Value :=
  match v with
  | VUndefined =>
    Throw (newTypeError "The first argument must be of type string or an instance of Buffer, ArrayBuffer, or Array or an Array-like Object. Received undefined")
  | _ => Normal v
  end.

Definition decoded (v : Value) : Value := v.

Definition encoded (s : string) : string := s.

End MoreFixtures.

(** ** Tactics *)

(** Unfold the operations of the monad of [Executors]. *)
Ltac unfoldM :=
  unfold Executors.bind, Executors.ret, Executors.throw, Executors.emit,
    Executors.gets, Executors.modify, Executors.lift, Executors.try_catch in *.

(** An event is in a trace that is written out. *)
Ltac member :=
  solve [ repeat first
            [ apply list_elem_of_here
            | assumption
            | apply list_elem_of_further
            | (apply elem_of_app; right) ] ].

(** An event is not in a trace that is written out and holds none of its
    kind. *)
Ltac absurd_member H :=
  repeat (apply elem_of_cons in H as [H|H]; [discriminate H|]);
  by apply elem_of_nil in H.

(** * Properties *)

(** ** Numbers *)

Module NumFacts.

Lemma scale_pos e : 0 < scale e.
Proof. unfold scale. apply Z.pow_pos_nonneg; lia. Qed.

Lemma scale_0 : scale 0 = 1.
Proof. done. Qed.

Lemma num_le_int a b : num_le (Finite a 0) (Finite b 0) = (a <=? b).
Proof. unfold num_le. by rewrite scale_0, !Z.mul_1_r. Qed.

Lemma js_le_int a b : js_le (VNumber a) (VNumber b) = (a <=? b).
Proof. apply num_le_int. Qed.

Lemma js_ge_int a b : js_ge (VNumber a) (VNumber b) = (a >=? b).
Proof. unfold js_ge. cbn [to_number]. by rewrite num_le_int, Z.geb_leb. Qed.

Lemma js_lt_int a b : js_lt (VNumber a) (VNumber b) = (a <? b).
Proof.
  unfold js_lt, num_lt. cbn [to_number]. rewrite num_le_int.
  by rewrite Z.ltb_antisym.
Qed.

(** An integer is within a finite limit when it is within the integer
    part of the limit. *)
Lemma num_le_floor a m e : num_le (Finite a 0) (Finite m e) = (a <=? m / scale e).
Proof.
  unfold num_le. rewrite scale_0, Z.mul_1_r.
  pose proof (scale_pos e) as Hpos.
  destruct (Z.leb_spec (a * scale e) m) as [Hle|Hgt];
    destruct (Z.leb_spec a (m / scale e)) as [Hle'|Hgt']; try done.
  - exfalso. pose proof (Z.div_le_lower_bound m (scale e) a Hpos). lia.
  - exfalso. pose proof (Z.mul_div_le m (scale e) Hpos). nia.
Qed.

(** An integer at a finite limit or above it. *)
Lemma num_ge_int a m : num_le (Finite m 0) (Finite a 0) = (a >=? m).
Proof. by rewrite num_le_int, Z.geb_leb. Qed.

(** The product of an integer and a power of two that the doubles hold. *)
Lemma js_mul_pow2 i k :
  0 ≤ k < 1024 → Z.abs i * 2 ^ k < 2 ^ 1024 →
  js_mul (VNumber i) (js_pow2 k) = VNumber (i * 2 ^ k).
Proof.
  intros Hk Hfit. unfold js_pow2.
  destruct (Z.leb_spec 1024 k); [lia|]. destruct (Z.leb_spec 0 k); [|lia].
  unfold js_mul. cbn [to_number]. unfold ofFinite.
  change (0 + 0)%N with 0%N. change (scale (1024 + 0)) with (2 ^ 1024).
  rewrite Z.abs_mul, (Z.abs_eq (2 ^ k)) by (apply Z.pow_nonneg; lia).
  by destruct (Z.leb_spec (2 ^ 1024) (Z.abs i * 2 ^ k)); [lia|].
Qed.

(** The product once it has outgrown the doubles. *)
Lemma js_mul_pow2_overflow i k :
  0 ≤ k → i ≠ 0 → (1024 ≤ k ∨ 2 ^ 1024 ≤ Z.abs i * 2 ^ k) →
  js_mul (VNumber i) (js_pow2 k) = VInfinity (i <? 0).
Proof.
  intros Hk Hi Hover. unfold js_pow2.
  destruct (Z.leb_spec 1024 k) as [Hbig|Hsmall].
  - unfold js_mul. cbn [to_number].
    destruct (Z.eqb_spec i 0); [done|]. by destruct (i <? 0).
  - destruct Hover as [?|Hover]; [lia|].
    destruct (Z.leb_spec 0 k); [|lia].
    unfold js_mul. cbn [to_number]. unfold ofFinite.
    change (0 + 0)%N with 0%N. change (scale (1024 + 0)) with (2 ^ 1024).
    rewrite Z.abs_mul, (Z.abs_eq (2 ^ k)) by (apply Z.pow_nonneg; lia).
    destruct (Z.leb_spec (2 ^ 1024) (Z.abs i * 2 ^ k)); [|lia].
    f_equal. pose proof (Z.pow_pos_nonneg 2 k ltac:(lia) Hk).
    destruct (Z.ltb_spec (i * 2 ^ k) 0); destruct (Z.ltb_spec i 0); try done; nia.
Qed.

(** Zero times a power of two that is no double. *)
Lemma js_mul_pow2_zero k :
  0 ≤ k →
  js_mul (VNumber 0) (js_pow2 k) = if 1024 <=? k then VNaN else VNumber 0.
Proof.
  intros Hk. unfold js_pow2. destruct (Z.leb_spec 1024 k); [done|].
  by destruct (Z.leb_spec 0 k); [|lia].
Qed.

End NumFacts.

(** ** The retry engine *)

Module RetryFacts.
Import Wrapper NumFacts.

Section Loop.
Variable callback : Z -> Completion Value.
Variables maxRetries interval stopRetries : Value.

Let loop := retryLoop callback maxRetries interval stopRetries.
Let stepAt := step callback maxRetries interval stopRetries.

Lemma retryLoop_unfold budget attempt :
  loop (S budget) attempt =
  if js_le (VNumber attempt) maxRetries then
    match stepAt attempt with
    | Done c => ([Call attempt], c)
    | Again delay =>
      (Call attempt :: Sleep delay :: (loop budget (attempt + 1)).1,
       (loop budget (attempt + 1)).2)
    end
  else ([], Normal None).
Proof.
  subst loop stepAt. cbn [retryLoop]. unfold step.
  destruct (js_le _ _); [|done].
  destruct (callback attempt) as [d|e]; [done|].
  destruct (call_breaker stopRetries e) as [[[] err]|te]; try done.
  destruct (js_ge _ _); [done|].
  by destruct (retryLoop _ _ _ _ _ _).
Qed.

(** More budget than the attempts that are left changes nothing. *)
Lemma retryLoop_budget budget extra attempt :
  to_number maxRetries ≠ Some (Infinite false) →
  (∀ m e, to_number maxRetries = Some (Finite m e) →
          m / scale e - attempt + 1 ≤ Z.of_nat budget) →
  loop (budget + extra)%nat attempt = loop budget attempt.
Proof.
  intros Hfin. revert attempt. induction budget as [|b IH]; intros attempt Hm.
  - destruct extra as [|x]; [done|].
    cbn [Nat.add]. rewrite retryLoop_unfold. subst loop. cbn.
    unfold js_le. cbn [to_number].
    destruct (to_number maxRetries) as [[m e|[]]|] eqn:E; [|done|done|done].
    specialize (Hm m e eq_refl).
    change (attempt * scale e <=? m * scale 0)
      with (num_le (Finite attempt 0) (Finite m e)).
    rewrite num_le_floor.
    destruct (Z.leb_spec attempt (m / scale e)); [lia|done].
  - cbn [Nat.add]. rewrite !retryLoop_unfold.
    destruct (js_le _ _) eqn:Hle; [|done].
    destruct (stepAt attempt); [done|].
    rewrite IH; [done|].
    intros m e E. specialize (Hm m e E). lia.
Qed.

(** A step at the last attempt always ends the run. *)
Lemma step_last attempt m :
  to_number maxRetries = Some (Finite m 0) → m ≤ attempt →
  ∃ c, stepAt attempt = Done c ∧ c ≠ Normal None.
Proof.
  intros E Hle. subst stepAt. unfold step.
  destruct (callback attempt) as [d|e]; [by eexists|].
  destruct (call_breaker stopRetries e) as [[[] err]|te]; [by eexists| |by eexists].
  unfold js_ge. cbn [to_number]. rewrite E, num_ge_int.
  destruct (Z.geb_spec attempt m); [by eexists|lia].
Qed.

(** The shape of a run: attempts [first .. last], of which only the
    last ends the run. *)
Lemma retryLoop_schedule (more : nat) : ∀ budget first m c,
  to_number maxRetries = Some (Finite m 0) →
  first + Z.of_nat more ≤ m →
  m - first + 1 ≤ Z.of_nat budget →
  (∀ i, first ≤ i < first + Z.of_nat more → ∃ d, stepAt i = Again d) →
  stepAt (first + Z.of_nat more) = Done c →
  loop budget first = (schedule interval first more, c).
Proof.
  induction more as [|k IH]; intros budget first m c E Hm Hb Hagain Hdone.
  - destruct budget as [|b]; [lia|].
    rewrite retryLoop_unfold. unfold js_le. cbn [to_number]. rewrite E, num_le_int.
    destruct (Z.leb_spec first m); [|lia].
    replace (first + Z.of_nat 0) with first in Hdone by lia.
    by rewrite Hdone.
  - destruct budget as [|b]; [lia|].
    rewrite retryLoop_unfold. unfold js_le. cbn [to_number]. rewrite E, num_le_int.
    destruct (Z.leb_spec first m); [|lia].
    destruct (Hagain first) as [d Hd]; [lia|]. rewrite Hd.
    rewrite (IH b (first + 1) m c); try done; try lia.
    + cbn. f_equal. f_equal. f_equal.
      subst stepAt. unfold step in Hd.
      destruct (callback first); [done|].
      destruct (call_breaker _ _) as [[[] ?]|]; try done.
      destruct (js_ge _ _); [done|]. by inversion Hd.
    + intros i Hi. apply Hagain. lia.
    + replace (first + 1 + Z.of_nat k) with (first + Z.of_nat (S k)) by lia. done.
Qed.

(** Every run from an attempt within the limit has that shape. *)
Lemma retryLoop_total (gap : nat) : ∀ first m,
  to_number maxRetries = Some (Finite m 0) →
  first ≤ m → m - first = Z.of_nat gap →
  ∃ more c, first + Z.of_nat more ≤ m ∧ c ≠ Normal None ∧
    (∀ i, first ≤ i < first + Z.of_nat more → ∃ d, stepAt i = Again d) ∧
    stepAt (first + Z.of_nat more) = Done c.
Proof.
  induction gap as [|g IH]; intros first m E Hle Hgap.
  - destruct (step_last first m E) as (c & Hc & Hne); [lia|].
    exists O, c. split; [lia|]. split; [done|]. split; [intros; lia|].
    by replace (first + Z.of_nat 0) with first by lia.
  - destruct (stepAt first) as [c|d] eqn:Hs.
    + exists O, c. split; [lia|]. split.
      * subst stepAt. unfold step in Hs.
        destruct (callback first); [by inversion Hs|].
        destruct (call_breaker _ _) as [[[] ?]|]; try by inversion Hs.
        destruct (js_ge _ _); by inversion Hs.
      * split; [intros; lia|]. by replace (first + Z.of_nat 0) with first by lia.
    + destruct (IH (first + 1) m E) as (more & c & Hm & Hne & Hag & Hd); [lia|lia|].
      exists (S more), c. split; [lia|]. split; [done|]. split.
      * intros i Hi. destruct (decide (i = first)) as [->|]; [by eexists|].
        apply Hag. lia.
      * by replace (first + Z.of_nat (S more)) with (first + 1 + Z.of_nat more) by lia.
Qed.
End Loop.

Lemma calls_schedule interval more : ∀ first,
  calls (schedule interval first more) = S more.
Proof. induction more as [|k IH]; intros first; cbn; [done|]. by rewrite IH. Qed.


Lemma last_schedule interval more : ∀ first,
  last (schedule interval first more) = Some (Call (first + Z.of_nat more)).
Proof.
  induction more as [|k IH]; intros first.
  - cbn. do 2 f_equal. lia.
  - cbn [schedule]. rewrite !last_cons, IH. cbn. do 2 f_equal. lia.
Qed.

Lemma sleptBefore_schedule_first interval more first pending :
  sleptBefore (schedule interval first more) first pending = Some pending.
Proof. destruct more; cbn [schedule sleptBefore]; by rewrite Z.eqb_refl. Qed.

Lemma sleptBefore_schedule interval more : ∀ first pending i,
  first < i ≤ first + Z.of_nat more →
  sleptBefore (schedule interval first more) i pending =
  Some [js_mul interval (js_pow2 (i - 2))].
Proof.
  induction more as [|k IH]; intros first pending i Hi; [lia|].
  cbn [schedule sleptBefore].
  destruct (Z.eqb_spec first i); [lia|]. cbn [app].
  destruct (decide (i = first + 1)) as [->|Hne].
  - rewrite sleptBefore_schedule_first.
    by replace (first + 1 - 2) with (first - 1) by lia.
  - apply IH. lia.
Qed.

Lemma sleptBefore_schedule_None interval more : ∀ first pending i,
  i < first ∨ first + Z.of_nat more < i →
  sleptBefore (schedule interval first more) i pending = None.
Proof.
  induction more as [|k IH]; intros first pending i Hi.
  - cbn. destruct (Z.eqb_spec first i); [lia|done].
  - cbn [schedule sleptBefore].
    destruct (Z.eqb_spec first i); [lia|].
    apply IH. lia.
Qed.

(** The loop invokes the operation no more often than its budget allows,
    and once at least when the first attempt is within the limit. *)
Lemma calls_retryLoop callback maxRetries interval stopRetries budget :
  ∀ attempt,
    (calls (retryLoop callback maxRetries interval stopRetries budget attempt).1
     ≤ budget)%nat.
Proof.
  induction budget as [|b IH]; intros attempt; [done|].
  cbn [retryLoop]. destruct (js_le _ _); [|cbn; lia].
  destruct (callback attempt); [cbn; lia|].
  destruct (call_breaker _ _) as [[[] ?]|]; try (cbn; lia).
  destruct (js_ge _ _); [cbn; lia|]. cbv zeta.
  specialize (IH (attempt + 1)).
  destruct (retryLoop _ _ _ _ b _) as [events c]. cbn in *. lia.
Qed.

Lemma calls_retryLoop_first callback maxRetries interval stopRetries budget attempt :
  js_le (VNumber attempt) maxRetries = true →
  (1 ≤ calls (retryLoop callback maxRetries interval stopRetries
                        (S budget) attempt).1)%nat.
Proof.
  intros Hle. cbn [retryLoop]. rewrite Hle.
  destruct (callback attempt); [cbn; lia|].
  destruct (call_breaker _ _) as [[[] ?]|]; try (cbn; lia).
  destruct (js_ge _ _); [cbn; lia|]. cbv zeta.
  destruct (retryLoop _ _ _ _ budget _) as [events c]. cbn. lia.
Qed.

(** The budget under a limit from 1 to 2^53: the integers from 1 up to the
    limit. *)
Lemma budget_within limit :
  js_le (VNumber 1) limit = true →
  js_le limit (VNumber (2 ^ 53)) = true →
  (1 ≤ loopBudget limit)%nat ∧
  ∀ k, (1 ≤ k ≤ loopBudget limit)%nat → js_le (VNumber (Z.of_nat k)) limit = true.
Proof.
  unfold js_le, loopBudget. cbn [to_number].
  destruct (to_number limit) as [[m e|[]]|]; try (by intros [=]).
  - rewrite num_le_floor. intros H1%Z.leb_le _. split; [lia|].
    intros k Hk. rewrite num_le_floor. apply Z.leb_le. lia.
Qed.

(** The suspensions before an attempt of the loop, whatever the limit:
    none before the attempt that the loop starts with, and one, of the
    delay that the attempt before it has computed, before every other
    attempt that it makes. *)
Lemma sleptBefore_retryLoop_made callback maxRetries interval stopRetries
    budget first pending :
  js_le (VNumber first) maxRetries = true →
  sleptBefore (retryLoop callback maxRetries interval stopRetries
                         (S budget) first).1 first pending = Some pending.
Proof.
  intros Hle. cbn [retryLoop]. rewrite Hle.
  destruct (callback first); [cbn; by rewrite Z.eqb_refl|].
  destruct (call_breaker _ _) as [[[] ?]|]; try (cbn; by rewrite Z.eqb_refl).
  destruct (js_ge _ _); [cbn; by rewrite Z.eqb_refl|]. cbv zeta.
  destruct (retryLoop _ _ _ _ budget _) as [events c]. cbn.
  by rewrite Z.eqb_refl.
Qed.

Lemma sleptBefore_retryLoop_first callback maxRetries interval stopRetries
    budget first pending :
  is_Some (sleptBefore (retryLoop callback maxRetries interval stopRetries
                                  budget first).1 first pending) →
  sleptBefore (retryLoop callback maxRetries interval stopRetries
                         budget first).1 first pending = Some pending.
Proof.
  destruct budget as [|b]; [by intros [? [=]]|].
  destruct (js_le (VNumber first) maxRetries) eqn:Hle.
  - intros _. by apply sleptBefore_retryLoop_made.
  - cbn [retryLoop]. rewrite Hle. by intros [? [=]].
Qed.

Lemma sleptBefore_retryLoop callback maxRetries interval stopRetries budget :
  ∀ first pending i,
    first < i →
    is_Some (sleptBefore (retryLoop callback maxRetries interval stopRetries
                                    budget first).1 i pending) →
    sleptBefore (retryLoop callback maxRetries interval stopRetries
                           budget first).1 i pending =
      Some [js_mul interval (js_pow2 (i - 2))].
Proof.
  induction budget as [|b IH]; intros first pending i Hi; [by intros [? [=]]|].
  cbn [retryLoop].
  assert (¬ is_Some (sleptBefore [Call first] i pending)) as Hone.
  { cbn. destruct (Z.eqb_spec first i); [lia|]. by intros [? [=]]. }
  destruct (js_le _ _); [|by intros [? [=]]].
  destruct (callback first); [intros Hs; by destruct Hone|].
  destruct (call_breaker _ _) as [[[] ?]|]; try (intros Hs; by destruct Hone).
  destruct (js_ge _ _); [intros Hs; by destruct Hone|]. cbv zeta.
  destruct (retryLoop _ _ _ _ b (first + 1)) as [events c] eqn:E.
  cbn [fst sleptBefore]. destruct (Z.eqb_spec first i); [lia|]. cbn [app].
  destruct (decide (i = first + 1)) as [->|Hne].
  - intros Hs.
    pose proof (sleptBefore_retryLoop_first callback maxRetries interval stopRetries
                  b (first + 1) [js_mul interval (js_pow2 (first - 1))]) as Hfirst.
    rewrite E in Hfirst. cbn [fst] in Hfirst. rewrite (Hfirst Hs).
    by replace (first + 1 - 2) with (first - 1) by lia.
  - intros Hs. specialize (IH (first + 1) [js_mul interval (js_pow2 (first - 1))] i).
    rewrite E in IH. cbn [fst] in IH. apply IH; [lia|done].
Qed.

Lemma loopBudget_int n : loopBudget (VNumber n) = Z.to_nat n.
Proof. unfold loopBudget. cbn [to_number]. by rewrite scale_0, Z.div_1_r. Qed.

(** The run of [runWithRetries] under a numeric limit of at least one. *)
Lemma runWithRetries_shape heap callback r o n :
  heap !! r = Some o →
  o !! "maxRetries" = Some (VNumber n) →
  1 ≤ n →
  ∃ more c,
    1 + Z.of_nat more ≤ n ∧ c ≠ Normal None ∧
    (∀ i, 1 ≤ i < 1 + Z.of_nat more →
       ∃ d, step callback (VNumber n) (get o "interval") (get o "stopRetries") i = Again d) ∧
    step callback (VNumber n) (get o "interval") (get o "stopRetries")
         (1 + Z.of_nat more) = Done c ∧
    runWithRetries heap callback (VObject r) =
      (schedule (get o "interval") 1 more, c).
Proof.
  intros Hr Hn Hle.
  destruct (retryLoop_total callback (VNumber n) (get o "interval")
              (get o "stopRetries") (Z.to_nat (n - 1)) 1 n)
    as (more & c & Hm & Hne & Hag & Hd); [done|lia|lia|].
  exists more, c. repeat split; try done.
  assert (get o "maxRetries" = VNumber n) as Hg by (unfold get; by rewrite Hn).
  unfold runWithRetries, props. rewrite Hr.
  change (default ∅ (Some o)) with o. cbv zeta. rewrite !Hg.
  apply (retryLoop_schedule _ _ _ _ more _ 1 n c); try done.
  rewrite loopBudget_int. lia.
Qed.

(** The run under a limit [n] where the attempts before [k] fail without
    a stop and attempt [k] ends the run. *)
Lemma runWithRetries_ends_at heap callback r o n k c :
  heap !! r = Some o →
  o !! "maxRetries" = Some (VNumber n) →
  1 ≤ k ≤ n →
  (∀ i, 1 ≤ i < k →
     ∃ d, step callback (VNumber n) (get o "interval") (get o "stopRetries") i = Again d) →
  step callback (VNumber n) (get o "interval") (get o "stopRetries") k = Done c →
  runWithRetries heap callback (VObject r) =
    (schedule (get o "interval") 1 (Z.to_nat (k - 1)), c).
Proof.
  intros Hr Hn Hk Hag Hd.
  assert (get o "maxRetries" = VNumber n) as Hg by (unfold get; by rewrite Hn).
  unfold runWithRetries, props. rewrite Hr.
  change (default ∅ (Some o)) with o. cbv zeta. rewrite !Hg.
  apply (retryLoop_schedule _ _ _ _ (Z.to_nat (k - 1)) _ 1 n c); try done.
  - lia.
  - rewrite loopBudget_int. lia.
  - intros i Hi. apply Hag. lia.
  - by replace (1 + Z.of_nat (Z.to_nat (k - 1))) with k by lia.
Qed.

Lemma step_again callback n interval fr f i e :
  callback i = Throw e → (f e).1 = false → i < n →
  step callback (VNumber n) interval (VFunction fr f) i =
    Again (js_mul interval (js_pow2 (i - 1))).
Proof.
  intros Hc Hf Hi. unfold step. rewrite Hc. cbn [call_breaker].
  destruct (f e) as [stop err]. cbn in Hf. subst stop.
  rewrite js_ge_int. destruct (Z.geb_spec i n); [lia|done].
Qed.

End RetryFacts.

(** The older engine *)

Module LegacyFacts.
Import Wrapper.

(** The older loop is the loop with a stop predicate that never stops. *)
Lemma legacy_retryLoop callback maxRetries interval r budget :
  ∀ attempt,
    Legacy.retryLoop callback maxRetries interval budget attempt =
    retryLoop callback maxRetries interval (VFunction r Legacy.neverStop) budget attempt.
Proof.
  induction budget as [|b IH]; intros attempt; [done|].
  cbn [Legacy.retryLoop retryLoop].
  destruct (js_le (VNumber attempt) maxRetries); [|done].
  destruct (callback attempt) as [d|e]; [done|].
  cbn [call_breaker Legacy.neverStop].
  destruct (js_ge (VNumber attempt) maxRetries); [done|]. by rewrite IH.
Qed.

End LegacyFacts.

Import Wrapper RetryFacts Fixtures.

(** C4: under a limit [n >= 1], when the stop predicate signals stop on
    attempt [k <= n] (the attempts before [k] having failed without a stop),
    the engine invokes the operation exactly [k] times, the [k]-th invocation
    is the last thing it does, and it returns the Failure that wraps the
    error chosen by the predicate, whatever is left of the limit. *)
Theorem stop_predicate_ends_run heap callback r o n k fr f e' :
  heap !! r = Some o →
  o !! "maxRetries" = Some (VNumber n) →
  o !! "stopRetries" = Some (VFunction fr f) →
  1 ≤ k ≤ n →
  (∀ i, 1 ≤ i < k → ∃ e, callback i = Throw e ∧ (f e).1 = false) →
  (∃ e, callback k = Throw e ∧ f e = (true, e')) →
  ∃ events,
    runWithRetries heap callback (VObject r) = (events, Normal (Some (Failure e'))) ∧
    calls events = Z.to_nat k ∧
    last events = Some (Call k).
Proof.
  intros Hr Hn Hs Hk Hbefore (e & Hc & Hf).
  eexists. split.
  - apply (runWithRetries_ends_at heap callback r o n k); try done.
    + intros i Hi. destruct (Hbefore i Hi) as (ei & Hci & Hfi).
      replace (get o "stopRetries") with (VFunction fr f)
        by (unfold get; by rewrite Hs).
      eexists. by apply (step_again _ _ _ _ _ _ ei); [| |lia].
    + replace (get o "stopRetries") with (VFunction fr f)
        by (unfold get; by rewrite Hs).
      unfold step. rewrite Hc. cbn. by rewrite Hf.
  - rewrite calls_schedule, last_schedule. split; [lia|]. do 2 f_equal. lia.
Qed.

Lemma stop_predicate_ends_run_witness :
  ∃ events,
    runWithRetries {[ O := policy5 ]} flaky (VObject O) =
      (events, Normal (Some (Failure (mkError KError "request failed" (Some 404))))) ∧
    calls events = 3%nat ∧ last events = Some (Call 3).
Proof.
  apply (stop_predicate_ends_run {[ O := policy5 ]} flaky O policy5 5 3 O
           defaultStopRetries).
  - reflexivity.
  - reflexivity.
  - reflexivity.
  - lia.
  - intros i Hi. exists (mkError KError "request failed" (Some 500)).
    unfold flaky. destruct (Z.ltb_spec i 3); [done|lia].
  - exists (mkError KError "request failed" (Some 404)). done.
Defined.



(** The delay that the code computes is not the product any more once
    the product has outgrown the doubles: under an interval of 2000 ms the
    delay before attempt 1015 is still [2000 * 2^1013], and the one before
    attempt 1016 is [Infinity]. *)
Lemma backoff_outgrows_the_doubles :
  let events := (runWithRetries {[ O := policy1100 ]} failing (VObject O)).1 in
  delaysBefore events 1015 = Some [VNumber (2000 * 2 ^ 1013)] ∧
  delaysBefore events 1016 = Some [VInfinity false] ∧
  VInfinity false ≠ VNumber (2000 * 2 ^ 1014).
Proof.
  split; [vm_compute; reflexivity|]. split; [vm_compute; reflexivity|]. discriminate.
Qed.

(** C6: under a limit that is a number from 1 to 2^53, and whatever the
    interval and the stop predicate, a run makes no suspension before its
    first attempt; before every attempt [i + 1] that it makes ([i >= 1])
    it makes exactly one, of [interval * 2 ** (i - 1)] as the doubles have
    it.  For an interval that is an integer of magnitude at most 2^53 that
    double is the product [interval * 2^(i-1)] as long as [i <= 1024] and
    the product is below 2^1024 in magnitude (as it is up to [i = 971]),
    an infinity beyond for an interval other than zero, and [NaN] for the
    interval zero from [i = 1025] on.  Under a limit of one the run makes
    one attempt and no suspension. *)
Theorem backoff_delays heap callback r o :
  heap !! r = Some o →
  let limit := get o "maxRetries" in
  let events := (runWithRetries heap callback (VObject r)).1 in
  let delay i := js_mul (get o "interval") (js_pow2 (i - 1)) in
  js_le (VNumber 1) limit = true →
  js_le limit (VNumber (2 ^ 53)) = true →
  delaysBefore events 1 = Some [] ∧
  (∀ i, 1 ≤ i → is_Some (delaysBefore events (i + 1)) →
        delaysBefore events (i + 1) = Some [delay i]) ∧
  (∀ interval i,
        get o "interval" = VNumber interval → Z.abs interval ≤ 2 ^ 53 → 1 ≤ i →
        (i ≤ 1024 → Z.abs interval * 2 ^ (i - 1) < 2 ^ 1024 →
         delay i = VNumber (interval * 2 ^ (i - 1))) ∧
        (i ≤ 971 → delay i = VNumber (interval * 2 ^ (i - 1))) ∧
        (interval ≠ 0 → 1024 < i ∨ 2 ^ 1024 ≤ Z.abs interval * 2 ^ (i - 1) →
         delay i = VInfinity (interval <? 0)) ∧
        (interval = 0 → 1024 < i → delay i = VNaN)) ∧
  (limit = VNumber 1 → events = [Call 1]).
Proof.
  intros Hr limit events delay Hlow Hhigh.
  destruct (budget_within limit Hlow Hhigh) as [Hone _].
  assert (events = (retryLoop callback limit (get o "interval") (get o "stopRetries")
                              (loopBudget limit) 1).1) as Hrun.
  { subst events limit. unfold runWithRetries, props. by rewrite Hr. }
  unfold delaysBefore. split; [|split; [|split]].
  - rewrite Hrun. destruct (loopBudget limit) as [|b]; [lia|].
    by apply sleptBefore_retryLoop_made.
  - intros i Hpos. rewrite Hrun. intros Hsome.
    rewrite sleptBefore_retryLoop; [|lia|done].
    subst delay. cbv beta. by replace (i + 1 - 2) with (i - 1) by lia.
  - intros interval i Hinterval Hsafe Hpos. subst delay. cbv beta.
    rewrite Hinterval. split; [|split; [|split]].
    + intros Hi1 Hfit. apply NumFacts.js_mul_pow2; [lia|done].
    + intros Hi1. apply NumFacts.js_mul_pow2; [lia|].
      apply Z.le_lt_trans with (2 ^ 53 * 2 ^ 970).
      * apply Z.mul_le_mono_nonneg; [lia|done|apply Z.pow_nonneg; lia|].
        apply Z.pow_le_mono_r; lia.
      * rewrite <- Z.pow_add_r by lia. apply Z.pow_lt_mono_r; lia.
    + intros Hne Hover. apply NumFacts.js_mul_pow2_overflow; [lia|done|].
      destruct Hover; [left; lia|by right].
    + intros -> Hbig. rewrite NumFacts.js_mul_pow2_zero by lia.
      by destruct (Z.leb_spec 1024 (i - 1)); [|lia].
  - intros Hn.
    assert (o !! "maxRetries" = Some (VNumber 1)) as Hlook.
    { subst limit. unfold get in Hn.
      destruct (o !! "maxRetries") as [v|]; [by cbn in Hn; subst|done]. }
    destruct (runWithRetries_shape heap callback r o 1 Hr Hlook)
      as (more & c & Hm & _ & _ & _ & Heq); [lia|].
    subst events. rewrite Heq. cbn [fst]. by replace more with O by lia.
Qed.

Lemma backoff_delays_witness :
  let events := (runWithRetries {[ O := policy5 ]} failing (VObject O)).1 in
  delaysBefore events 1 = Some [] ∧
  delaysBefore events 2 = Some [VNumber 2000] ∧
  delaysBefore events 5 = Some [VNumber 16000] ∧
  (runWithRetries {[ O := policy1 ]} failing (VObject O)).1 = [Call 1].
Proof.
  destruct (backoff_delays {[ O := policy5 ]} failing O policy5
              (lookup_singleton_eq _ _) eq_refl eq_refl)
    as (Hfirst & Hnext & Hvalue & _).
  destruct (backoff_delays {[ O := policy1 ]} failing O policy1
              (lookup_singleton_eq _ _) eq_refl eq_refl)
    as (_ & _ & _ & Hone).
  split; [exact Hfirst|]. split; [|split].
  - etransitivity; [apply (Hnext 1); [lia|by eexists]|].
    destruct (Hvalue 2000 1 eq_refl) as (_ & Hd & _); [lia|lia|].
    by rewrite Hd by lia.
  - etransitivity; [apply (Hnext 4); [lia|by eexists]|].
    destruct (Hvalue 2000 4 eq_refl) as (_ & Hd & _); [lia|lia|].
    by rewrite Hd by lia.
  - by apply Hone.
Defined.

(** ** The request builder *)

Module BuilderFacts.
Import Wrapper.

Lemma allocObject_spec o σ r σ' :
  allocObject o σ = (r, σ') →
  objects σ !! r = None ∧
  states σ' = states σ ∧
  objects σ' = <[r := o]> (objects σ).
Proof.
  unfold allocObject. intros [= <- <-]. cbn. split; [|done].
  apply not_elem_of_dom, is_fresh.
Qed.

Lemma allocState_spec st σ r σ' :
  allocState st σ = (r, σ') →
  states σ !! r = None ∧
  states σ' = <[r := st]> (states σ) ∧
  objects σ' = objects σ.
Proof.
  unfold allocState. intros [= <- <-]. cbn. split; [|done].
  apply not_elem_of_dom, is_fresh.
Qed.

(** The properties read through a reference that the store holds do not
    depend on what is allocated later. *)
Lemma props_grow heap heap' v :
  heap ⊆ heap' →
  (∀ r, v = VObject r → is_Some (heap !! r)) →
  props heap' v = props heap v.
Proof.
  intros Hsub Hv. destruct v; try done. cbn.
  destruct (Hv ref eq_refl) as [o Ho].
  by rewrite Ho, (lookup_weaken _ _ _ _ Ho Hsub).
Qed.

(** A call that is refused leaves the store as it was. *)
Lemma configure_throw call b σ e σ' :
  configure call b σ = (Throw e, σ') → σ' = σ.
Proof.
  destruct call as [v|v|v|name]; cbn;
    unfold withRetries, withInterval, withRetryBreaker, withProperty.
  1-3: destruct (typeof v); cbn; try (by intros [= _ <-]);
       destruct (allocObject _ _); by intros [=].
  destruct (states σ !! b_state b) as [st|]; [|by intros [= _ <-]].
  destruct (allocState _ _). by intros [=].
Qed.

(** A call that is accepted allocates and writes nothing else. *)
Lemma configure_grows call b σ b' σ' :
  configure call b σ = (Normal b', σ') →
  states σ ⊆ states σ' ∧ objects σ ⊆ objects σ'.
Proof.
  destruct call as [v|v|v|name]; cbn;
    unfold withRetries, withInterval, withRetryBreaker, withProperty.
  1-3: destruct (typeof v); try (by intros [=]);
       destruct (allocObject _ _) as [r σ1] eqn:Ha;
       apply allocObject_spec in Ha as (Hfresh & Es & Eo);
       intros [= _ <-]; rewrite Es, Eo; split; [done|by apply insert_subseteq].
  destruct (states σ !! b_state b) as [st|]; [|by intros [=]].
  destruct (allocState _ _) as [r σ1] eqn:Ha.
  apply allocState_spec in Ha as (Hfresh & Es & Eo).
  intros [= _ <-]. rewrite Es, Eo. split; [by apply insert_subseteq|done].
Qed.


Lemma configure_valid call b σ b' σ' :
  valid σ b → configure call b σ = (Normal b', σ') → valid σ' b'.
Proof.
  intros [Hst Hrc] Hcall.
  pose proof (configure_grows _ _ _ _ _ Hcall) as [Hs Ho].
  revert Hcall.
  destruct call as [v|v|v|name]; cbn;
    unfold withRetries, withInterval, withRetryBreaker, withProperty.
  1-3: destruct (typeof v); try (by intros [=]);
       destruct (allocObject _ _) as [r σ1] eqn:Ha;
       apply allocObject_spec in Ha as (Hfresh & Es & Eo);
       intros [= <- <-]; split; cbn;
       [ destruct Hst as [st Hst]; exists st; by apply (lookup_weaken _ _ _ _ Hst)
       | intros r' [= <-]; rewrite Eo, lookup_insert_eq; by eexists ].
  destruct (states σ !! b_state b) as [st|]; [|by intros [=]].
  destruct (allocState _ _) as [r σ1] eqn:Ha.
  apply allocState_spec in Ha as (Hfresh & Es & Eo).
  intros [= <- <-]. split; cbn.
  - rewrite Es, lookup_insert_eq. by eexists.
  - intros r' Hr'. destruct (Hrc r' Hr') as [o Hlook].
    exists o. by apply (lookup_weaken _ _ _ _ Hlook).
Qed.

(** What the original builder describes is the same in a store that has
    grown. *)
Lemma described_grow σ σ' b :
  states σ ⊆ states σ' → objects σ ⊆ objects σ' → valid σ b →
  descriptor σ' b = descriptor σ b ∧ policy σ' b = policy σ b.
Proof.
  intros Hs Ho [[st Hst] Hrc]. unfold descriptor, policy. split.
  - by rewrite Hst, (lookup_weaken _ _ _ _ Hst Hs).
  - by apply props_grow.
Qed.



(** The effect of one accepted call. *)
Lemma configure_changes call b σ b' σ' :
  valid σ b → configure call b σ = (Normal b', σ') →
  b' ≠ b ∧ changes call σ b σ' b'.
Proof.
  intros [[st Hst] Hrc].
  destruct call as [v|v|v|name]; cbn;
    unfold withRetries, withInterval, withRetryBreaker, withProperty.
  1-3: destruct (typeof v); try (by intros [=]);
       destruct (allocObject _ _) as [r σ1] eqn:Ha;
       apply allocObject_spec in Ha as (Hfresh & Es & Eo);
       intros [= <- <-]; split;
       [ intros Heq; destruct b as [s rc]; cbn in *;
         injection Heq as Hrc'; destruct (Hrc r (eq_sym Hrc')) as [? Hl]; congruence
       | unfold descriptor, policy, spread; cbn; rewrite Es, Eo; split; [done|];
         by rewrite lookup_insert_eq ].
  rewrite Hst.
  destruct (allocState _ _) as [r σ1] eqn:Ha.
  apply allocState_spec in Ha as (Hfresh & Es & Eo).
  intros [= <- <-]. split.
  - intros Heq. destruct b as [s rc]. cbn in *. injection Heq as ->. congruence.
  - unfold descriptor, policy. cbn. rewrite Es, Eo, lookup_insert_eq, Hst. done.
Qed.




(** The checks of [withRetries], [withInterval] and [withRetryBreaker]. *)
Lemma withRetries_refuses b v σ :
  typeof v ≠ TNumber →
  withRetries b v σ = (Throw (newError "maxRetries must be a number!"), σ).
Proof. unfold withRetries. by destruct (typeof v). Qed.

Lemma withInterval_refuses b v σ :
  typeof v ≠ TNumber →
  withInterval b v σ = (Throw (newError "interval must be a number!"), σ).
Proof. unfold withInterval. by destruct (typeof v). Qed.

Lemma withRetryBreaker_refuses b v σ :
  typeof v ≠ TFunction →
  withRetryBreaker b v σ = (Throw (newError "callback must be a function!"), σ).
Proof. unfold withRetryBreaker. by destruct (typeof v). Qed.

(** [withRetryConfig] accepts whatever it is given. *)
Lemma withRetryConfig_accepts b config σ :
  withRetryConfig b config σ = (Normal (buildRequest (b_state b) config), σ).
Proof. done. Qed.

(** The older [withRetries] and [withInterval] accept whatever they are
    given. *)
Lemma legacy_accepts b v σ :
  (∃ b' σ', Legacy.withRetries b v σ = (Normal b', σ')) ∧
  (∃ b' σ', Legacy.withInterval b v σ = (Normal b', σ')).
Proof.
  unfold Legacy.withRetries, Legacy.withInterval.
  split; destruct (allocObject _ _); by do 2 eexists.
Qed.

(** [createRequest] returns a builder of the store it leaves. *)
Lemma createRequest_valid q params σ b σ' :
  createRequest q params σ = (b, σ') → valid σ' b.
Proof.
  unfold createRequest.
  destruct (allocObject _ _) as [rc σ1] eqn:Ha.
  destruct (allocState _ _) as [st σ2] eqn:Hb.
  apply allocObject_spec in Ha as (_ & _ & Eo).
  apply allocState_spec in Hb as (_ & Es & Eo').
  intros [= <- <-]. split; cbn.
  - rewrite Es, lookup_insert_eq. by eexists.
  - intros r [= <-]. rewrite Eo', Eo, lookup_insert_eq. by eexists.
Qed.

End BuilderFacts.

Import BuilderFacts.



(** C8: a retry count or an interval that is not a number, and a stop
    predicate that is not a function, are refused by [withRetries],
    [withInterval] and [withRetryBreaker] ([withRetries_refuses],
    [withInterval_refuses], [withRetryBreaker_refuses]).  [withRetryConfig]
    makes no such check: handed a configuration whose stop predicate is
    [null], it returns a builder; the error comes when that builder is run,
    after the operation has been attempted once. *)
Theorem withRetryConfig_defers_the_error :
  let b := template.1 in
  let '(r, σ) := callerStore in
  withRetryConfig b (VObject r) σ = (Normal (buildRequest (b_state b) (VObject r)), σ) ∧
  runWith (buildRequest (b_state b) (VObject r)) octokit500 σ =
    ([Call 1], Throw (newTypeError "stopRetries is not a function")).
Proof. split; reflexivity. Qed.


(** ** Task *)

Module TaskFacts.
Import Executors.

Lemma dispatchEvent_spec self event payload stop w :
  dispatchEvent self event payload stop w =
  if truthy (decision (listeners w) event self payload (orDefault stop (VBool true)))
  then
    match t_chain <$> tasks w !! self with
    | Some (Some c) => ([EvSignal event self payload], Normal tt, aborted w c)
    | _ => ([EvSignal event self payload], Throw nullChain, w)
    end
  else ([EvSignal event self payload], Normal tt, w).
Proof.
  unfold dispatchEvent, breakChain, setStopChain. unfoldM. cbn.
  destruct (truthy _); [|done].
  by destruct (t_chain <$> tasks w !! self) as [[c|]|].
Qed.

Lemma catchBlock_spec self retries interval stopRetries attempt again e w :
  catchBlock self retries interval stopRetries attempt again e w =
  match call_breaker stopRetries e with
  | Throw te => ([], Throw te, w)
  | Normal (shouldStop, error) =>
    if shouldStop || js_ge (VNumber attempt) retries then
      let error' := if shouldStop then error else exhausted retries in
      match dispatchEvent self taskError (VError error') VUndefined w with
      | (tr, Normal _, w1) => (tr, Normal (Some (false, VError error')), w1)
      | (tr, Throw x, w1) => (tr, Throw x, w1)
      end
    else
      (EvSleep (js_mul interval (js_pow2 (attempt - 1))) :: (again w).1.1,
       (again w).1.2, (again w).2)
  end.
Proof.
  unfold catchBlock. unfoldM.
  destruct (call_breaker stopRetries e) as [[[] error]|te]; [| |done].
  - cbn -[dispatchEvent].
    destruct (dispatchEvent _ _ _ _ w) as [[tr [[]|x]] w1];
      cbn; by rewrite ?app_nil_r.
  - destruct (js_ge (VNumber attempt) retries); cbn -[dispatchEvent].
    + destruct (dispatchEvent _ _ _ _ w) as [[tr [[]|x]] w1];
        cbn; by rewrite ?app_nil_r.
    + by destruct (again w) as [[tr c] w1].
Qed.

#[local] Arguments dispatchEvent : simpl never.
#[local] Arguments catchBlock : simpl never.

Lemma runLoop_S self action context retries interval stopRetries budget attempt w :
  runLoop self action context retries interval stopRetries (S budget) attempt w =
  if js_le (VNumber attempt) retries then
    let again :=
      runLoop self action context retries interval stopRetries budget (attempt + 1) in
    match action context attempt with
    | Normal result =>
      match dispatchEvent self taskSuccess result (VBool false) w with
      | (tr, Normal _, w1) =>
        (EvAction self attempt :: tr, Normal (Some (true, result)), w1)
      | (tr, Throw e, w1) =>
        let '(tr', c, w2) :=
          catchBlock self retries interval stopRetries attempt again e w1 in
        (EvAction self attempt :: tr ++ tr', c, w2)
      end
    | Throw e =>
      let '(tr', c, w2) :=
        catchBlock self retries interval stopRetries attempt again e w in
      (EvAction self attempt :: tr', c, w2)
    end
  else ([], Normal None, w).
Proof.
  cbn [runLoop]. destruct (js_le (VNumber attempt) retries); [|done].
  unfold tryBlock. unfoldM. cbn -[dispatchEvent catchBlock].
  destruct (action context attempt) as [result|e]; cbn -[dispatchEvent catchBlock].
  - destruct (dispatchEvent _ _ _ _ w) as [[tr [[]|x]] w1];
      cbn -[dispatchEvent catchBlock].
    + by rewrite app_nil_r.
    + by destruct (catchBlock _ _ _ _ _ _ _ _) as [[tr' c] w2].
  - by destruct (catchBlock _ _ _ _ _ _ _ _) as [[tr' c] w2].
Qed.


Section RunLoop.
Variables (self : nat) (action : Action) (context : Context).
Variables (retries interval stopRetries : Value).
Variables (w : World) (owner : option nat).
Hypothesis Howner : t_chain <$> tasks w !! self = Some owner.

Let loop := runLoop self action context retries interval stopRetries.

Lemma dispatch_cases event payload stop :
  dispatchEvent self event payload stop w =
    ([EvSignal event self payload],
     (if truthy (decision (listeners w) event self payload (orDefault stop (VBool true))) then
        match owner with Some _ => Normal tt | None => Throw nullChain end
      else Normal tt),
     (if truthy (decision (listeners w) event self payload (orDefault stop (VBool true))) then
        match owner with Some c => aborted w c | None => w end
      else w)).
Proof.
  rewrite dispatchEvent_spec, Howner.
  destruct (truthy _); [|done]. by destruct owner.
Qed.

Lemma runLoop_outcome budget : ∀ attempt tr r w',
  loop budget attempt w = (tr, r, w') →
  outcome self w owner tr r w' ∧ signalled self w owner tr r.
Proof.
  subst loop.
  induction budget as [|b IH]; intros attempt tr r w'.
  { cbn. intros [= <- <- <-]. split; [done|]. split; intros ? Hin; by apply elem_of_nil in Hin. }
  rewrite runLoop_S. destruct (js_le _ _).
  2:{ intros [= <- <- <-]. split; [done|]. split; intros ? Hin; by apply elem_of_nil in Hin. }
  cbv zeta.
  assert (∀ e pre tr0 r0 w0,
    (∀ p, EvSignal taskError self p ∉ pre) →
    (∀ res, EvSignal taskSuccess self res ∈ pre →
            truthy (decision (listeners w) taskSuccess self res (VBool false)) = true ∧ owner = None) →
    catchBlock self retries interval stopRetries attempt
      (runLoop self action context retries interval stopRetries b (attempt + 1)) e w
      = (tr0, r0, w0) →
    outcome self w owner (pre ++ tr0) r0 w0 ∧
    signalled self w owner (pre ++ tr0) r0) as Hcatch.
  { intros e pre tr0 r0 w0 Hpre1 Hpre2. rewrite catchBlock_spec.
    destruct (call_breaker stopRetries e) as [[stop error]|te].
    2:{ intros [= <- <- <-]. rewrite app_nil_r. split; [done|]. split.
        - intros p Hin. by destruct (Hpre1 p).
        - intros res Hin [Hd|Hd]; destruct (Hpre2 res Hin); congruence. }
    destruct (stop || js_ge (VNumber attempt) retries).
    - cbv zeta. rewrite dispatch_cases. cbn [orDefault].
      set (error' := if stop then error else exhausted retries).
      destruct (truthy (decision (listeners w) taskError self (VError error') (VBool true))) eqn:Hd.
      + destruct owner as [c|] eqn:Eo.
        * intros [= <- <- <-]. split.
          -- cbn. split; [member|]. unfold settled. rewrite Hd. by exists c.
          -- split.
             ++ intros p [Hin|Hin]%elem_of_app; [by destruct (Hpre1 p)|].
                apply list_elem_of_singleton in Hin. injection Hin as ->. by left.
             ++ intros res [Hin|Hin]%elem_of_app _.
                ** by destruct (Hpre2 res Hin).
                ** by apply list_elem_of_singleton in Hin.
        * intros [= <- <- <-]. split; [done|]. split.
          -- intros p [Hin|Hin]%elem_of_app; [by destruct (Hpre1 p)|].
             apply list_elem_of_singleton in Hin. injection Hin as ->. by right.
          -- intros res [Hin|Hin]%elem_of_app [Hf|Hf]; try done.
             ++ destruct (Hpre2 res Hin). congruence.
             ++ by apply list_elem_of_singleton in Hin.
      + intros [= <- <- <-]. split.
        * cbn. split; [member|]. unfold settled. by rewrite Hd.
        * split.
          -- intros p [Hin|Hin]%elem_of_app; [by destruct (Hpre1 p)|].
             apply list_elem_of_singleton in Hin. injection Hin as ->. by left.
          -- intros res [Hin|Hin]%elem_of_app Hor.
             ++ destruct (Hpre2 res Hin). destruct Hor; congruence.
             ++ by apply list_elem_of_singleton in Hin.
    - destruct (runLoop _ _ _ _ _ _ b (attempt + 1) w) as [[tr1 r1] w1] eqn:Hrec.
      cbn. intros [= <- <- <-].
      destruct (IH _ _ _ _ Hrec) as [Hout [Hs1 Hs2]]. split.
      + destruct r1 as [[[[] v]|]|]; cbn in *; try done.
        * destruct Hout. split; [member|done].
        * destruct Hout. split; [member|done].
      + split.
        * intros p [Hin|Hin]%elem_of_app; [by destruct (Hpre1 p)|].
          apply elem_of_cons in Hin as [Hin|Hin]; [done|]. by apply Hs1.
        * intros res [Hin|Hin]%elem_of_app Hor.
          -- destruct (Hpre2 res Hin). destruct Hor; congruence.
          -- apply elem_of_cons in Hin as [Hin|Hin]; [done|]. by apply Hs2. }
  destruct (action context attempt) as [result|e].
  - rewrite dispatch_cases. cbn [orDefault].
    destruct (truthy (decision (listeners w) taskSuccess self result (VBool false))) eqn:Hd.
    + destruct owner as [c|] eqn:Eo.
      * intros [= <- <- <-]. split.
        -- cbn. split; [member|]. unfold settled. rewrite Hd. by exists c.
        -- split.
           ++ intros p Hin. absurd_member Hin.
           ++ intros res Hin _.
              apply elem_of_cons in Hin as [Hin|Hin]; [done|].
              apply list_elem_of_singleton in Hin. by injection Hin as ->.
      * destruct (catchBlock _ _ _ _ _ _ _ w) as [[tr' c'] w2] eqn:Hc.
        intros [= <- <- <-].
        apply (Hcatch nullChain [EvAction self attempt; EvSignal taskSuccess self result]) in Hc.
        -- done.
        -- intros p Hin. absurd_member Hin.
        -- intros res Hin. apply elem_of_cons in Hin as [Hin|Hin]; [done|].
           apply list_elem_of_singleton in Hin. by injection Hin as ->.
    + intros [= <- <- <-]. split.
      * cbn. split; [member|]. unfold settled. by rewrite Hd.
      * split.
        -- intros p Hin. absurd_member Hin.
        -- intros res Hin _.
           apply elem_of_cons in Hin as [Hin|Hin]; [done|].
           apply list_elem_of_singleton in Hin. by injection Hin as ->.
  - destruct (catchBlock _ _ _ _ _ _ _ w) as [[tr' c'] w2] eqn:Hc.
    intros [= <- <- <-].
    apply (Hcatch e [EvAction self attempt]) in Hc.
    + done.
    + intros p Hin. absurd_member Hin.
    + intros res Hin. absurd_member Hin.
Qed.
End RunLoop.


Lemma chainView_app tr1 tr2 : chainView (tr1 ++ tr2) = chainView tr1 ++ chainView tr2.
Proof.
  induction tr1 as [|ev tr1 IH]; [done|]. destruct ev; cbn; by rewrite ?IH.
Qed.

Lemma dispatchEvent_view self event payload stop w :
  chainView (dispatchEvent self event payload stop w).1.1 = [].
Proof.
  rewrite dispatchEvent_spec. destruct (truthy _); [|done].
  by destruct (t_chain <$> tasks w !! self) as [[c|]|].
Qed.

(** The loop of [Task.run] records nothing and checks no abort flag. *)
Lemma runLoop_view self action context retries interval stopRetries budget :
  ∀ attempt w,
    chainView (runLoop self action context retries interval stopRetries
                       budget attempt w).1.1 = [].
Proof.
  induction budget as [|b IH]; intros attempt w; [done|].
  rewrite runLoop_S. destruct (js_le _ _); [|done]. cbv zeta.
  assert (∀ e w0, chainView (catchBlock self retries interval stopRetries attempt
            (runLoop self action context retries interval stopRetries b (attempt + 1))
            e w0).1.1 = []) as Hcatch.
  { intros e w0. rewrite catchBlock_spec.
    destruct (call_breaker stopRetries e) as [[stop error]|te]; [|done].
    destruct (stop || js_ge _ _).
    - cbv zeta. pose proof (dispatchEvent_view self taskError
        (VError (if stop then error else exhausted retries)) VUndefined w0) as Hd.
      by destruct (dispatchEvent _ _ _ _ _) as [[tr [[]|x]] w1].
    - cbn. apply IH. }
  destruct (action context attempt) as [result|e].
  - pose proof (dispatchEvent_view self taskSuccess result (VBool false) w) as Hd.
    destruct (dispatchEvent _ _ _ _ _) as [[tr [[]|x]] w1]; cbn in *; [done|].
    specialize (Hcatch x w1).
    destruct (catchBlock _ _ _ _ _ _ _ _) as [[tr' c] w2]. cbn in *.
    by rewrite chainView_app, Hd, Hcatch.
  - specialize (Hcatch e w).
    by destruct (catchBlock _ _ _ _ _ _ _ _) as [[tr' c] w2].
Qed.

Lemma Task_run_spec self obj context w :
  tasks w !! self = Some obj →
  Task_run self context w =
  let retries := orDefault (cfg_retries (t_config obj)) (VNumber 3) in
  let interval := orDefault (cfg_interval (t_config obj)) (VNumber 2000) in
  let stopRetries :=
    orDefault (cfg_stopRetries (t_config obj)) (VFunction 0 defaultStopRetries) in
  let '(tr, r, w') :=
    runLoop self (t_action obj) context retries interval stopRetries
            (loopBudget retries) 1 w in
  (EvRun self :: tr, r, w').
Proof.
  intros Hobj. unfold Task_run. unfoldM. rewrite Hobj. cbn.
  by destruct (runLoop _ _ _ _ _ _ _ _ _) as [[tr r] w'].
Qed.

(** What a run of a task comes to. *)
Lemma Task_run_outcome self obj context w tr r w' :
  tasks w !! self = Some obj →
  Task_run self context w = (tr, r, w') →
  chainView tr = [Ran self] ∧
  outcome self w (t_chain obj) tr r w' ∧
  signalled self w (t_chain obj) tr r.
Proof.
  intros Hobj. rewrite (Task_run_spec _ obj) by done. cbv zeta.
  destruct (runLoop _ _ _ _ _ _ _ _ _) as [[tr0 r0] w0] eqn:Hloop.
  intros [= <- <- <-].
  pose proof (runLoop_view self (t_action obj) context
    (orDefault (cfg_retries (t_config obj)) (VNumber 3))
    (orDefault (cfg_interval (t_config obj)) (VNumber 2000))
    (orDefault (cfg_stopRetries (t_config obj)) (VFunction 0 defaultStopRetries))
    (loopBudget (orDefault (cfg_retries (t_config obj)) (VNumber 3))) 1 w) as Hview.
  rewrite Hloop in Hview. cbn in Hview.
  apply runLoop_outcome with (owner := t_chain obj) in Hloop as [Hout [Hs1 Hs2]];
    [|by rewrite Hobj].
  split; [cbn; by rewrite Hview|]. split.
  - destruct r0 as [[[[] v]|]|]; cbn in *; try done.
    + destruct Hout. split; [member|done].
    + destruct Hout. split; [member|done].
  - split.
    + intros p Hin. apply elem_of_cons in Hin as [Hin|Hin]; [done|]. by apply Hs1.
    + intros res Hin Hor. apply elem_of_cons in Hin as [Hin|Hin]; [done|].
      by apply Hs2.
Qed.

Lemma stopChain_aborted w c ch :
  chains w !! c = Some ch → stopChain (aborted w c) c = VBool true.
Proof.
  intros Hc. unfold stopChain, aborted. cbn.
  by rewrite lookup_alter_eq, Hc.
Qed.

End TaskFacts.

Module TaskLoopFacts.
Import Executors TaskFacts NumFacts.

(** More budget than the attempts that are left changes nothing: the
    budget that [Task_run] passes is never used up. *)
Lemma runLoop_budget self action context retries interval stopRetries budget extra :
  to_number retries ≠ Some (Infinite false) →
  ∀ attempt w,
    (∀ m e, to_number retries = Some (Finite m e) →
            m / scale e - attempt + 1 ≤ Z.of_nat budget) →
    runLoop self action context retries interval stopRetries
            (budget + extra)%nat attempt w =
    runLoop self action context retries interval stopRetries budget attempt w.
Proof.
  intros Hfin. induction budget as [|b IH]; intros attempt w Hm.
  - destruct extra as [|x]; [done|].
    cbn [Nat.add]. rewrite runLoop_S. cbn [runLoop].
    unfold js_le. cbn [to_number].
    destruct (to_number retries) as [[m e|[]]|] eqn:E; [|done|done|done].
    specialize (Hm m e eq_refl). rewrite num_le_floor.
    destruct (Z.leb_spec attempt (m / scale e)); [lia|done].
  - cbn [Nat.add]. rewrite !runLoop_S.
    destruct (js_le _ _) eqn:Hle; [|done]. cbv zeta.
    assert (∀ e w0,
      catchBlock self retries interval stopRetries attempt
        (runLoop self action context retries interval stopRetries
                 (b + extra)%nat (attempt + 1)) e w0 =
      catchBlock self retries interval stopRetries attempt
        (runLoop self action context retries interval stopRetries
                 b (attempt + 1)) e w0) as Hcatch.
    { intros e w0. rewrite !catchBlock_spec.
      destruct (call_breaker stopRetries e) as [[stop error]|te]; [|done].
      destruct (stop || js_ge _ _); [done|].
      rewrite IH; [done|]. intros m e0 E. specialize (Hm m e0 E). lia. }
    destruct (action context attempt) as [result|e].
    + destruct (dispatchEvent _ _ _ _ _) as [[tr [[]|x]] w1]; [done|].
      by rewrite Hcatch.
    + by rewrite Hcatch.
Qed.


(** An attempt that is within the limit is within the budget that
    [Task_run] passes, and the attempts before it are below the limit. *)
Lemma loopBudget_within k retries :
  1 ≤ k ≤ 2 ^ 53 → js_le (VNumber k) retries = true →
  (Z.to_nat k ≤ loopBudget retries)%nat.
Proof.
  intros Hk. unfold js_le, loopBudget. cbn [to_number].
  destruct (to_number retries) as [[m e|[]]|]; try (by intros [=]).
  - rewrite num_le_floor. intros H%Z.leb_le. lia.
  - intros _. lia.
Qed.

Lemma js_le_earlier i k retries :
  i < k → js_le (VNumber k) retries = true →
  js_le (VNumber i) retries = true ∧ js_ge (VNumber i) retries = false.
Proof.
  intros Hi. unfold js_le, js_ge. cbn [to_number].
  destruct (to_number retries) as [[m e|[]]|]; cbn [num_le]; try (by intros [=]).
  - rewrite scale_0, !Z.mul_1_r. intros Hk%Z.leb_le.
    pose proof (scale_pos e) as Hpos.
    split; [apply Z.leb_le; nia|apply Z.leb_gt; nia].
Qed.

Lemma last_after {A} (x : A) l a b : last (x :: l ++ [a; b]) = Some b.
Proof.
  replace (x :: l ++ [a; b]) with ((x :: l ++ [a]) ++ [b])
    by (cbn; by rewrite <- app_assoc).
  apply last_snoc.
Qed.

Lemma engineView_app tr1 tr2 :
  engineView (tr1 ++ tr2) = engineView tr1 ++ engineView tr2.
Proof.
  induction tr1 as [|ev tr1 IH]; [done|]. destruct ev; cbn; by rewrite ?IH.
Qed.

(** The attempts that fail without a stop, below the limit: the loop makes
    them and the suspensions after them, dispatches nothing, and goes on
    from the attempt after them in the same world. *)
Lemma runLoop_skip self action context retries interval stopRetries (more : nat) :
  ∀ budget attempt w,
    js_le (VNumber (attempt + Z.of_nat more)) retries = true →
    (∀ i, attempt ≤ i < attempt + Z.of_nat more →
       ∃ e err, action context i = Throw e ∧
                call_breaker stopRetries e = Normal (false, err)) →
    ∃ pre,
      engineView pre ++ [Wrapper.Call (attempt + Z.of_nat more)] =
        Wrapper.schedule interval attempt more ∧
      (∀ s p, EvSignal s self p ∉ pre) ∧
      runLoop self action context retries interval stopRetries
              (more + budget) attempt w =
        let '(tr, r, w') :=
          runLoop self action context retries interval stopRetries
                  budget (attempt + Z.of_nat more) w in
        (pre ++ tr, r, w').
Proof.
  induction more as [|k IH]; intros budget attempt w Hle Hfail.
  - exists []. rewrite Z.add_0_r. split; [done|].
    split; [intros s p Hin; by apply elem_of_nil in Hin|].
    cbn [Nat.add app]. by destruct (runLoop _ _ _ _ _ _ _ _ _) as [[tr r] w'].
  - destruct (Hfail attempt) as (e & err & He & Hb); [lia|].
    destruct (js_le_earlier attempt (attempt + Z.of_nat (S k)) retries)
      as [Hle' Hge']; [lia|done|].
    destruct (IH budget (attempt + 1) w) as (pre & Hv & Hs & Hrun).
    { by replace (attempt + 1 + Z.of_nat k) with (attempt + Z.of_nat (S k)) by lia. }
    { intros i Hi. apply Hfail. lia. }
    exists (EvAction self attempt
              :: EvSleep (js_mul interval (js_pow2 (attempt - 1))) :: pre).
    split.
    { cbn [engineView app Wrapper.schedule]. do 2 f_equal.
      by replace (attempt + Z.of_nat (S k)) with (attempt + 1 + Z.of_nat k) by lia. }
    split.
    { intros s p Hin. apply elem_of_cons in Hin as [Hin|Hin]; [done|].
      apply elem_of_cons in Hin as [Hin|Hin]; [done|]. by apply (Hs s p). }
    cbn [Nat.add]. rewrite runLoop_S, Hle'. cbv zeta.
    rewrite He, catchBlock_spec, Hb. cbn [orb]. rewrite Hge', Hrun.
    replace (attempt + 1 + Z.of_nat k) with (attempt + Z.of_nat (S k)) by lia.
    generalize (runLoop self action context retries interval stopRetries budget
                        (attempt + Z.of_nat (S k)) w).
    by intros [[tr r] w'].
Qed.

(** The run of a task whose attempts before [k] fail without a stop, [k]
    being within the limit: it is the attempts and the suspensions of the
    engine up to attempt [k], and then what the loop makes of attempt
    [k]. *)
Lemma Task_run_reaches w t obj context k :
  tasks w !! t = Some obj →
  1 ≤ k ≤ 2 ^ 53 →
  let retries := orDefault (cfg_retries (t_config obj)) (VNumber 3) in
  let interval := orDefault (cfg_interval (t_config obj)) (VNumber 2000) in
  let stopRetries :=
    orDefault (cfg_stopRetries (t_config obj)) (VFunction 0 defaultStopRetries) in
  js_le (VNumber k) retries = true →
  (∀ i, 1 ≤ i < k →
     ∃ e err, t_action obj context i = Throw e ∧
              call_breaker stopRetries e = Normal (false, err)) →
  ∃ pre b,
    engineView pre ++ [Wrapper.Call k] =
      Wrapper.schedule interval 1 (Z.to_nat (k - 1)) ∧
    (∀ s p, EvSignal s t p ∉ pre) ∧
    Task_run t context w =
      let '(tr, r, w') :=
        runLoop t (t_action obj) context retries interval stopRetries (S b) k w in
      (EvRun t :: pre ++ tr, r, w').
Proof.
  intros Hobj Hk retries interval stopRetries Hle Hfail.
  pose proof (loopBudget_within k retries Hk Hle) as Hbudget.
  destruct (runLoop_skip t (t_action obj) context retries interval stopRetries
              (Z.to_nat (k - 1)) (S (loopBudget retries - Z.to_nat k)) 1 w)
    as (pre & Hv & Hs & Hrun).
  { by replace (1 + Z.of_nat (Z.to_nat (k - 1))) with k by lia. }
  { intros i Hi. apply Hfail. lia. }
  replace (1 + Z.of_nat (Z.to_nat (k - 1))) with k in Hv, Hrun by lia.
  exists pre, (loopBudget retries - Z.to_nat k)%nat.
  split; [done|]. split; [done|].
  rewrite (Task_run_spec _ obj) by done. cbv zeta.
  fold retries interval stopRetries.
  replace (loopBudget retries)
    with (Z.to_nat (k - 1) + S (loopBudget retries - Z.to_nat k))%nat at 1 by lia.
  rewrite Hrun.
  generalize (runLoop t (t_action obj) context retries interval stopRetries
                      (S (loopBudget retries - Z.to_nat k)) k w).
  by intros [[tr r] w'].
Qed.

(** [Task.run] runs the algorithm of the retry engine: for a task that
    belongs to a chain, the invocations of the action and the suspensions
    are those of [runWithRetries] on the same operation and policy, and so
    is what it returns. *)
Lemma runLoop_refines self action context retries interval stopRetries w c budget :
  t_chain <$> tasks w !! self = Some (Some c) →
  ∀ attempt,
    let run := runLoop self action context retries interval stopRetries
                       budget attempt w in
    let engine := Wrapper.retryLoop (action context) retries interval stopRetries
                                    budget attempt in
    engineView run.1.1 = engine.1 ∧ run.1.2 = ofEngine engine.2.
Proof.
  intros Howner.
  induction budget as [|b IH]; intros attempt; [done|].
  cbv zeta. rewrite runLoop_S. cbn [Wrapper.retryLoop].
  destruct (js_le (VNumber attempt) retries); [|done]. cbv zeta.
  destruct (action context attempt) as [result|e].
  - rewrite (dispatch_cases _ _ (Some c)) by done.
    by destruct (truthy _).
  - rewrite catchBlock_spec.
    destruct (call_breaker stopRetries e) as [[stop error]|te]; [|done].
    destruct stop; cbn [orb].
    + cbv zeta. rewrite (dispatch_cases _ _ (Some c)) by done.
      by destruct (truthy _).
    + destruct (js_ge (VNumber attempt) retries).
      * cbv zeta. rewrite (dispatch_cases _ _ (Some c)) by done.
        by destruct (truthy _).
      * destruct (IH (attempt + 1)) as [Hv Hr]. cbn in Hv, Hr.
        destruct (Wrapper.retryLoop _ _ _ _ _ _) as [tr0 r0]. cbn in *.
        by rewrite Hv, Hr.
Qed.

End TaskLoopFacts.

Import Executors TaskFacts ChainFixtures.



(** The tasks that [new Task] makes belong to no chain. *)
Lemma newTask_detached label action config w tr t w' :
  newTask label action config w = (tr, Normal t, w') →
  tasks w' !! t = Some (mkTask label action config None).
Proof.
  unfold newTask. unfoldM. cbn.
  destruct (validateInputs label config); [|by intros [=]].
  cbn. intros [= _ <- <-]. cbn. by rewrite lookup_insert_eq.
Qed.

(** C10, as stated, fails: a task that belongs to no chain, whose action
    fails on its only attempt, returns [[false, error]] when a listener
    answers the failure signal with [breakChain(false)]. *)
Lemma detached_failure_returns_when_forgiven :
  tasks detachedForgiven !! O = Some (mkTask "build" fails (attempts 1) None) ∧
  Task_run 0 noContext detachedForgiven =
    ([EvRun 0; EvAction 0 1;
      EvSignal taskError 0 (VError (exhausted (VNumber 1)))],
     Normal (Some (false, VError (exhausted (VNumber 1)))),
     detachedForgiven).
Proof. split; reflexivity. Qed.

(** C10, amended: for a task whose chain is [null], and no listener
    overriding the abort decision of its signals, a run leaves the world as
    it was and never returns [[false, error]]: once it has dispatched the
    failure signal it throws the TypeError of [this.#chain.breakChain()];
    once it has dispatched the success signal it returns [[true, result]].
    And it comes to the one or the other: when the attempts before attempt
    [k] fail without a stop, [k] being within the limit, and attempt [k]
    fails with the stop predicate satisfied, or fails with [k] having
    reached the limit, the run makes the attempts and the suspensions of
    the engine up to [k], dispatches the failure signal with that error
    last, and throws the TypeError; when attempt [k] succeeds, the run
    dispatches the success signal last and returns [[true, result]]. *)
Theorem detached_failure_throws w t obj context tr r w' :
  tasks w !! t = Some obj →
  t_chain obj = None →
  notOverridden w taskError t (VBool true) →
  notOverridden w taskSuccess t (VBool false) →
  Task_run t context w = (tr, r, w') →
  let retries := orDefault (cfg_retries (t_config obj)) (VNumber 3) in
  let interval := orDefault (cfg_interval (t_config obj)) (VNumber 2000) in
  let stopRetries :=
    orDefault (cfg_stopRetries (t_config obj)) (VFunction 0 defaultStopRetries) in
  w' = w ∧
  (∀ err, r ≠ Normal (Some (false, err))) ∧
  (∀ p, EvSignal taskError t p ∈ tr →
        r = Throw nullChain ∧ err_kind nullChain = KTypeError) ∧
  (∀ res, EvSignal taskSuccess t res ∈ tr → r = Normal (Some (true, res))) ∧
  (∀ k, 1 ≤ k ≤ 2 ^ 53 →
        js_le (VNumber k) retries = true →
        (∀ i, 1 ≤ i < k →
           ∃ e err, t_action obj context i = Throw e ∧
                    call_breaker stopRetries e = Normal (false, err)) →
        (∀ e stop chosen error,
           t_action obj context k = Throw e →
           call_breaker stopRetries e = Normal (stop, chosen) →
           (stop = true ∧ error = chosen) ∨
           (stop = false ∧ js_ge (VNumber k) retries = true ∧
            error = exhausted retries) →
           r = Throw nullChain ∧ err_kind nullChain = KTypeError ∧
           last tr = Some (EvSignal taskError t (VError error)) ∧
           engineView tr = Wrapper.schedule interval 1 (Z.to_nat (k - 1))) ∧
        (∀ res,
           t_action obj context k = Normal res →
           r = Normal (Some (true, res)) ∧
           last tr = Some (EvSignal taskSuccess t res) ∧
           engineView tr = Wrapper.schedule interval 1 (Z.to_nat (k - 1)))).
Proof.
  intros Hobj Hnull HnoE HnoS Hrun retries interval stopRetries.
  destruct (Task_run_outcome _ _ _ _ _ _ _ Hobj Hrun) as (_ & Hout & Hs1 & Hs2).
  rewrite Hnull in Hout, Hs1, Hs2.
  assert (∀ err, r ≠ Normal (Some (false, err))) as Hnever.
  { intros err ->. cbn in Hout. destruct Hout as [_ Hset].
    unfold settled in Hset. rewrite HnoE in Hset. cbn in Hset.
    by destruct Hset as (c & ? & _). }
  split; [|split; [done|split; [|split]]].
  - destruct r as [[[[] v]|]|]; cbn in Hout; try done.
    + destruct Hout as [_ Hset]. unfold settled in Hset.
      by rewrite HnoS in Hset.
    + by destruct (Hnever v).
  - intros p Hin. destruct (Hs1 p Hin) as [->|(-> & _ & _)]; [|done].
    by destruct (Hnever p).
  - intros res Hin. apply Hs2; [done|]. left. by rewrite HnoS.
  - intros k Hk Hle Hbefore.
    destruct (TaskLoopFacts.Task_run_reaches w t obj context k Hobj Hk Hle Hbefore)
      as (pre & b & Hv & _ & Heq).
    fold retries interval stopRetries in Hv, Heq.
    rewrite Heq, runLoop_S, Hle in Hrun. cbv zeta in Hrun.
    assert (t_chain <$> tasks w !! t = Some None) as Howner
      by (rewrite Hobj; cbn; by rewrite Hnull).
    split.
    + intros e stop chosen error Hact Hbr Hcases.
      rewrite Hact, catchBlock_spec, Hbr in Hrun.
      assert (stop || js_ge (VNumber k) retries = true) as Hend
        by (destruct Hcases as [[-> _]|(-> & -> & _)]; done).
      assert ((if stop then chosen else exhausted retries) = error) as Herr
        by (destruct Hcases as [[-> ->]|(-> & _ & ->)]; done).
      rewrite Hend in Hrun. cbv zeta in Hrun. rewrite Herr in Hrun.
      rewrite (dispatch_cases _ _ None) in Hrun by done.
      cbn [orDefault] in Hrun. rewrite HnoE in Hrun. cbn [truthy] in Hrun.
      injection Hrun as <- <- <-.
      split; [done|]. split; [done|]. split.
      * apply TaskLoopFacts.last_after.
      * cbn [engineView]. by rewrite TaskLoopFacts.engineView_app.
    + intros res Hact. rewrite Hact in Hrun.
      rewrite (dispatch_cases _ _ None) in Hrun by done.
      cbn [orDefault] in Hrun. rewrite HnoS in Hrun. cbn [truthy] in Hrun.
      injection Hrun as <- <- <-.
      split; [done|]. split.
      * apply TaskLoopFacts.last_after.
      * cbn [engineView]. by rewrite TaskLoopFacts.engineView_app.
Qed.

Lemma detached_failure_throws_witness :
  ∃ tr,
    Task_run 0 noContext detachedQuiet = (tr, Throw nullChain, detachedQuiet) ∧
    last tr = Some (EvSignal taskError 0 (VError (exhausted (VNumber 1)))) ∧
    engineView tr = [Wrapper.Call 1].
Proof.
  destruct (Task_run 0 noContext detachedQuiet) as [[tr r] w'] eqn:Hrun.
  destruct (detached_failure_throws detachedQuiet 0
              (mkTask "build" fails (attempts 1) None) noContext tr r w'
              eq_refl eq_refl (λ p, eq_refl) (λ p, eq_refl) Hrun)
    as (-> & _ & _ & _ & Hends).
  destruct (Hends 1) as [Hfailure _]; [lia|reflexivity|intros i Hi; lia|].
  destruct (Hfailure (mkError KError "Server Error" (Some 500)) false
              (mkError KError "Server Error" (Some 500)) (exhausted (VNumber 1))
              eq_refl eq_refl) as (-> & _ & Hlast & Hview).
  { right. by repeat split. }
  by exists tr.
Defined.


(** ** TaskChain *)

Module ChainFacts.
Import Executors TaskFacts.

(** The check of [#validateTask] never fires: [!task] is a boolean, and no
    boolean is a task. *)
Lemma validateTask_never task w : validateTask task w = ([], Normal tt, w).
Proof. done. Qed.

Lemma members_rewrite_chain w c ch f :
  chains w !! c = Some ch →
  members (rewrite_chain c f w) c = f (members w c).
Proof.
  intros Hc. unfold members, rewrite_chain. cbn.
  by rewrite lookup_alter_eq, Hc.
Qed.

Lemma members_attach w c t chain :
  members (attach t chain w) c = members w c.
Proof. done. Qed.

Lemma addTask_task c t w :
  addTask c (VTask t) w =
    ([], Normal tt, attach t (Some c) (rewrite_chain c (λ chain, chain ++ [VTask t]) w)).
Proof. done. Qed.

(** A value that is not a task is pushed, and then the call of its
    [setChain] throws. *)
Lemma addTask_other c v w :
  instanceofTask v = false →
  ∃ e, addTask c v w = ([], Throw e, rewrite_chain c (λ chain, chain ++ [v]) w) ∧
       err_kind e = KTypeError.
Proof. destruct v; try done; intros _; by eexists. Qed.

Lemma labelOf_attach w t chain v :
  labelOf (attach t chain w) v = labelOf w v.
Proof.
  destruct v; try done. cbn. rewrite lookup_alter.
  case_decide; [subst|done]. by destruct (tasks w !! ref).
Qed.

Lemma getName_task v w l :
  labelOf w v = Some l → getName v w = ([], Normal l, w).
Proof.
  destruct v; try done. cbn. unfold getName. unfoldM. cbn.
  destruct (tasks w !! ref); [|done]. by intros [= <-].
Qed.

Lemma findIndexByLabel_spec w label : ∀ chain i,
  Forall (λ v, is_Some (labelOf w v)) chain →
  findIndexByLabel chain label i w = ([], Normal (firstWithLabel w chain label i), w).
Proof.
  induction chain as [|x rest IH]; intros i Hall; [done|].
  apply Forall_cons in Hall as [[l Hl] Hrest].
  cbn [findIndexByLabel firstWithLabel]. unfold bind.
  rewrite (getName_task _ _ _ Hl), Hl.
  destruct (String.eqb_spec l label) as [->|Hne].
  - by rewrite bool_decide_eq_true_2.
  - rewrite bool_decide_eq_false_2 by congruence.
    rewrite IH by done. done.
Qed.

Lemma findByLabel_spec w c label :
  Forall (λ v, is_Some (labelOf w v)) (members w c) →
  findByLabel c label w =
    match firstWithLabel w (members w c) label O with
    | Some idx => ([], Normal idx, w)
    | None => ([], Throw (newError (label +:+ " cannot be found!")), w)
    end.
Proof.
  intros Hall. unfold findByLabel, chainOf. unfoldM. cbn.
  fold (members w c). rewrite findIndexByLabel_spec by done.
  by destruct (firstWithLabel _ _ _ _).
Qed.

Lemma validateLabel_spec label w :
  validateLabel label w =
    if isEmptyOrNull label then ([], Throw (newError "label cannot be empty!"), w)
    else if hasWhiteSpace label then
      ([], Throw (newError "label must not contain any whitespaces!"), w)
    else ([], Normal tt, w).
Proof.
  unfold validateLabel. destruct (isEmptyOrNull label); [done|].
  by destruct (hasWhiteSpace label).
Qed.

(** The index that [firstWithLabel] finds is that of the first member with
    the label. *)
Lemma firstWithLabel_Some w label : ∀ chain i idx,
  firstWithLabel w chain label i = Some idx →
  (i ≤ idx)%nat ∧
  labelOf w <$> chain !! (idx - i)%nat = Some (Some label) ∧
  ∀ j, (j < idx - i)%nat → labelOf w <$> chain !! j ≠ Some (Some label).
Proof.
  induction chain as [|x rest IH]; intros i idx; [done|].
  cbn [firstWithLabel]. case_bool_decide as Hx.
  - intros [= <-]. rewrite Nat.sub_diag. cbn. split; [done|]. split; [by f_equal|].
    intros j Hj. lia.
  - intros Hrec. destruct (IH _ _ Hrec) as (Hle & Hat & Hbefore).
    split; [lia|].
    replace (idx - i)%nat with (S (idx - S i)) by lia. split; [done|].
    intros [|j] Hj; cbn; [congruence|]. apply Hbefore. lia.
Qed.

Lemma firstWithLabel_None w label : ∀ chain i,
  firstWithLabel w chain label i = None →
  Forall (λ v, labelOf w v ≠ Some label) chain.
Proof.
  induction chain as [|x rest IH]; intros i; [done|].
  cbn [firstWithLabel]. case_bool_decide as Hx; [done|].
  intros Hrec. constructor; [done|]. by apply (IH (S i)).
Qed.

(** [insertBeforeTask] and [insertAfterTask] of a task, in a chain whose
    members are tasks. *)
Lemma insertBeforeTask_task c t label w :
  Forall (λ v, is_Some (labelOf w v)) (members w c) →
  insertBeforeTask c (VTask t) label w =
    if isEmptyOrNull label then ([], Throw (newError "label cannot be empty!"), w)
    else if hasWhiteSpace label then
      ([], Throw (newError "label must not contain any whitespaces!"), w)
    else
      match firstWithLabel w (members w c) label O with
      | Some idx =>
        ([], Normal tt, attach t (Some c) (rewrite_chain c (insertedAt idx (VTask t)) w))
      | None => ([], Throw (newError (label +:+ " cannot be found!")), w)
      end.
Proof.
  intros Hall. unfold insertBeforeTask, bind.
  rewrite validateTask_never, validateLabel_spec.
  destruct (isEmptyOrNull label); [done|]. destruct (hasWhiteSpace label); [done|].
  rewrite findByLabel_spec by done.
  by destruct (firstWithLabel _ _ _ _).
Qed.

Lemma insertAfterTask_task c t label w :
  Forall (λ v, is_Some (labelOf w v)) (members w c) →
  insertAfterTask c (VTask t) label w =
    if isEmptyOrNull label then ([], Throw (newError "label cannot be empty!"), w)
    else if hasWhiteSpace label then
      ([], Throw (newError "label must not contain any whitespaces!"), w)
    else
      match firstWithLabel w (members w c) label O with
      | Some idx =>
        ([], Normal tt,
         attach t (Some c) (rewrite_chain c (insertedAt (S idx) (VTask t)) w))
      | None => ([], Throw (newError (label +:+ " cannot be found!")), w)
      end.
Proof.
  intros Hall. unfold insertAfterTask, bind.
  rewrite validateTask_never, validateLabel_spec.
  destruct (isEmptyOrNull label); [done|]. destruct (hasWhiteSpace label); [done|].
  rewrite findByLabel_spec by done.
  by destruct (firstWithLabel _ _ _ _).
Qed.

End ChainFacts.

Import ChainFacts.

(** C1, as stated, fails: a chain holds a task labelled "build"; [addTask]
    of a second task labelled "build" completes normally and the chain
    holds two members labelled "build". *)
Lemma addTask_accepts_a_duplicate_label :
  labels twoBuilds 0 = [Some "build"] ∧
  labelOf twoBuilds (VTask 1) = Some "build" ∧
  ∃ w', addTask 0 (VTask 1) twoBuilds = ([], Normal tt, w') ∧
        labels w' 0 = [Some "build"; Some "build"].
Proof. split; [done|]. split; [done|]. eexists. split; reflexivity. Qed.

(** C1, amended: the labels of a chain are not checked for uniqueness.
    Whatever the label of a task, [addTask] appends it to the chain, and
    [insertBeforeTask] and [insertAfterTask] insert it before and after the
    first member that carries the reference label; the count grows by one.
    The two insertions fail with the world as it was when the reference
    label is empty, holds white space, or is carried by no member. *)
Theorem labels_are_not_checked w c ch t :
  chains w !! c = Some ch →
  Forall (λ v, is_Some (labelOf w v)) (members w c) →
  (∃ w', addTask c (VTask t) w = ([], Normal tt, w') ∧
         members w' c = members w c ++ [VTask t]) ∧
  (∀ label idx,
     isEmptyOrNull label = false → hasWhiteSpace label = false →
     firstWithLabel w (members w c) label O = Some idx →
     (∃ w', insertBeforeTask c (VTask t) label w = ([], Normal tt, w') ∧
            members w' c = take idx (members w c) ++ VTask t :: drop idx (members w c)) ∧
     (∃ w', insertAfterTask c (VTask t) label w = ([], Normal tt, w') ∧
            members w' c =
              take (S idx) (members w c) ++ VTask t :: drop (S idx) (members w c))) ∧
  (∀ label,
     isEmptyOrNull label = true ∨ hasWhiteSpace label = true ∨
     firstWithLabel w (members w c) label O = None →
     ∃ e1 e2,
       insertBeforeTask c (VTask t) label w = ([], Throw e1, w) ∧
       insertAfterTask c (VTask t) label w = ([], Throw e2, w)).
Proof.
  intros Hc Hall. split; [|split].
  - eexists. split; [apply addTask_task|].
    by rewrite members_attach, (members_rewrite_chain _ _ ch).
  - intros label idx He Hw Hfirst.
    rewrite insertBeforeTask_task, insertAfterTask_task by done.
    rewrite He, Hw, Hfirst.
    split; eexists; (split; [done|]);
      by rewrite members_attach, (members_rewrite_chain _ _ ch).
  - intros label Hbad.
    rewrite insertBeforeTask_task, insertAfterTask_task by done.
    destruct (isEmptyOrNull label); [by do 2 eexists|].
    destruct (hasWhiteSpace label); [by do 2 eexists|].
    destruct Hbad as [?|[?|Hnone]]; [done|done|].
    rewrite Hnone. by do 2 eexists.
Qed.

Lemma labels_are_not_checked_witness :
  (∃ w', addTask 0 (VTask 1) twoBuilds = ([], Normal tt, w') ∧
         members w' 0 = [VTask 0; VTask 1]) ∧
  (∃ w', insertBeforeTask 0 (VTask 1) "build" twoBuilds = ([], Normal tt, w') ∧
         members w' 0 = [VTask 1; VTask 0]) ∧
  (∃ e1 e2,
     insertBeforeTask 0 (VTask 1) "deploy" twoBuilds = ([], Throw e1, twoBuilds) ∧
     insertAfterTask 0 (VTask 1) "deploy" twoBuilds = ([], Throw e2, twoBuilds)).
Proof.
  destruct (labels_are_not_checked twoBuilds 0
              (mkChain [VTask 0] VUndefined) 1 eq_refl)
    as (Hadd & Hins & Hfail).
  { repeat constructor. by eexists. }
  split; [exact Hadd|]. split.
  - by destruct (Hins "build" O eq_refl eq_refl eq_refl) as [Hbefore _].
  - apply Hfail. right. right. reflexivity.
Defined.

(** C9: a value that is not a task passes [#validateTask], whose check
    never fires ([validateTask_never]).  [addTask(null)] on an empty chain
    pushes [null] on the chain and then fails in [task.setChain(this)], with
    a TypeError that does not name the cause; the chain is left with [null]
    as a member. *)
Theorem addTask_pushes_what_is_not_a_task :
  members emptyChain 0 = [] ∧
  ∃ w', addTask 0 VNull emptyChain =
          ([], Throw (newTypeError "Cannot read properties of null (reading 'setChain')"),
           w') ∧
        members w' 0 = [VNull].
Proof. split; [done|]. eexists. split; reflexivity. Qed.


Module RunFacts.
Import Executors TaskFacts ChainFacts.

(** A run of a task leaves the tasks and the listeners as they were. *)
Lemma Task_run_tasks self obj context w tr r w' :
  tasks w !! self = Some obj →
  Task_run self context w = (tr, r, w') →
  tasks w' = tasks w.
Proof.
  intros Hobj Hrun.
  destruct (Task_run_outcome _ _ _ _ _ _ _ Hobj Hrun) as (_ & Hout & _).
  destruct r as [[[[] v]|]|]; cbn in Hout; try by subst.
  - destruct Hout as [_ Hset]. unfold settled in Hset.
    destruct (truthy _); [by destruct Hset as (c & _ & ->)|by subst].
  - destruct Hout as [_ Hset]. unfold settled in Hset.
    destruct (truthy _); [by destruct Hset as (c & _ & ->)|by subst].
Qed.


Lemma shape_cons e log :
  shape (e :: log) =
    Ran (e_task e) :: Recorded (e_label e) (e_result e) :: Checked (e_abort e)
      :: shape log.
Proof. done. Qed.


Lemma labelOf_Some w v l :
  labelOf w v = Some l →
  ∃ t obj, v = VTask t ∧ tasks w !! t = Some obj ∧ t_label obj = l.
Proof.
  destruct v; try done. cbn.
  destruct (tasks w !! ref) as [obj|] eqn:Hobj; [|done]. cbn.
  intros [= <-]. exists ref, obj. by rewrite Hobj.
Qed.

(** [task.run(context)] on what is not a task of the world throws at
    once. *)
Lemma run_other w v context :
  labelOf w v = None → ∃ e, run v context w = ([], Throw e, w).
Proof.
  destruct v; cbn; try (intros _; by eexists).
  unfold Task_run. unfoldM.
  destruct (tasks w !! ref); [done|]. intros _. by eexists.
Qed.


Lemma TaskChain_run_spec c inputs w ch :
  chains w !! c = Some ch →
  TaskChain_run c inputs w =
    runTasks c (c_chain ch) (mkContext inputs emptyObj) (flagged c (VBool false) w).
Proof.
  intros Hc. unfold TaskChain_run, setStopChain, chainOf. unfoldM.
  cbn [flagged chains]. rewrite lookup_alter_eq, Hc. cbn.
  by destruct (runTasks _ _ _ _) as [[tr r] w'].
Qed.

(** [context.steps[label] = result] for a label that is not
    ["__proto__"] creates or overwrites the own property; for every label,
    the own properties are as they were or hold the label too. *)
Lemma assignProp_other o k v :
  k ≠ "__proto__" →
  assignProp o k v = mkObj (<[k := v]> (own o)) (proto o).
Proof.
  intros Hk. unfold assignProp.
  by destruct (String.eqb_spec k "__proto__").
Qed.





End RunFacts.

Import RunFacts.


(** In a chain of two tasks that are both labelled "build", the first
    fails and aborts the run; the second is not run, and its label is a key
    of [context.steps]. *)
Lemma aborted_run_holds_the_label_of_a_later_task :
  members duplicated 0 = [VTask 0; VTask 1] ∧
  labelOf duplicated (VTask 1) = Some "build" ∧
  ∃ tr context w',
    TaskChain_run 0 VNull duplicated = (tr, Normal context, w') ∧
    chainView tr =
      [Ran 0; Recorded "build" (VError (exhausted (VNumber 1))); Checked true] ∧
    own (ctx_steps context) !! "build" = Some (VError (exhausted (VNumber 1))).
Proof. split; [done|]. split; [done|]. do 3 eexists. split; [|split]; reflexivity. Qed.



(** ** Terminal failure of a task, from its action and its policy *)

Module TerminalFacts.
Import Executors TaskFacts TaskLoopFacts ChainFacts.

(** The loop of the engine under a numeric limit, when the attempts before
    [k] ask for another and attempt [k] ends the run. *)
Lemma retryLoop_ends_at callback n interval stopRetries k c :
  1 ≤ k ≤ n →
  (∀ i, 1 ≤ i < k →
     ∃ d, Wrapper.step callback (VNumber n) interval stopRetries i = Wrapper.Again d) →
  Wrapper.step callback (VNumber n) interval stopRetries k = Wrapper.Done c →
  Wrapper.retryLoop callback (VNumber n) interval stopRetries
                    (Wrapper.loopBudget (VNumber n)) 1 =
    (Wrapper.schedule interval 1 (Z.to_nat (k - 1)), c).
Proof.
  intros Hk Hag Hd.
  apply (RetryFacts.retryLoop_schedule _ _ _ _ (Z.to_nat (k - 1)) _ 1 n c); try done.
  - lia.
  - rewrite RetryFacts.loopBudget_int. lia.
  - intros i Hi. apply Hag. lia.
  - by replace (1 + Z.of_nat (Z.to_nat (k - 1))) with k by lia.
Qed.

(** Terminal failure of a task that belongs to a chain: the stop predicate
    is satisfied on attempt [k], or attempt [k] is the last that the limit
    allows.  The run makes the attempts and the suspensions of the engine,
    returns [[false, error]] and leaves the abort flag of the chain set. *)
Lemma Task_run_terminal_failure w t obj c ch context n fr f k error :
  tasks w !! t = Some obj →
  t_chain obj = Some c →
  chains w !! c = Some ch →
  cfg_retries (t_config obj) = VNumber n →
  cfg_stopRetries (t_config obj) = VFunction fr f →
  notOverridden w taskError t (VBool true) →
  1 ≤ k ≤ n →
  (∀ i, 1 ≤ i < k → ∃ e, t_action obj context i = Throw e ∧ (f e).1 = false) →
  (∃ e, t_action obj context k = Throw e ∧
        (f e = (true, error) ∨
         ((f e).1 = false ∧ k = n ∧ error = exhausted (VNumber n)))) →
  ∃ tr w',
    Task_run t context w = (tr, Normal (Some (false, VError error)), w') ∧
    engineView tr =
      Wrapper.schedule (orDefault (cfg_interval (t_config obj)) (VNumber 2000))
                       1 (Z.to_nat (k - 1)) ∧
    stopChain w' c = VBool true.
Proof.
  intros Hobj Hc Hch Hn Hf Hno Hk Hbefore (e & Hthrow & Hend).
  destruct (Task_run t context w) as [[tr r] w'] eqn:Hrun.
  pose proof Hrun as Hrun'.
  rewrite (Task_run_spec _ obj) in Hrun' by done. cbv zeta in Hrun'.
  rewrite Hn, Hf in Hrun'. cbn [orDefault] in Hrun'.
  set (interval := orDefault (cfg_interval (t_config obj)) (VNumber 2000)) in *.
  assert (t_chain <$> tasks w !! t = Some (Some c)) as Howner
    by (rewrite Hobj; cbn; by rewrite Hc).
  pose proof (runLoop_refines t (t_action obj) context (VNumber n) interval
                (VFunction fr f) w c (loopBudget (VNumber n)) Howner 1) as Href.
  cbv zeta in Href.
  change (loopBudget (VNumber n)) with (Wrapper.loopBudget (VNumber n)) in Href.
  rewrite (retryLoop_ends_at _ _ _ _ k (Normal (Some (Wrapper.Failure error))))
    in Href; [|done| |].
  - change (Wrapper.loopBudget (VNumber n)) with (loopBudget (VNumber n)) in Href.
    destruct Href as [Hview Hres].
    destruct (runLoop _ _ _ _ _ _ _ _ _) as [[tr0 r0] w0]. cbn in Hview, Hres.
    injection Hrun' as <- <- <-. subst r0.
    exists (EvRun t :: tr0), w0. split; [done|]. split; [done|].
    destruct (Task_run_outcome _ _ _ _ _ _ _ Hobj Hrun) as (_ & Hout & _).
    cbn in Hout. destruct Hout as [_ Hset]. unfold settled in Hset.
    rewrite Hc, Hno in Hset. cbn in Hset. destruct Hset as (c' & [= <-] & ->).
    by apply (stopChain_aborted _ _ ch).
  - intros i Hi. destruct (Hbefore i Hi) as (ei & Hci & Hfi).
    eexists. apply (RetryFacts.step_again _ _ _ _ _ _ ei); [done|done|lia].
  - unfold Wrapper.step. rewrite Hthrow. cbn.
    destruct Hend as [->|(Hfe & -> & ->)]; [done|].
    destruct (f e) as [stop err]. cbn in Hfe. subst stop.
    by rewrite Z.leb_refl.
Qed.

(** [removeTask] of a member clears its back-reference. *)
Lemma removeTask_detaches c t w idx obj :
  tasks w !! t = Some obj →
  indexOf (members w c) (VTask t) O = Some idx →
  ∃ w', removeTask c (VTask t) w = ([], Normal tt, w') ∧
        t_chain <$> tasks w' !! t = Some None.
Proof.
  intros Hobj Hidx. unfold removeTask, bind.
  rewrite validateTask_never. unfold chainOf, gets. fold (members w c).
  rewrite Hidx. eexists. split; [reflexivity|].
  cbn. by rewrite lookup_alter_eq, Hobj.
Qed.

End TerminalFacts.

(** * Further properties *)

(** ** The retry engine: bounds and edge cases *)

Module EngineExtras.
Import Wrapper RetryFacts Fluent Fixtures.

Lemma totalDelay_schedule interval more : ∀ first,
  1 ≤ first → first + Z.of_nat more ≤ 1025 →
  Z.abs interval * 2 ^ (first + Z.of_nat more - 1) < 2 ^ 1024 ∨ more = O →
  totalDelay (schedule (VNumber interval) first more) =
    Some (interval * 2 ^ (first - 1) * (2 ^ Z.of_nat more - 1)).
Proof.
  induction more as [|k IH]; intros first Hfirst Hlast Hfit.
  - cbn. f_equal. lia.
  - destruct Hfit as [Hfit|?]; [|done].
    assert (Z.abs interval * 2 ^ (first - 1) < 2 ^ 1024) as Hhere.
    { eapply Z.le_lt_trans; [|exact Hfit].
      apply Z.mul_le_mono_nonneg_l; [lia|]. apply Z.pow_le_mono_r; lia. }
    cbn [schedule totalDelay]. rewrite NumFacts.js_mul_pow2 by (done || lia).
    rewrite IH; [|lia|lia|].
    + cbn [fmap option_fmap option_map]. f_equal.
      replace (first + 1 - 1) with (Z.succ (first - 1)) by lia.
      rewrite Z.pow_succ_r by lia.
      replace (Z.of_nat (S k)) with (Z.succ (Z.of_nat k)) by lia.
      rewrite Z.pow_succ_r by lia. ring.
    + left. by replace (first + 1 + Z.of_nat k - 1)
        with (first + Z.of_nat (S k) - 1) by lia.
Qed.

(** X1 ([runWithRetries]): under a limit that is a number from 1 to 2^53,
    the engine invokes the operation at least once and no more often than
    there are integers from 1 up to the limit.  Under a limit that is an
    integer it never falls out of the loop: the run does not return
    [undefined].  (Under a limit that is no integer it can.) *)
Theorem attempts_bounded heap callback r o :
  heap !! r = Some o →
  let limit := get o "maxRetries" in
  let run := runWithRetries heap callback (VObject r) in
  js_le (VNumber 1) limit = true →
  js_le limit (VNumber (2 ^ 53)) = true →
  (1 ≤ calls run.1)%nat ∧
  js_le (VNumber (Z.of_nat (calls run.1))) limit = true ∧
  (∀ n, limit = VNumber n →
        Z.of_nat (calls run.1) ≤ n ∧ run.2 ≠ Normal None).
Proof.
  intros Hr limit run Hlow Hhigh.
  destruct (budget_within limit Hlow Hhigh) as [Hone Hwithin].
  assert (run = retryLoop callback limit (get o "interval") (get o "stopRetries")
                          (loopBudget limit) 1) as Hrun.
  { subst run limit. unfold runWithRetries, props. by rewrite Hr. }
  assert (1 ≤ calls run.1)%nat as Hfirst.
  { rewrite Hrun. destruct (loopBudget limit) as [|b]; [lia|].
    by apply calls_retryLoop_first. }
  split; [done|]. split.
  - apply Hwithin. split; [done|]. rewrite Hrun. apply calls_retryLoop.
  - intros n Hn.
    assert (1 ≤ n) as Hle.
    { rewrite Hn, NumFacts.js_le_int in Hlow. by apply Z.leb_le. }
    assert (o !! "maxRetries" = Some (VNumber n)) as Hlook.
    { subst limit. unfold get in Hn.
      destruct (o !! "maxRetries") as [v|]; [by cbn in Hn; subst|done]. }
    destruct (runWithRetries_shape heap callback r o n Hr Hlook Hle)
      as (more & c & Hm & Hne & _ & _ & Heq).
    subst run. rewrite Heq. cbn [fst snd]. rewrite calls_schedule.
    split; [lia|done].
Qed.

Lemma attempts_bounded_witness :
  (1 ≤ calls (runWithRetries {[ O := policy5 ]} flaky (VObject O)).1)%nat ∧
  Z.of_nat (calls (runWithRetries {[ O := policy5 ]} flaky (VObject O)).1) ≤ 5 ∧
  (runWithRetries {[ O := policy5 ]} flaky (VObject O)).2 ≠ Normal None ∧
  (1 ≤ calls (runWithRetries {[ O := policyThreeHalves ]} failing (VObject O)).1)%nat ∧
  runWithRetries {[ O := policyThreeHalves ]} failing (VObject O) =
    ([Call 1; Sleep (VNumber 2000)], Normal None).
Proof.
  destruct (attempts_bounded {[ O := policy5 ]} flaky O policy5
              (lookup_singleton_eq _ _) eq_refl eq_refl) as (Hfirst & _ & Hint).
  destruct (Hint 5 eq_refl) as [Hmost Hreturns].
  destruct (attempts_bounded {[ O := policyThreeHalves ]} failing O policyThreeHalves
              (lookup_singleton_eq _ _) eq_refl eq_refl) as (Hfraction & _ & _).
  split; [exact Hfirst|]. split; [exact Hmost|]. split; [exact Hreturns|].
  split; [exact Hfraction|reflexivity].
Defined.

(** X2 ([runWithRetries]): with a limit that is an integer [n] from 1 to
    1025 and an interval that is an integer [>= 0] with
    [interval * 2^(n-1) < 2^1024], every delay that a run hands to
    [setTimeout] is an integer, and for its [k] invocations they sum to
    [interval * (2^(k-1) - 1)] milliseconds, hence to at most
    [interval * (2^(n-1) - 1)].  (The sum is of the delays asked for, not
    of the time spent.) *)
Theorem waiting_bounded heap callback r o n interval :
  heap !! r = Some o →
  o !! "maxRetries" = Some (VNumber n) →
  o !! "interval" = Some (VNumber interval) →
  1 ≤ n ≤ 1025 →
  0 ≤ interval →
  interval * 2 ^ (n - 1) < 2 ^ 1024 →
  let events := (runWithRetries heap callback (VObject r)).1 in
  ∃ total,
    totalDelay events = Some total ∧
    total = interval * (2 ^ (Z.of_nat (calls events) - 1) - 1) ∧
    total ≤ interval * (2 ^ (n - 1) - 1).
Proof.
  intros Hr Hn Hi [Hle Hmax] Hpos Hfit.
  destruct (runWithRetries_shape heap callback r o n Hr Hn Hle)
    as (more & c & Hm & _ & _ & _ & ->).
  cbn [fst]. replace (get o "interval") with (VNumber interval)
    by (unfold get; by rewrite Hi).
  rewrite calls_schedule, totalDelay_schedule; [|lia|lia|].
  - eexists. split; [done|].
    replace (Z.of_nat (S more) - 1) with (Z.of_nat more) by lia.
    replace (1 - 1) with 0 by lia. rewrite Z.pow_0_r, Z.mul_1_r.
    split; [done|].
    apply Z.mul_le_mono_nonneg_l; [done|].
    apply Z.sub_le_mono_r, Z.pow_le_mono_r; lia.
  - left. eapply Z.le_lt_trans; [|exact Hfit].
    rewrite Z.abs_eq by done.
    apply Z.mul_le_mono_nonneg_l; [done|]. apply Z.pow_le_mono_r; lia.
Qed.

Lemma waiting_bounded_witness :
  let events := (runWithRetries {[ O := policy5 ]} failing (VObject O)).1 in
  ∃ total,
    totalDelay events = Some total ∧
    total = 2000 * (2 ^ (Z.of_nat (calls events) - 1) - 1) ∧
    total ≤ 2000 * (2 ^ (5 - 1) - 1).
Proof.
  apply (waiting_bounded {[ O := policy5 ]} failing O policy5 5 2000);
    [reflexivity|reflexivity|reflexivity|lia|lia|].
  apply Z.lt_le_trans with (2 ^ 16); [lia|]. apply Z.pow_le_mono_r; lia.
Defined.

(** X3 ([runWithRetries]): a configuration that is [undefined] or [null]
    makes the destructuring throw a TypeError before any attempt; a limit
    that is [NaN] (among others: absent) or below 1 makes the engine return
    [undefined] without invoking the operation. *)
Theorem no_attempt_without_a_limit heap callback retryConfig :
  (props heap retryConfig = None →
   ∃ e, runWithRetries heap callback retryConfig = ([], Throw e) ∧
        err_kind e = KTypeError) ∧
  (∀ o, props heap retryConfig = Some o →
        js_le (VNumber 1) (get o "maxRetries") = false →
        runWithRetries heap callback retryConfig = ([], Normal None)).
Proof.
  split.
  - intros Hp. unfold runWithRetries. rewrite Hp. by eexists.
  - intros o Hp Hlimit. unfold runWithRetries. rewrite Hp. cbv zeta.
    destruct (loopBudget (get o "maxRetries")); [done|].
    cbn [retryLoop]. by rewrite Hlimit.
Qed.

Lemma no_attempt_without_a_limit_witness :
  (∃ e, runWithRetries ∅ failing VNull = ([], Throw e) ∧ err_kind e = KTypeError) ∧
  runWithRetries {[ O := <["maxRetries" := VNumber 0]> policy5 ]} failing (VObject O)
    = ([], Normal None) ∧
  runWithRetries {[ O := <["maxRetries" := VNaN]> policy5 ]} failing (VObject O)
    = ([], Normal None).
Proof.
  split; [|split].
  - by apply (proj1 (no_attempt_without_a_limit ∅ failing VNull)).
  - by apply (proj2 (no_attempt_without_a_limit
                    {[ O := <["maxRetries" := VNumber 0]> policy5 ]} failing (VObject O))
                 _ eq_refl).
  - by apply (proj2 (no_attempt_without_a_limit
                    {[ O := <["maxRetries" := VNaN]> policy5 ]} failing (VObject O))
                 _ eq_refl).
Defined.

(** X4 (src/octokit-wrapper.js, [runWithRetries]): the older engine, which
    has no stop predicate, runs as the engine with a predicate that never
    stops: same invocations, same suspensions, same result. *)
Theorem legacy_engine_is_the_engine_that_never_stops heap callback r o :
  heap !! r = Some o →
  Legacy.runWithRetries heap callback (VObject r) =
  runWithRetries
    (<[r := <["stopRetries" := VFunction 0 Legacy.neverStop]> o]> heap)
    callback (VObject r).
Proof.
  intros Hr. unfold Legacy.runWithRetries, runWithRetries, props.
  rewrite Hr, lookup_insert_eq.
  change (default ∅ (Some ?x)) with x. cbv zeta.
  unfold get. rewrite !lookup_insert_ne by done. rewrite lookup_insert_eq.
  apply LegacyFacts.legacy_retryLoop.
Qed.

Lemma legacy_engine_is_the_engine_that_never_stops_witness :
  Legacy.runWithRetries {[ O := policy5 ]} failing (VObject O) =
  runWithRetries
    (<[O := <["stopRetries" := VFunction 0 Legacy.neverStop]> policy5]> {[ O := policy5 ]})
    failing (VObject O).
Proof.
  apply (legacy_engine_is_the_engine_that_never_stops {[ O := policy5 ]} failing O policy5).
  reflexivity.
Defined.

End EngineExtras.

(** ** The request builder: chains of calls, the default policy, projection *)

Module BuilderExtras.
Import Wrapper RetryFacts BuilderFacts Fluent Fixtures MoreFixtures.

(** What [createRequest] returns describes the request it was given, under
    the default policy. *)
Lemma createRequest_describes q params σ0 b σ :
  createRequest q params σ0 = (b, σ) →
  valid σ b ∧
  policy σ b = Some defaultPolicy ∧
  descriptor σ b = Some (initialState q params) ∧
  ∃ rc, b_retryConfig b = VObject rc ∧ objects σ !! rc = Some defaultPolicy.
Proof.
  intros Hcreate. split; [by apply (createRequest_valid q params σ0)|].
  revert Hcreate. unfold createRequest.
  destruct (allocObject _ _) as [rc σ1] eqn:Ha.
  destruct (allocState _ _) as [st σ2] eqn:Hb.
  apply allocObject_spec in Ha as (_ & _ & Eo).
  apply allocState_spec in Hb as (_ & Es & Eo').
  intros [= <- <-]. unfold policy, descriptor, props. cbn.
  rewrite Es, Eo', Eo, !lookup_insert_eq. split; [done|]. split; [done|].
  exists rc. by rewrite lookup_insert_eq.
Qed.

Lemma changes_sets call σ b σ' b' P D :
  policy σ b = Some P → descriptor σ b = Some D →
  changes call σ b σ' b' →
  policy σ' b' = Some (setPolicy P call) ∧
  descriptor σ' b' = Some (setDescriptor D call).
Proof.
  intros HP HD. destruct call; cbn; rewrite HP, HD; by intros [-> ->].
Qed.

Lemma configureAll_composes calls : ∀ b σ b' σ' P D,
  valid σ b → policy σ b = Some P → descriptor σ b = Some D →
  configureAll calls b σ = (Normal b', σ') →
  valid σ' b' ∧
  policy σ' b' = Some (fold_left setPolicy calls P) ∧
  descriptor σ' b' = Some (fold_left setDescriptor calls D).
Proof.
  induction calls as [|call rest IH]; intros b σ b' σ' P D Hv HP HD.
  - cbn. by intros [= <- <-].
  - cbn [configureAll fold_left].
    destruct (configure call b σ) as [[b1|e] σ1] eqn:Hcall; [|by intros [=]].
    intros Hrest.
    destruct (configure_changes _ _ _ _ _ Hv Hcall) as [_ Hch].
    destruct (changes_sets _ _ _ _ _ _ _ HP HD Hch) as [HP1 HD1].
    apply (IH b1 σ1); try done.
    by apply (configure_valid call b σ).
Qed.

Lemma configureAll_grows calls : ∀ b σ r σ',
  configureAll calls b σ = (r, σ') →
  states σ ⊆ states σ' ∧ objects σ ⊆ objects σ'.
Proof.
  induction calls as [|call rest IH]; intros b σ r σ'.
  - cbn. by intros [= _ <-].
  - cbn [configureAll].
    destruct (configure call b σ) as [[b1|e] σ1] eqn:Hcall.
    + intros Hrest. destruct (configure_grows _ _ _ _ _ Hcall) as [Hs Ho].
      destruct (IH _ _ _ _ Hrest) as [Hs' Ho'].
      split; by etrans.
    + intros [= _ <-]. by rewrite (configure_throw _ _ _ _ _ Hcall).
Qed.

(** X5 ([createRequest], [buildRequest]): a chain of configuration calls
    on the builder of [createRequest] leaves that builder as it was; when no
    call throws, the builder at the end of the chain carries the default
    policy with each call's setting applied in order (a later setting of a
    field replaces an earlier one) and the request with the last
    [withProperty] name. *)
Theorem fluent_chain_composes q params σ0 calls b σ r σ' :
  createRequest q params σ0 = (b, σ) →
  configureAll calls b σ = (r, σ') →
  policy σ' b = Some defaultPolicy ∧
  descriptor σ' b = Some (initialState q params) ∧
  ∀ b', r = Normal b' →
    valid σ' b' ∧
    policy σ' b' = Some (fold_left setPolicy calls defaultPolicy) ∧
    descriptor σ' b' = Some (fold_left setDescriptor calls (initialState q params)).
Proof.
  intros Hcreate Hall.
  destruct (createRequest_describes _ _ _ _ _ Hcreate) as (Hv & HP & HD & _).
  destruct (configureAll_grows _ _ _ _ _ Hall) as [Hs Ho].
  destruct (described_grow σ σ' b Hs Ho Hv) as [Hd Hp].
  split; [congruence|]. split; [congruence|].
  intros b' ->. by apply (configureAll_composes calls b σ).
Qed.

Lemma fluent_chain_composes_witness :
  ∃ b' σ',
    configureAll [WithRetries (VNumber 5); WithProperty (Some "id");
                  WithInterval (VNumber 100); WithRetries (VNumber 2)]
                 template.1 template.2 = (Normal b', σ') ∧
    policy σ' b' =
      Some (<["maxRetries" := VNumber 2]> (<["interval" := VNumber 100]> defaultPolicy)) ∧
    (propertyName <$> descriptor σ' b') = Some (Some "id") ∧
    policy σ' template.1 = Some defaultPolicy.
Proof.
  destruct (configureAll [WithRetries (VNumber 5); WithProperty (Some "id");
                          WithInterval (VNumber 100); WithRetries (VNumber 2)]
                         template.1 template.2) as [r σ'] eqn:Hall.
  destruct (fluent_chain_composes
              (Route "GET /repositories/{repository_id}") [] (mkStore ∅ ∅)
              _ template.1 template.2 r σ' eq_refl Hall) as (Htemplate & _ & Hnew).
  assert (∃ b', r = Normal b') as [b' ->]
    by (vm_compute in Hall; injection Hall as <- _; by eexists).
  destruct (Hnew b' eq_refl) as (_ & HP & HD).
  exists b', σ'. split; [done|]. split; [|split; [|done]].
  - rewrite HP. reflexivity.
  - by rewrite HD.
Defined.

(** [request] for a state without projection hands the payload on. *)
Lemma request_plain σ octokit s st n :
  states σ !! s = Some st →
  nonEmpty (propertyName st) = false →
  request σ octokit s n =
    match answer octokit st n with
    | Normal response => Normal (data response)
    | Throw e => Throw e
    end.
Proof.
  intros Hs Hp. unfold request, answer. rewrite Hs, Hp. cbn.
  destruct (restQuery st); by destruct (_ octokit _ _ _).
Qed.

Lemma strict_eq_undefined v : v ≠ VUndefined → strict_eq v VUndefined = false.
Proof. by destruct v. Qed.

(** [request] for a state with a projection. *)
Lemma request_projected σ octokit s st n name :
  states σ !! s = Some st →
  propertyName st = Some name → name ≠ EmptyString →
  request σ octokit s n =
    match answer octokit st n with
    | Normal response =>
      let v := if nullish (data response) then VUndefined
               else get (fields response) name in
      if strict_eq v VUndefined then Throw (propertyNotFound name)
      else Normal v
    | Throw e => Throw e
    end.
Proof.
  intros Hs Hp Hne. unfold request, answer. rewrite Hs, Hp.
  assert (nonEmpty (Some name) = true) as ->.
  { cbn. by destruct (String.eqb_spec name EmptyString). }
  cbn [default andb].
  destruct (restQuery st); destruct (_ octokit _ _ _) as [response|e]; try done;
    by destruct (data response).
Qed.


Lemma default_breaker :
  get defaultPolicy "stopRetries" = VFunction 0 defaultStopRetries.
Proof. reflexivity. Qed.

Lemma default_step_again callback i e interval :
  callback i = Throw e → err_status e ≠ Some 404 → i < 3 →
  step callback (VNumber 3) interval (VFunction 0 defaultStopRetries) i =
    Again (js_mul interval (js_pow2 (i - 1))).
Proof.
  intros Hc Hs Hi. apply (step_again _ _ _ _ _ _ e); [done| |done].
  cbn. by apply bool_decide_eq_false_2.
Qed.

(** The run of the engine under the default policy, on a callback. *)
Lemma default_run heap callback rc :
  heap !! rc = Some defaultPolicy →
  (∀ e, callback 1 = Throw e → err_status e = Some 404 →
        runWithRetries heap callback (VObject rc)
          = ([Call 1], Normal (Some (Failure e)))) ∧
  ((∀ i, 1 ≤ i ≤ 3 → ∃ e, callback i = Throw e ∧ err_status e ≠ Some 404) →
   runWithRetries heap callback (VObject rc)
     = ([Call 1; Sleep (VNumber 2000); Call 2; Sleep (VNumber 4000); Call 3],
        Normal (Some (Failure (exhausted (VNumber 3)))))) ∧
  (∀ v, callback 1 = Normal v →
        runWithRetries heap callback (VObject rc)
          = ([Call 1], Normal (Some (Success v)))).
Proof.
  intros Hrc. split; [|split].
  - intros e Hc Hs.
    rewrite (runWithRetries_ends_at heap callback rc defaultPolicy 3 1
               (Normal (Some (Failure e)))); [done|done|done|lia|intros; lia|].
    unfold step. rewrite Hc, default_breaker. cbn.
    by rewrite bool_decide_eq_true_2.
  - intros Hall.
    rewrite (runWithRetries_ends_at heap callback rc defaultPolicy 3 3
               (Normal (Some (Failure (exhausted (VNumber 3))))));
      [done|done|done|lia| |].
    + intros i Hi. destruct (Hall i) as (e & Hc & Hs); [lia|].
      eexists. rewrite default_breaker.
      apply (default_step_again _ _ e); [done|done|lia].
    + destruct (Hall 3) as (e & Hc & Hs); [lia|].
      unfold step. rewrite Hc, default_breaker. cbn.
      by rewrite bool_decide_eq_false_2.
  - intros v Hc.
    rewrite (runWithRetries_ends_at heap callback rc defaultPolicy 3 1
               (Normal (Some (Success v)))); [done|done|done|lia|intros; lia|].
    unfold step. by rewrite Hc.
Qed.

(** X6 ([createRequest], [runWith], [request]): what a request runs with
    when nothing is configured: three attempts, 2000 ms then 4000 ms between
    them, and a stop at once on an answer of status 404.  The payload of the
    first answer is the result when the client answers. *)
Theorem default_policy_of_a_request q params σ0 octokit b σ :
  createRequest q params σ0 = (b, σ) →
  (∀ e, answer octokit (initialState q params) 1 = Throw e →
        err_status e = Some 404 →
        runWith b octokit σ = ([Call 1], Normal (Some (Failure e)))) ∧
  ((∀ i, 1 ≤ i ≤ 3 →
         ∃ e, answer octokit (initialState q params) i = Throw e ∧
              err_status e ≠ Some 404) →
   runWith b octokit σ
     = ([Call 1; Sleep (VNumber 2000); Call 2; Sleep (VNumber 4000); Call 3],
        Normal (Some (Failure (exhausted (VNumber 3)))))) ∧
  (∀ response, answer octokit (initialState q params) 1 = Normal response →
        runWith b octokit σ = ([Call 1], Normal (Some (Success (data response))))).
Proof.
  intros Hcreate.
  destruct (createRequest_describes _ _ _ _ _ Hcreate)
    as (_ & _ & HD & rc & Hb & Hrc).
  unfold runWith, attemptRequest. rewrite Hb.
  destruct (default_run (objects σ) (request σ octokit (b_state b)) rc Hrc)
    as (H404 & Hex & Hok).
  assert (∀ n, request σ octokit (b_state b) n =
               match answer octokit (initialState q params) n with
               | Normal response => Normal (data response)
               | Throw e => Throw e
               end) as Hreq
    by (intros n; by apply request_plain).
  split; [|split].
  - intros e Ha Hs. apply H404; [|done]. by rewrite Hreq, Ha.
  - intros Hall. apply Hex. intros i Hi.
    destruct (Hall i Hi) as (e & Ha & Hs). exists e. by rewrite Hreq, Ha.
  - intros response Ha. apply Hok. by rewrite Hreq, Ha.
Qed.

Lemma default_policy_of_a_request_witness :
  runWith template.1 octokit500 template.2
    = ([Call 1; Sleep (VNumber 2000); Call 2; Sleep (VNumber 4000); Call 3],
       Normal (Some (Failure (exhausted (VNumber 3))))) ∧
  runWith template.1 octokit404 template.2
    = ([Call 1], Normal (Some (Failure (mkError KError "Not Found" (Some 404))))).
Proof.
  destruct (default_policy_of_a_request
              (Route "GET /repositories/{repository_id}") [] (mkStore ∅ ∅)
              octokit500 template.1 template.2 eq_refl) as (_ & H500 & _).
  destruct (default_policy_of_a_request
              (Route "GET /repositories/{repository_id}") [] (mkStore ∅ ∅)
              octokit404 template.1 template.2 eq_refl) as (H404 & _ & _).
  split.
  - apply H500. intros i _. by eexists.
  - by apply H404.
Defined.

(** X7 ([withProperty], [request]): with a property name, the result is
    the field of the payload when the payload has it; an answer without the
    field (or with a payload that is [undefined] or [null]) counts as a failed
    attempt, is retried, and after the third the error that names the
    property is lost in the error of exhaustion. *)
Theorem projection_of_a_field q params σ0 octokit b σ name b' σ' :
  createRequest q params σ0 = (b, σ) →
  name ≠ EmptyString →
  withProperty b (Some name) σ = (Normal b', σ') →
  (∀ response v,
     answer octokit (initialState q params) 1 = Normal response →
     nullish (data response) = false →
     fields response !! name = Some v → v ≠ VUndefined →
     runWith b' octokit σ' = ([Call 1], Normal (Some (Success v)))) ∧
  ((∀ i, 1 ≤ i ≤ 3 →
      ∃ response, answer octokit (initialState q params) i = Normal response ∧
                  (nullish (data response) = true ∨
                   get (fields response) name = VUndefined)) →
   runWith b' octokit σ'
     = ([Call 1; Sleep (VNumber 2000); Call 2; Sleep (VNumber 4000); Call 3],
        Normal (Some (Failure (exhausted (VNumber 3)))))).
Proof.
  intros Hcreate Hname Hwith.
  destruct (createRequest_describes _ _ _ _ _ Hcreate)
    as (Hv & _ & HD & rc & Hb & Hrc).
  destruct (configure_grows (WithProperty (Some name)) _ _ _ _ Hwith) as [_ Ho].
  destruct (configure_changes (WithProperty (Some name)) _ _ _ _ Hv Hwith)
    as [_ [HD' _]].
  rewrite HD in HD'. cbn in HD'.
  assert (b_retryConfig b' = VObject rc) as Hb'.
  { revert Hwith. unfold withProperty. unfold descriptor in HD. rewrite HD.
    destruct (allocState _ _). intros [= <- _]. done. }
  pose proof (lookup_weaken _ _ _ _ Hrc Ho) as Hrc'.
  unfold runWith, attemptRequest. rewrite Hb'.
  destruct (default_run (objects σ') (request σ' octokit (b_state b')) rc Hrc')
    as (_ & Hex & Hok).
  assert (∀ n, request σ' octokit (b_state b') n =
               match answer octokit (initialState q params) n with
               | Normal response =>
                 let v := if nullish (data response) then VUndefined
                          else get (fields response) name in
                 if strict_eq v VUndefined then Throw (propertyNotFound name)
                 else Normal v
               | Throw e => Throw e
               end) as Hreq.
  { intros n.
    by rewrite (request_projected σ' octokit (b_state b')
                  (withPropertyName (Some name) (initialState q params)) n name). }
  split.
  - intros response v Ha Hn Hf Hv'. apply Hok.
    rewrite Hreq, Ha. cbv zeta. rewrite Hn. unfold get. rewrite Hf. cbn.
    by rewrite strict_eq_undefined.
  - intros Hall. apply Hex. intros i Hi.
    destruct (Hall i Hi) as (response & Ha & Hmiss).
    exists (propertyNotFound name). rewrite Hreq, Ha. cbv zeta. split; [|done].
    destruct (nullish (data response)) eqn:Hn; [done|].
    destruct Hmiss as [Hn' | Hg]; [congruence | by rewrite Hg].
Qed.

Lemma projection_of_a_field_witness :
  runWith (projected "id").1 octokitRepo (projected "id").2
    = ([Call 1], Normal (Some (Success (VNumber 42)))) ∧
  runWith (projected "name").1 octokitRepo (projected "name").2
    = ([Call 1; Sleep (VNumber 2000); Call 2; Sleep (VNumber 4000); Call 3],
       Normal (Some (Failure (exhausted (VNumber 3))))).
Proof.
  split.
  - apply (proj1 (projection_of_a_field
              (Route "GET /repositories/{repository_id}") [] (mkStore ∅ ∅)
              octokitRepo template.1 template.2 "id"
              (projected "id").1 (projected "id").2
              eq_refl ltac:(discriminate) eq_refl) repoPayload (VNumber 42));
      [reflexivity | reflexivity | reflexivity | discriminate].
  - apply (proj2 (projection_of_a_field
              (Route "GET /repositories/{repository_id}") [] (mkStore ∅ ∅)
              octokitRepo template.1 template.2 "name"
              (projected "name").1 (projected "name").2
              eq_refl ltac:(discriminate) eq_refl)).
    intros i _. exists repoPayload. split; [reflexivity | right; reflexivity].
Defined.

End BuilderExtras.

(** ** Task: what the constructor admits, and [run] as a run of the engine *)

Module TaskExtras.
Import Executors TaskFacts TaskLoopFacts ChainFacts RunFacts ChainFixtures TaskPolicy MoreFixtures.

Lemma validateDeclared_spec elements :
  match validateDeclared elements with
  | Normal _ =>
    Forall (λ element,
              ∃ input, element = Declared input ∧
                in_name input ≠ EmptyString ∧
                typeof (orDefault (in_isTemplate input) (VBool true)) = TBoolean)
           elements
  | Throw e =>
    err_kind e = KError ∨ (e = nullishInput ∧ Nullish ∈ elements)
  end.
Proof.
  induction elements as [|[|input] rest IH]; cbn; [done| |].
  { right. split; [done|]. by left. }
  unfold isEmptyOrNull. destruct (String.eqb_spec (in_name input) EmptyString);
    [by left|].
  destruct (typeof (orDefault (in_isTemplate input) (VBool true))) eqn:Ht;
    try by left.
  destruct (validateDeclared rest) as [[]|e].
  - constructor; [|done]. exists input. by rewrite Ht.
  - destruct IH as [?|[? ?]]; [by left|right]. split; [done|by right].
Qed.

(** A number that is not below an integer is [NaN] or at least the
    integer. *)
Lemma number_not_below v n :
  typeof v = TNumber → js_lt v (VNumber n) = false →
  v = VNaN ∨ js_ge v (VNumber n) = true.
Proof.
  destruct v; try done; [| | |by left]; intros _; right; revert H;
    unfold js_lt, js_ge, num_lt; cbn [to_number];
    by intros ?%negb_false_iff.
Qed.

(** What a configuration is when the constructor has accepted it. *)
Lemma validateInputs_spec label config :
  let retries := orDefault (cfg_retries config) (VNumber 3) in
  let interval := orDefault (cfg_interval config) (VNumber 2000) in
  let stopRetries :=
    orDefault (cfg_stopRetries config) (VFunction 0 defaultStopRetries) in
  match validateInputs label config with
  | Normal _ =>
    label ≠ EmptyString ∧ hasWhiteSpace label = false ∧
    cfg_inputs config ≠ NotAnArray ∧
    Forall (λ element,
              ∃ input, element = Declared input ∧
                in_name input ≠ EmptyString ∧
                typeof (orDefault (in_isTemplate input) (VBool true)) = TBoolean)
           (elementsOf (cfg_inputs config)) ∧
    (typeof retries = TNumber ∧
     (retries = VNaN ∨ js_ge retries (VNumber 1) = true)) ∧
    (typeof interval = TNumber ∧
     (interval = VNaN ∨ js_ge interval (VNumber 500) = true)) ∧
    typeof stopRetries = TFunction
  | Throw e =>
    err_kind e = KError ∨
    (e = nullishInput ∧ Nullish ∈ elementsOf (cfg_inputs config))
  end.
Proof.
  intros retries interval stopRetries. unfold validateInputs.
  fold retries interval stopRetries.
  unfold isEmptyOrNull. destruct (String.eqb_spec label EmptyString); [by left|].
  destruct (hasWhiteSpace label); [by left|].
  destruct (isArray (cfg_inputs config)) eqn:Harray; cbn [negb]; [|by left].
  pose proof (validateDeclared_spec (elementsOf (cfg_inputs config))) as Hd.
  destruct (validateDeclared _); [|done].
  destruct (typeof retries) eqn:Hr; try by left.
  destruct (js_lt retries (VNumber 1)) eqn:Hr1; [by left|].
  destruct (typeof interval) eqn:Hi; try by left.
  destruct (js_lt interval (VNumber 500)) eqn:Hi1; [by left|].
  destruct (typeof stopRetries) eqn:Hs; try by left.
  split; [done|]. split; [done|].
  split; [intros E; by rewrite E in Harray|]. split; [done|].
  split; [split; [done|by apply number_not_below]|].
  split; [split; [done|by apply number_not_below]|done].
Qed.

(** X8 ([Task] constructor, [#validateInputs]), for a label that is a
    string, an action that is a function and a configuration object whose
    [inputs] is absent, an array of objects with a string for a name and of
    [null]s, or no array: a constructor that returns has allocated a fresh
    task that belongs to no chain, for a label without white space, inputs
    that are absent or an array of objects with a name and a boolean
    [isTemplate], a number of attempts that is [NaN] or at least 1, an
    interval that is [NaN] or at least 500, and a stop predicate that is a
    function.  A constructor that throws leaves the world as it was; it
    throws an [Error], or, for an array of inputs with a [null] or an
    [undefined] in it, the TypeError of the destructuring of that
    element. *)
Theorem constructor_validates label action config w tr r w' :
  newTask label action config w = (tr, r, w') →
  let retries := orDefault (cfg_retries config) (VNumber 3) in
  let interval := orDefault (cfg_interval config) (VNumber 2000) in
  let stopRetries :=
    orDefault (cfg_stopRetries config) (VFunction 0 defaultStopRetries) in
  tr = [] ∧
  match r with
  | Normal t =>
    label ≠ EmptyString ∧ hasWhiteSpace label = false ∧
    cfg_inputs config ≠ NotAnArray ∧
    Forall (λ element,
              ∃ input, element = Declared input ∧
                in_name input ≠ EmptyString ∧
                typeof (orDefault (in_isTemplate input) (VBool true)) = TBoolean)
           (elementsOf (cfg_inputs config)) ∧
    (typeof retries = TNumber ∧
     (retries = VNaN ∨ js_ge retries (VNumber 1) = true)) ∧
    (typeof interval = TNumber ∧
     (interval = VNaN ∨ js_ge interval (VNumber 500) = true)) ∧
    typeof stopRetries = TFunction ∧
    tasks w !! t = None ∧
    w' = mkWorld (<[t := mkTask label action config None]> (tasks w))
                 (chains w) (listeners w)
  | Throw e =>
    w' = w ∧
    (err_kind e = KError ∨
     (e = nullishInput ∧ err_kind e = KTypeError ∧
      Nullish ∈ elementsOf (cfg_inputs config)))
  end.
Proof.
  intros Hnew retries interval stopRetries.
  pose proof (validateInputs_spec label config) as Hv. cbv zeta in Hv.
  fold retries interval stopRetries in Hv.
  revert Hnew. unfold newTask. unfoldM. cbn.
  destruct (validateInputs label config) as [[]|e]; cbn.
  - intros [= <- <- <-]. split; [done|].
    destruct Hv as (H1 & H2 & H3 & H4 & H5 & H6 & H7).
    repeat (split; [done|]). split; [|done].
    apply not_elem_of_dom. apply is_fresh.
  - intros [= <- <- <-]. split; [done|]. split; [done|].
    destruct Hv as [?|[-> ?]]; [by left|by right].
Qed.

Lemma constructor_validates_witness :
  tasks detachedQuiet !! O = Some (mkTask "build" fails (attempts 1) None) ∧
  (newTask "two words" fails (attempts 1) emptyWorld).2 = emptyWorld ∧
  (newTask "build" fails (withInputs (InputArray [Nullish])) emptyWorld).1.2 =
    Throw nullishInput.
Proof.
  split; [|split].
  - pose proof (constructor_validates "build" fails (attempts 1) emptyWorld
                  [] (Normal O) detachedQuiet eq_refl) as [_ H].
    destruct H as (_ & _ & _ & _ & _ & _ & _ & _ & ->). reflexivity.
  - destruct (newTask "two words" fails (attempts 1) emptyWorld)
      as [[tr r] w'] eqn:Hnew.
    pose proof (constructor_validates _ _ _ _ _ _ _ Hnew) as [_ H].
    vm_compute in Hnew. injection Hnew as <- <- <-. by destruct H.
  - destruct (newTask "build" fails (withInputs (InputArray [Nullish])) emptyWorld)
      as [[tr r] w'] eqn:Hnew.
    pose proof (constructor_validates _ _ _ _ _ _ _ Hnew) as [_ H].
    vm_compute in Hnew. injection Hnew as <- <- <-.
    by destruct H as [_ [?|[-> _]]].
Defined.

(** X9 ([#validateInputs], [Task.run], [TaskChain.run]): [retries: NaN]
    passes the validation as an absent [retries] does; the task then never
    invokes its action, [run] returns [undefined], and a chain that comes to
    it throws a TypeError at the destructuring of that result. *)
Theorem nan_retries_never_attempt :
  (∀ label inputs interval stopRetries,
     validateInputs label
       {| cfg_inputs := inputs; cfg_retries := VNaN;
          cfg_interval := interval; cfg_stopRetries := stopRetries |} =
     validateInputs label
       {| cfg_inputs := inputs; cfg_retries := VUndefined;
          cfg_interval := interval; cfg_stopRetries := stopRetries |}) ∧
  (∀ w t obj,
     tasks w !! t = Some obj → cfg_retries (t_config obj) = VNaN →
     (∀ context, Task_run t context w = ([EvRun t], Normal None, w)) ∧
     (∀ c ch rest inputs,
        chains w !! c = Some ch → c_chain ch = VTask t :: rest →
        TaskChain_run c inputs w =
          ([EvRun t], Throw (newTypeError "undefined is not iterable"),
           flagged c (VBool false) w))).
Proof.
  split; [done|].
  intros w t obj Hobj Hnan.
  assert (∀ context w1, tasks w1 = tasks w →
            Task_run t context w1 = ([EvRun t], Normal None, w1)) as Hrun.
  { intros context w1 Hw1.
    rewrite (Task_run_spec t obj); [|by rewrite Hw1].
    by rewrite Hnan. }
  split; [intros; by apply Hrun|].
  intros c ch rest inputs Hch Hmem.
  rewrite (TaskChain_run_spec c inputs w ch Hch), Hmem.
  cbn [runTasks run]. unfold bind at 1. by rewrite Hrun.
Qed.

Lemma nan_retries_never_attempt_witness :
  (newTask "build" fails nanConfig emptyWorld).1.2 = Normal O ∧
  Task_run 0 noContext nanWorld = ([EvRun O], Normal None, nanWorld) ∧
  (TaskChain_run 0 VNull nanWorld).1 =
    ([EvRun O], Throw (newTypeError "undefined is not iterable")).
Proof.
  split; [reflexivity|].
  destruct (proj2 nan_retries_never_attempt nanWorld O
              (mkTask "build" fails nanConfig (Some O)) eq_refl eq_refl)
    as [Hrun Hchain].
  split; [apply Hrun|].
  by rewrite (Hchain O (mkChain [VTask O] VUndefined) [] VNull eq_refl eq_refl).
Defined.

(** X10 ([Task.run]): for a task that belongs to a chain, [run] makes
    the invocations and the suspensions of [runWithRetries] on the action
    under the task's settings, and returns the pair that goes with its
    result. *)
Theorem task_run_is_the_retry_engine w t obj c context heap r :
  tasks w !! t = Some obj →
  t_chain obj = Some c →
  heap !! r = Some (policyOf (t_config obj)) →
  let run := Task_run t context w in
  let engine := Wrapper.runWithRetries heap (t_action obj context) (VObject r) in
  engineView run.1.1 = engine.1 ∧ run.1.2 = ofEngine engine.2.
Proof.
  intros Hobj Hc Hr run engine. subst run engine.
  rewrite (Task_run_spec t obj context w Hobj). cbv zeta.
  unfold Wrapper.runWithRetries. cbn [Wrapper.props]. rewrite Hr.
  change (default ∅ (Some (policyOf (t_config obj)))) with (policyOf (t_config obj)).
  set (retries := orDefault (cfg_retries (t_config obj)) (VNumber 3)).
  set (interval := orDefault (cfg_interval (t_config obj)) (VNumber 2000)).
  set (stopRetries :=
         orDefault (cfg_stopRetries (t_config obj)) (VFunction 0 defaultStopRetries)).
  assert (get (policyOf (t_config obj)) "maxRetries" = retries) as -> by done.
  assert (get (policyOf (t_config obj)) "interval" = interval) as -> by done.
  assert (get (policyOf (t_config obj)) "stopRetries" = stopRetries) as -> by done.
  change (Wrapper.loopBudget retries) with (loopBudget retries).
  pose proof (runLoop_refines t (t_action obj) context retries interval stopRetries
                w c (loopBudget retries)) as Href.
  destruct Href with (attempt := 1) as [Htr Hres]; [by rewrite Hobj; cbn; rewrite Hc|].
  destruct (runLoop _ _ _ _ _ _ _ _ _) as [[tr res] w'].
  split; [exact Htr|exact Hres].
Qed.

Lemma task_run_is_the_retry_engine_witness :
  engineView (Task_run 0 noContext oneFailing).1.1 = [Wrapper.Call 1] ∧
  (Task_run 0 noContext oneFailing).1.2 =
    Normal (Some (false, VError (exhausted (VNumber 1)))).
Proof.
  destruct (task_run_is_the_retry_engine oneFailing O
              (mkTask "build" fails (attempts 1) (Some O)) O noContext
              {[ O := policyOf (attempts 1) ]} O eq_refl eq_refl
              (lookup_singleton_eq _ _))
    as [Htr Hres].
  split; [rewrite Htr | rewrite Hres]; reflexivity.
Defined.

End TaskExtras.

(** ** The inputs of tasks and the template of a chain *)

Module InputExtras.
Import Executors ChainFacts ChainFixtures Inputs MoreFixtures.

Section Clone.

Variable deepClone : Value -> Value.

Lemma assignAll_declared elements : ∀ l o,
  inputsOf elements = Some l →
  assignAll deepClone elements o = Normal (fold_left (assign deepClone) l o).
Proof.
  induction elements as [|[|input] rest IH]; intros l o; cbn.
  - by intros [= <-].
  - by intros [=].
  - destruct (inputsOf rest) as [l'|]; [|by intros [=]]. cbn.
    intros [= <-]. cbn. by apply IH.
Qed.

Lemma getInputs_declared w v l :
  declared w v = Some l →
  getInputs deepClone v w =
    ([], Normal (fold_left (assign deepClone) l emptyObj), w).
Proof.
  destruct v; try done. cbn. unfold Task_getInputs. unfoldM.
  destruct (tasks w !! ref) as [obj|]; [|done]. cbn.
  destruct (cfg_inputs (t_config obj)) as [|elements|]; try done.
  intros Hl. unfold lift. by rewrite (assignAll_declared _ _ _ Hl).
Qed.

Lemma assignAll_undeclared elements : ∀ o,
  inputsOf elements = None →
  assignAll deepClone elements o = Throw nullishInput.
Proof.
  induction elements as [|[|input] rest IH]; intros o; cbn; [done|done|].
  destruct (inputsOf rest) as [l'|]; [done|]. intros _. by apply IH.
Qed.

Lemma getInputs_undeclared w v :
  declared w v = None →
  ∃ e, getInputs deepClone v w = ([], Throw e, w) ∧ err_kind e = KTypeError.
Proof.
  destruct v; cbn; try (intros _; by eexists).
  unfold Task_getInputs. unfoldM.
  destruct (tasks w !! ref) as [obj|]; cbn; [|intros _; by eexists].
  destruct (cfg_inputs (t_config obj)) as [|elements|];
    try (intros _; by eexists).
  intros Hl. unfold lift. rewrite (assignAll_undeclared _ _ Hl). by eexists.
Qed.

(** The own properties that the assignments of [getInputs] make, for names
    other than ["__proto__"]. *)
Lemma fold_assign_own l : ∀ o,
  Forall (λ i, in_name i ≠ "__proto__") l →
  own (fold_left (assign deepClone) l o) = fold_left (put deepClone) l (own o).
Proof.
  induction l as [|input l IH]; intros o Hl; [done|].
  apply Forall_cons in Hl as [Hi Hl]. cbn. rewrite (IH _ Hl).
  unfold assign. by rewrite RunFacts.assignProp_other.
Qed.

Lemma fold_put_union l : ∀ m,
  fold_left (put deepClone) l m = fold_left (put deepClone) l ∅ ∪ m.
Proof.
  induction l as [|input l IH]; intros m; cbn.
  - by rewrite (left_id_L ∅ (∪)).
  - rewrite (IH (put deepClone m input)), (IH (put deepClone ∅ input)).
    unfold put. rewrite <- (assoc_L (∪)). f_equal.
    by rewrite <- insert_union_l, (left_id_L ∅ (∪)).
Qed.

Lemma fold_put_other l k : ∀ m,
  Forall (λ i, in_name i ≠ k) l →
  fold_left (put deepClone) l m !! k = m !! k.
Proof.
  induction l as [|input l IH]; intros m Hl; [done|].
  apply Forall_cons in Hl as [Hi Hl]. cbn. rewrite (IH _ Hl).
  unfold put. by rewrite lookup_insert_ne.
Qed.

Lemma fold_put_last pre input post m :
  Forall (λ i, in_name i ≠ in_name input) post →
  fold_left (put deepClone) (pre ++ input :: post) m !! in_name input =
    Some (valueOf deepClone input).
Proof.
  intros Hpost. rewrite fold_left_app. cbn.
  rewrite (fold_put_other _ _ _ Hpost). unfold put.
  by rewrite lookup_insert_eq.
Qed.

Lemma reduceInputs_declared w : ∀ chain m,
  Forall (λ v, is_Some (declared w v)) chain →
  Forall (λ i, in_name i ≠ "__proto__") (declarations w chain) →
  reduceInputs deepClone chain m w =
    ([], Normal (fold_left (put deepClone) (declarations w chain) m), w).
Proof.
  induction chain as [|v rest IH]; intros m Hall Hnames; [done|].
  apply Forall_cons in Hall as [[l Hl] Hall].
  unfold declarations in Hnames. cbn in Hnames. rewrite Hl in Hnames.
  cbn in Hnames. apply Forall_app in Hnames as [Hhere Hrest].
  cbn [reduceInputs]. unfold bind. rewrite (getInputs_declared _ _ _ Hl).
  rewrite (IH _ Hall Hrest). cbn. unfold declarations. cbn. rewrite Hl. cbn.
  rewrite fold_left_app, (fold_assign_own _ _ Hhere). cbn.
  by rewrite <- fold_put_union.
Qed.

Lemma reduceInputs_undeclared w v : ∀ chain m,
  v ∈ chain → declared w v = None →
  ∃ e, reduceInputs deepClone chain m w = ([], Throw e, w) ∧
       err_kind e = KTypeError.
Proof.
  induction chain as [|x rest IH]; intros m Hin Hv.
  - by apply elem_of_nil in Hin.
  - cbn [reduceInputs]. unfold bind.
    destruct (declared w x) as [l|] eqn:Hx.
    + rewrite (getInputs_declared _ _ _ Hx).
      apply elem_of_cons in Hin as [->|Hin]; [congruence|].
      destruct (IH (own (fold_left (assign deepClone) l emptyObj) ∪ m) Hin Hv)
        as (e & -> & He).
      by exists e.
    + destruct (getInputs_undeclared _ _ Hx) as (e & -> & He). by exists e.
Qed.

(** X11 ([getInputTemplate], [getInputs]): when every member declares
    inputs and none of them is named "__proto__", the own properties of
    the template are what one pass over the declarations of all the
    members, in the order of the chain, assigns: for a name declared more
    than once the value of its last declaration is the one kept.  (An
    input named "__proto__" is assigned through the setter that the object
    inherits and makes no own property.) *)
Theorem template_collects_declarations w c :
  Forall (λ v, is_Some (declared w v)) (members w c) →
  Forall (λ i, in_name i ≠ "__proto__") (declarations w (members w c)) →
  getInputTemplate deepClone c w =
    ([], Normal (fold_left (put deepClone) (declarations w (members w c)) ∅), w) ∧
  ∀ pre input post,
    declarations w (members w c) = pre ++ input :: post →
    Forall (λ i, in_name i ≠ in_name input) post →
    fold_left (put deepClone) (declarations w (members w c)) ∅ !! in_name input =
      Some (valueOf deepClone input).
Proof.
  intros Hall Hnames. split.
  - unfold getInputTemplate, bind, chainOf, gets. fold (members w c).
    by rewrite (reduceInputs_declared _ _ _ Hall Hnames).
  - intros pre input post -> Hpost. by apply fold_put_last.
Qed.

(** X12 ([Task] constructor, [getInputs], [getInputTemplate]): the
    constructor validates a configuration without [inputs] as one with no
    declared input, but [getInputs] reads [this.#config.inputs] itself: for
    such a task it throws a TypeError, and so does [getInputTemplate] of
    every chain that the task is a member of. *)
Theorem absent_inputs_break_the_template :
  (∀ label retries interval stopRetries,
     validateInputs label
       {| cfg_inputs := NoInputs; cfg_retries := retries;
          cfg_interval := interval; cfg_stopRetries := stopRetries |} =
     validateInputs label
       {| cfg_inputs := InputArray []; cfg_retries := retries;
          cfg_interval := interval; cfg_stopRetries := stopRetries |}) ∧
  (∀ w t obj,
     tasks w !! t = Some obj → cfg_inputs (t_config obj) = NoInputs →
     (∃ e, Task_getInputs deepClone t w = ([], Throw e, w) ∧
           err_kind e = KTypeError) ∧
     (∀ c ch,
        chains w !! c = Some ch → VTask t ∈ c_chain ch →
        ∃ e, getInputTemplate deepClone c w = ([], Throw e, w) ∧
             err_kind e = KTypeError)).
Proof.
  split; [done|].
  intros w t obj Hobj Hnone.
  assert (declared w (VTask t) = None) as Hd
    by (cbn; rewrite Hobj; cbn; by rewrite Hnone).
  split; [exact (getInputs_undeclared w (VTask t) Hd)|].
  intros c ch Hch Hin.
  unfold getInputTemplate, bind, chainOf, gets. rewrite Hch. cbn.
  destruct (reduceInputs_undeclared w (VTask t) (c_chain ch) ∅ Hin Hd)
    as (e & -> & He).
  by exists e.
Qed.

End Clone.

Lemma template_collects_declarations_witness :
  getInputTemplate copy 0 templated =
    ([], Normal (<["tag" := VNumber 3]> (<["env" := VNumber 2]> (<["env" := VNumber 1]> ∅))),
     templated) ∧
  fold_left (put copy) (declarations templated (members templated 0)) ∅ !! "env" =
    Some (VNumber 2).
Proof.
  assert (Forall (λ v, is_Some (declared templated v)) (members templated 0)) as Hall.
  { repeat constructor; by eexists. }
  assert (Forall (λ i, in_name i ≠ "__proto__")
                 (declarations templated (members templated 0))) as Hnames.
  { repeat constructor; discriminate. }
  destruct (template_collects_declarations copy templated O Hall Hnames)
    as [Hrun Hlast].
  split; [exact Hrun|].
  apply (Hlast [env 1] (env 2) [tag 3]); [reflexivity|].
  repeat constructor. discriminate.
Defined.

Lemma absent_inputs_break_the_template_witness :
  ∃ e, getInputTemplate copy 0 oneFailing = ([], Throw e, oneFailing) ∧
       err_kind e = KTypeError.
Proof.
  destruct (proj2 (absent_inputs_break_the_template copy) oneFailing O
              (mkTask "build" fails (attempts 1) (Some O)) eq_refl eq_refl)
    as [_ Hchain].
  apply (Hchain O (mkChain [VTask O] VUndefined) eq_refl).
  apply list_elem_of_here.
Defined.

End InputExtras.

(** ** TaskChain: removal, look-up, and what a run does and leaves *)

Module ChainExtras.
Import Executors TaskFacts ChainFacts RunFacts ChainFixtures RunViews MoreFixtures.

Lemma strict_eq_task x t : strict_eq x (VTask t) = true ↔ x = VTask t.
Proof.
  destruct x; cbn; try (split; [discriminate|discriminate]).
  rewrite bool_decide_eq_true. split; [by intros ->|by intros [= ->]].
Qed.

Lemma indexOf_first t pre post : ∀ i,
  VTask t ∉ pre →
  indexOf (pre ++ VTask t :: post) (VTask t) i = Some (i + length pre)%nat.
Proof.
  induction pre as [|x pre IH]; intros i Hpre; cbn.
  - rewrite bool_decide_eq_true_2 by done. f_equal. lia.
  - apply not_elem_of_cons in Hpre as [Hx Hpre].
    destruct (strict_eq x (VTask t)) eqn:Heq.
    + apply strict_eq_task in Heq. congruence.
    + rewrite (IH (S i) Hpre). f_equal. lia.
Qed.

Lemma indexOf_absent t chain : ∀ i,
  VTask t ∉ chain → indexOf chain (VTask t) i = None.
Proof.
  induction chain as [|x chain IH]; intros i Hin; [done|]. cbn.
  apply not_elem_of_cons in Hin as [Hx Hin].
  destruct (strict_eq x (VTask t)) eqn:Heq.
  - apply strict_eq_task in Heq. congruence.
  - by apply IH.
Qed.

Lemma members_lookup w c ch : chains w !! c = Some ch → members w c = c_chain ch.
Proof. unfold members. by intros ->. Qed.

Lemma removeTask_member w c ch t obj pre post :
  chains w !! c = Some ch →
  tasks w !! t = Some obj →
  c_chain ch = pre ++ VTask t :: post → VTask t ∉ pre →
  removeTask c (VTask t) w =
    ([], Normal tt,
     mkWorld (<[t := mkTask (t_label obj) (t_action obj) (t_config obj) None]> (tasks w))
             (<[c := mkChain (pre ++ post) (c_stopChain ch)]> (chains w))
             (listeners w)).
Proof.
  intros Hch Hobj Hmem Hpre.
  unfold removeTask, bind. rewrite validateTask_never.
  unfold chainOf, gets. fold (members w c). rewrite (members_lookup _ _ _ Hch).
  rewrite Hmem, (indexOf_first t pre post O Hpre). cbn.
  unfold attach, rewrite_chain. cbn. f_equal. f_equal.
  - apply map_eq. intros k. destruct (decide (k = t)) as [->|Hk].
    + by rewrite lookup_alter_eq, Hobj, lookup_insert_eq.
    + by rewrite lookup_alter_ne, lookup_insert_ne.
  - apply map_eq. intros k. destruct (decide (k = c)) as [->|Hk].
    + rewrite lookup_alter_eq, Hch, lookup_insert_eq. cbn. rewrite Hmem.
      rewrite take_app_length.
      rewrite (cons_middle (VTask t) pre post), (assoc_L (++)).
      rewrite (drop_app_length' (pre ++ [VTask t]) post);
        [done|by rewrite length_app; cbn; lia].
    + by rewrite lookup_alter_ne, lookup_insert_ne.
Qed.

Lemma removeTask_absent w c ch t obj :
  chains w !! c = Some ch →
  tasks w !! t = Some obj →
  VTask t ∉ c_chain ch →
  removeTask c (VTask t) w =
    ([], Throw (newError (t_label obj +:+ " cannot be found!")), w).
Proof.
  intros Hch Hobj Hnot.
  unfold removeTask, bind. rewrite validateTask_never.
  unfold chainOf, gets. fold (members w c). rewrite (members_lookup _ _ _ Hch).
  rewrite (indexOf_absent t _ O Hnot). cbn. unfoldM. by rewrite Hobj.
Qed.

(** X13 ([removeTask]): for a task that is a member, [removeTask] takes
    its first occurrence out of the chain, leaves the other members in their
    order and clears the task's back-reference (also when a second
    occurrence stays behind); for a task that is no member it throws the
    error that names the label and changes nothing. *)
Theorem removeTask_removes_the_first_occurrence w c ch t obj :
  chains w !! c = Some ch →
  tasks w !! t = Some obj →
  (∀ pre post,
     c_chain ch = pre ++ VTask t :: post → VTask t ∉ pre →
     removeTask c (VTask t) w =
       ([], Normal tt,
        mkWorld (<[t := mkTask (t_label obj) (t_action obj) (t_config obj) None]> (tasks w))
                (<[c := mkChain (pre ++ post) (c_stopChain ch)]> (chains w))
                (listeners w))) ∧
  (VTask t ∉ c_chain ch →
   removeTask c (VTask t) w =
     ([], Throw (newError (t_label obj +:+ " cannot be found!")), w)).
Proof.
  intros Hch Hobj. split.
  - intros pre post. by apply removeTask_member.
  - by apply removeTask_absent.
Qed.

Lemma removeTask_removes_the_first_occurrence_witness :
  (∃ w', removeTask 0 (VTask 0) duplicated = ([], Normal tt, w') ∧
         members w' 0 = [VTask 1] ∧
         t_chain <$> tasks w' !! O = Some None) ∧
  removeTask 0 (VTask 1) twoBuilds =
    ([], Throw (newError "build cannot be found!"), twoBuilds).
Proof.
  split.
  - eexists. split.
    + apply (proj1 (removeTask_removes_the_first_occurrence duplicated O
                      (mkChain [VTask O; VTask 1%nat] VUndefined) O
                      (mkTask "build" fails (attempts 1) (Some O))
                      eq_refl eq_refl) [] [VTask 1%nat] eq_refl).
      apply not_elem_of_nil.
    + split; reflexivity.
  - apply (proj2 (removeTask_removes_the_first_occurrence twoBuilds O
                    (mkChain [VTask O] VUndefined) 1%nat
                    (mkTask "build" (succeeds (VNumber 7)) (attempts 1) None)
                    eq_refl eq_refl)).
    intros H. apply elem_of_cons in H as [H|H]; [discriminate H|].
    by apply elem_of_nil in H.
Defined.

(** X14 ([addTask], [removeTask]): adding a task that is not a member
    and removing it again restores the chains; the task is left with no
    back-reference, whatever chain it belonged to before. *)
Theorem addTask_then_removeTask w c ch t obj :
  chains w !! c = Some ch →
  tasks w !! t = Some obj →
  VTask t ∉ c_chain ch →
  ∃ w1,
    addTask c (VTask t) w = ([], Normal tt, w1) ∧
    t_chain <$> tasks w1 !! t = Some (Some c) ∧
    removeTask c (VTask t) w1 =
      ([], Normal tt,
       mkWorld (<[t := mkTask (t_label obj) (t_action obj) (t_config obj) None]> (tasks w))
               (chains w) (listeners w)).
Proof.
  intros Hch Hobj Hnot. eexists. split; [apply addTask_task|].
  split; [cbn; by rewrite lookup_alter_eq, Hobj|].
  set (w1 := attach t (Some c) (rewrite_chain c (λ chain, chain ++ [VTask t]) w)).
  assert (chains w1 !! c = Some (mkChain (c_chain ch ++ [VTask t]) (c_stopChain ch)))
    as Hch1 by (cbn; by rewrite lookup_alter_eq, Hch).
  assert (tasks w1 !! t =
            Some (mkTask (t_label obj) (t_action obj) (t_config obj) (Some c)))
    as Hobj1 by (cbn; by rewrite lookup_alter_eq, Hobj).
  rewrite (removeTask_member w1 c _ t _ (c_chain ch) [] Hch1 Hobj1 eq_refl Hnot).
  cbn. f_equal. f_equal.
  - apply map_eq. intros k. destruct (decide (k = t)) as [->|Hk].
    + by rewrite !lookup_insert_eq.
    + by rewrite !lookup_insert_ne, lookup_alter_ne.
  - apply map_eq. intros k. destruct (decide (k = c)) as [->|Hk].
    + rewrite lookup_insert_eq, Hch, (right_id_L [] (++)). by destruct ch.
    + by rewrite lookup_insert_ne, lookup_alter_ne.
Qed.

Lemma addTask_then_removeTask_witness :
  ∃ w1,
    addTask 0 (VTask 1) twoBuilds = ([], Normal tt, w1) ∧
    t_chain <$> tasks w1 !! 1%nat = Some (Some O) ∧
    chains (removeTask 0 (VTask 1) w1).2 = chains twoBuilds.
Proof.
  destruct (addTask_then_removeTask twoBuilds O (mkChain [VTask O] VUndefined)
              1%nat (mkTask "build" (succeeds (VNumber 7)) (attempts 1) None)
              eq_refl eq_refl) as (w1 & Hadd & Hown & Hrem).
  - intros H. apply elem_of_cons in H as [H|H]; [discriminate H|].
    by apply elem_of_nil in H.
  - exists w1. split; [exact Hadd|]. split; [exact Hown|].
    by rewrite Hrem.
Defined.

Lemma firstWithLabel_first w label pre v post : ∀ i,
  labelOf w v = Some label →
  Forall (λ x, labelOf w x ≠ Some label) pre →
  firstWithLabel w (pre ++ v :: post) label i = Some (i + length pre)%nat.
Proof.
  induction pre as [|x pre IH]; intros i Hv Hpre; cbn.
  - rewrite bool_decide_eq_true_2 by done. f_equal. lia.
  - apply Forall_cons in Hpre as [Hx Hpre].
    rewrite bool_decide_eq_false_2 by done.
    rewrite (IH (S i) Hv Hpre). f_equal. lia.
Qed.

Lemma firstWithLabel_absent w label chain : ∀ i,
  Forall (λ x, labelOf w x ≠ Some label) chain →
  firstWithLabel w chain label i = None.
Proof.
  induction chain as [|x chain IH]; intros i Hall; [done|]. cbn.
  apply Forall_cons in Hall as [Hx Hall].
  rewrite bool_decide_eq_false_2 by done. by apply IH.
Qed.

(** X15 ([getTask], [#findByLabel]): [getTask] rejects an empty label or
    one with white space; otherwise it returns the first member that carries
    the label (a later member with the same label is never returned), and
    throws the error that names the label when no member carries it.  The
    chain is not changed. *)
Theorem getTask_returns_the_first_with_the_label w c label :
  Forall (λ v, is_Some (labelOf w v)) (members w c) →
  (isEmptyOrNull label = true ∨ hasWhiteSpace label = true →
   ∃ e, getTask c label w = ([], Throw e, w) ∧ err_kind e = KError) ∧
  (isEmptyOrNull label = false → hasWhiteSpace label = false →
   (∀ pre v post,
      members w c = pre ++ v :: post →
      labelOf w v = Some label →
      Forall (λ x, labelOf w x ≠ Some label) pre →
      getTask c label w = ([], Normal v, w)) ∧
   (Forall (λ x, labelOf w x ≠ Some label) (members w c) →
    getTask c label w =
      ([], Throw (newError (label +:+ " cannot be found!")), w))).
Proof.
  intros Hall. split.
  - unfold getTask. intros [->| Hws]; [by eexists|].
    destruct (isEmptyOrNull label); [by eexists|]. rewrite Hws. by eexists.
  - intros He Hws. unfold getTask. rewrite He, Hws. unfold bind.
    rewrite (findByLabel_spec _ _ _ Hall). split.
    + intros pre v post Hmem Hv Hpre.
      rewrite Hmem, (firstWithLabel_first _ _ _ _ _ O Hv Hpre).
      unfold chainOf, gets. fold (members w c). rewrite Hmem. cbn.
      by rewrite list_lookup_middle.
    + intros Hnone. by rewrite (firstWithLabel_absent _ _ _ O Hnone).
Qed.

Lemma getTask_returns_the_first_with_the_label_witness :
  getTask 0 "build" duplicated = ([], Normal (VTask 0), duplicated) ∧
  getTask 0 "deploy" duplicated =
    ([], Throw (newError "deploy cannot be found!"), duplicated).
Proof.
  assert (Forall (λ v, is_Some (labelOf duplicated v)) (members duplicated 0)) as Hall.
  { repeat constructor; by eexists. }
  destruct (proj2 (getTask_returns_the_first_with_the_label duplicated O "build" Hall)
              eq_refl eq_refl) as [Hfirst _].
  destruct (proj2 (getTask_returns_the_first_with_the_label duplicated O "deploy" Hall)
              eq_refl eq_refl) as [_ Hnone].
  split.
  - apply (Hfirst [] (VTask O) [VTask 1%nat]); [reflexivity|reflexivity|constructor].
  - apply Hnone. repeat constructor; discriminate.
Defined.

Lemma flagged_flagged c v v' w : flagged c v (flagged c v' w) = flagged c v w.
Proof.
  unfold flagged. cbn. f_equal. rewrite alter_alter_eq. by apply alter_ext.
Qed.

(** X16 ([breakChain], [TaskChain.run]): [run] resets the abort flag
    before the first task: a [breakChain] before the run has no effect on
    it. *)
Theorem run_forgets_an_earlier_abort c value inputs w :
  (breakChain c value ;;; TaskChain_run c inputs) w = TaskChain_run c inputs w.
Proof.
  unfold TaskChain_run, breakChain, setStopChain, chainOf. unfoldM.
  rewrite flagged_flagged. cbn [flagged chains].
  rewrite !lookup_alter_eq.
  destruct (chains w !! c) as [ch|]; cbn; [|done].
  by destruct (runTasks _ _ _ _) as [[tr r] w'].
Qed.

Lemma kept_refl w : kept w w.
Proof. by repeat split. Qed.

Lemma kept_trans w1 w2 w3 : kept w1 w2 → kept w2 w3 → kept w1 w3.
Proof.
  intros (Ht & Hl & Hm) (Ht' & Hl' & Hm').
  split; [congruence|]. split; [congruence|]. intros c. by rewrite Hm', Hm.
Qed.

Lemma kept_flagged c v w : kept w (flagged c v w).
Proof.
  split; [done|]. split; [done|]. intros c'. unfold members, flagged. cbn.
  destruct (decide (c' = c)) as [->|Hc].
  - rewrite lookup_alter_eq. by destruct (chains w !! c).
  - by rewrite lookup_alter_ne.
Qed.

Lemma run_kept v context w tr r w' :
  run v context w = (tr, r, w') → kept w w'.
Proof.
  intros Hrun. destruct (labelOf w v) as [l|] eqn:Hl.
  - apply labelOf_Some in Hl as (t & obj & -> & Hobj & _). cbn [run] in Hrun.
    destruct (Task_run_outcome _ _ _ _ _ _ _ Hobj Hrun) as (_ & Hout & _).
    destruct r as [[[[] res]|]|]; cbn in Hout;
      try (subst; apply kept_refl);
      destruct Hout as [_ Hset]; unfold settled in Hset;
      (destruct (truthy _);
        [destruct Hset as (c & _ & ->); apply kept_flagged
        |subst; apply kept_refl]).
  - destruct (run_other w v context Hl) as [e He].
    rewrite He in Hrun. injection Hrun as <- <- <-. apply kept_refl.
Qed.

Lemma getName_world v w : (getName v w).2 = w.
Proof.
  destruct v; try done. cbn. unfoldM. by destruct (tasks w !! ref).
Qed.

Lemma runTasks_kept c : ∀ todo context w tr r w',
  runTasks c todo context w = (tr, r, w') → kept w w'.
Proof.
  induction todo as [|task rest IH]; intros context w tr r w'.
  { cbn. intros [= <- <- <-]. apply kept_refl. }
  cbn [runTasks]. unfold bind at 1.
  destruct (run task context w) as [[tr1 r1] w1] eqn:Hrun.
  pose proof (run_kept _ _ _ _ _ _ Hrun) as Hk1.
  destruct r1 as [[[ok result]|]|e].
  2:{ cbn. by intros [= <- <- <-]. }
  2:{ by intros [= <- <- <-]. }
  unfold bind at 1.
  pose proof (getName_world task w1) as Hn.
  destruct (getName task w1) as [[trn [label|e]] wn]; cbn in Hn; subst wn.
  2:{ by intros [= <- <- <-]. }
  unfold bind, emit, stopChainOf, gets, ret. cbn [app].
  destruct (truthy (default VUndefined (c_stopChain <$> chains w1 !! c))).
  - by intros [= <- <- <-].
  - destruct (runTasks c rest _ w1) as [[tr2 r2] w2] eqn:Hrest.
    intros [= <- <- <-].
    eapply kept_trans; [exact Hk1|]. by eapply IH.
Qed.

(** X17 ([TaskChain.run]), for actions that write to no task and to no
    chain, and listeners that do nothing but call [detail.breakChain]: a
    run, however it ends, leaves the tasks, the listeners and the members
    of every chain as they were; abort flags are all that it writes. *)
Theorem run_keeps_tasks_listeners_and_members w c inputs tr r w' :
  TaskChain_run c inputs w = (tr, r, w') → kept w w'.
Proof.
  unfold TaskChain_run, setStopChain, chainOf. unfoldM.
  destruct (runTasks _ _ _ _) as [[tr2 r2] w2] eqn:Hrun.
  intros [= <- <- <-].
  eapply kept_trans; [apply (kept_flagged c (VBool false))|].
  by eapply runTasks_kept.
Qed.

Lemma run_keeps_tasks_listeners_and_members_witness :
  kept duplicated (TaskChain_run 0 VNull duplicated).2.
Proof.
  destruct (TaskChain_run 0 VNull duplicated) as [[tr r] w'] eqn:Hrun.
  exact (run_keeps_tasks_listeners_and_members duplicated O VNull tr r w' Hrun).
Defined.






End ChainExtras.

(** ** The providers across calls *)

Module ProviderExtras.
Import Wrapper Providers MoreFixtures.

Lemma callTimes_add {S R} (f : S → R * S) a : ∀ b s,
  callTimes f (a + b) s =
    ((callTimes f a s).1 ++ (callTimes f b (callTimes f a s).2).1,
     (callTimes f b (callTimes f a s).2).2).
Proof.
  induction a as [|a IH]; intros b s.
  - cbn. by destruct (callTimes f b s).
  - cbn. destruct (f s) as [r s1]. rewrite IH.
    destruct (callTimes f a s1) as [rs s2]. cbn.
    by destruct (callTimes f b s2).
Qed.

Lemma provider_cached construct o c n :
  callTimes (provider construct) n (mkCache (Some o) c) =
    (replicate n (Success (VObject o)), mkCache (Some o) c).
Proof.
  induction n as [|n IH]; [done|]. cbn. by rewrite IH.
Qed.

Lemma provider_failing construct k n : ∀ j,
  (∀ i, (i < k)%nat → ∃ e, construct i = Throw e) →
  (j + n ≤ k)%nat →
  callTimes (provider construct) n (mkCache None j) =
    (replicate n (Failure failedToCreate), mkCache None (j + n)).
Proof.
  induction n as [|n IH]; intros j Hfail Hle.
  - cbn. by rewrite Nat.add_0_r.
  - cbn. destruct (Hfail j) as [e ->]; [lia|].
    rewrite (IH (S j) Hfail) by lia. do 2 f_equal. lia.
Qed.

(** X19 ([createAppOctokitProvider], [createUserOctokitProvider] of the
    wrapper): the provider constructs a client on every call until a
    construction succeeds, answering each failure with the same generic
    error; from the first success on it answers with that client and
    constructs no more. *)
Theorem provider_constructs_until_the_first_success construct k o :
  (∀ i, (i < k)%nat → ∃ e, construct i = Throw e) →
  construct k = Normal o →
  (∀ n, (n ≤ k)%nat →
     callTimes (provider construct) n emptyCache =
       (replicate n (Failure failedToCreate), mkCache None n)) ∧
  (∀ m,
     callTimes (provider construct) (k + S m) emptyCache =
       (replicate k (Failure failedToCreate) ++ replicate (S m) (Success (VObject o)),
        mkCache (Some o) (S k))).
Proof.
  intros Hfail Hok. split.
  - intros n Hn. apply (provider_failing construct k n O Hfail). lia.
  - intros m. rewrite callTimes_add.
    unfold emptyCache. rewrite (provider_failing construct k k O Hfail) by lia.
    cbn [fst snd callTimes provider cachedOctokit constructions Nat.add].
    rewrite Hok, provider_cached. done.
Qed.

Lemma provider_constructs_until_the_first_success_witness :
  callTimes (provider thirdConstruction) 5 emptyCache =
    ([Failure failedToCreate; Failure failedToCreate;
      Success (VObject 9); Success (VObject 9); Success (VObject 9)],
     mkCache (Some 9%nat) 3).
Proof.
  apply (proj2 (provider_constructs_until_the_first_success thirdConstruction 2 9%nat
                  ltac:(intros i Hi; exists (newError "Bad credentials");
                        destruct i as [|[|i]]; [reflexivity|reflexivity|lia])
                  eq_refl) 2%nat).
Defined.

(** X20 (src/tasks/createAppOctokitProvider.js): the provider of the
    module never caches: each of [n] calls constructs a client and hands on
    what the construction completed with, a failure included, and
    [cachedOctokit] is [null] afterwards. *)
Theorem module_provider_never_caches construct n :
  callTimes (moduleProvider construct) n emptyCache =
    (map (handedOn construct) (seq 0 n), mkCache None n).
Proof.
  unfold emptyCache.
  assert (∀ j, callTimes (moduleProvider construct) n (mkCache None j) =
               (map (handedOn construct) (seq j n), mkCache None (j + n))) as H.
  { induction n as [|n IH]; intros j.
    - cbn. by rewrite Nat.add_0_r.
    - cbn. rewrite IH. unfold handedOn. do 2 f_equal. lia. }
  exact (H O).
Qed.

(** X21 ([createSodiumProvider]), for calls made one after the other,
    each when the one before it has settled: when the library becomes
    ready, the first call awaits it and every call returns the library,
    with one await in all; when its readiness fails, every call awaits
    again and fails with that error. *)
Theorem sodium_is_awaited_until_ready sodiumLib n :
  callTimes (sodiumProvider (Normal tt) sodiumLib) (S n) (mkSodium false 0) =
    (replicate (S n) (Normal sodiumLib), mkSodium true 1) ∧
  (∀ e, callTimes (sodiumProvider (Throw e) sodiumLib) n (mkSodium false 0) =
          (replicate n (Throw e), mkSodium false n)).
Proof.
  split.
  - cbn.
    assert (∀ m, callTimes (sodiumProvider (Normal tt) sodiumLib) m (mkSodium true 1) =
                 (replicate m (Normal sodiumLib), mkSodium true 1)) as H.
    { induction m as [|m IH]; [done|]. cbn. by rewrite IH. }
    by rewrite H.
  - intros e.
    assert (∀ j, callTimes (sodiumProvider (Throw e) sodiumLib) n (mkSodium false j) =
                 (replicate n (Throw e), mkSodium false (j + n))) as H.
    { induction n as [|n IH]; intros j.
      - cbn. by rewrite Nat.add_0_r.
      - cbn. rewrite IH. do 2 f_equal. lia. }
    exact (H O).
Qed.

End ProviderExtras.

(** ** The functions that make one request *)

Module CallerExtras.
Import Wrapper RetryFacts BuilderFacts BuilderExtras Fluent Callers Fixtures MoreFixtures.

Lemma step_done_resolves callback n interval fr f i c :
  step callback n interval (VFunction fr f) i = Done c →
  ∃ r, c = Normal (Some r).
Proof.
  unfold step. destruct (callback i) as [v|e]; [intros [= <-]; by eexists|].
  cbn [call_breaker]. destruct (f e) as [[] err]; [intros [= <-]; by eexists|].
  destruct (js_ge (VNumber i) n); [intros [= <-]; by eexists|done].
Qed.

Lemma send_resolves q params octokit σ :
  ∃ r, (send q params octokit σ).2 = Normal (Some r) ∧
       (1 ≤ calls (send q params octokit σ).1 ≤ 3)%nat.
Proof.
  unfold send. destruct (createRequest q params σ) as [b σ'] eqn:Hcreate.
  destruct (createRequest_describes _ _ _ _ _ Hcreate) as (_ & _ & _ & rc & Hb & Hrc).
  unfold runWith, attemptRequest. rewrite Hb.
  destruct (runWithRetries_shape (objects σ') (request σ' octokit (b_state b))
              rc defaultPolicy 3 Hrc eq_refl ltac:(lia))
    as (more & c & Hm & _ & _ & Hdone & ->).
  apply step_done_resolves in Hdone as [r ->].
  exists r. split; [done|]. cbn [fst]. rewrite calls_schedule. lia.
Qed.

(** X22 ([getRepoByID], [getRef], [getBranch], [getTag]): each of them
    completes normally with a result object, after one to three requests:
    a failure of the client, status 404 included, arrives as
    [{ success: false, error }] and never as an exception. *)
Theorem lookups_always_resolve octokit σ :
  (∀ repoID, ∃ r,
     (getRepoByID octokit repoID σ).2 = Normal (Some r) ∧
     (1 ≤ calls (getRepoByID octokit repoID σ).1 ≤ 3)%nat) ∧
  (∀ owner repo ref, ∃ r,
     (getRef octokit owner repo ref σ).2 = Normal (Some r) ∧
     (1 ≤ calls (getRef octokit owner repo ref σ).1 ≤ 3)%nat) ∧
  (∀ owner repo branchName, ∃ r,
     (getBranch octokit owner repo branchName σ).2 = Normal (Some r) ∧
     (1 ≤ calls (getBranch octokit owner repo branchName σ).1 ≤ 3)%nat) ∧
  (∀ owner repo tagName, ∃ r,
     (getTag octokit owner repo tagName σ).2 = Normal (Some r) ∧
     (1 ≤ calls (getTag octokit owner repo tagName σ).1 ≤ 3)%nat).
Proof.
  repeat split; intros; apply send_resolves.
Qed.

Section Host.

Variable shaOf : Response -> Completion string.
Variable Buffer_from : Value -> Completion Value.
Variable toUtf8 : Value -> Value.

(** X23 ([ensureBranchExists]): the [catch] block is never entered:
    whatever the client answers, the function reports that the branch
    already exists and returns; it makes no direct call on the client, so
    [createRef] is never called. *)
Theorem ensureBranchExists_never_creates octokit owner repo branchName baseBranch σ :
  let events :=
    (ensureBranchExists shaOf octokit owner repo branchName baseBranch σ).1 in
  ensureBranchExists shaOf octokit owner repo branchName baseBranch σ =
    (map Engine (getBranch octokit owner repo branchName σ).1 ++
     [Log ("Branch " +:+ branchName +:+ " already exists.")],
     Normal tt) ∧
  ∀ method params, Direct method params ∉ events.
Proof.
  intros events. subst events.
  assert (ensureBranchExists shaOf octokit owner repo branchName baseBranch σ =
    (map Engine (getBranch octokit owner repo branchName σ).1 ++
     [Log ("Branch " +:+ branchName +:+ " already exists.")],
     Normal tt)) as Heq.
  { unfold ensureBranchExists.
    destruct (send_resolves (Endpoint "git.getRef")
                [("owner", owner); ("repo", repo); ("ref", "heads/" +:+ branchName)]
                octokit σ) as (r & Hr & _).
    unfold getBranch, getRef in *.
    destruct (send _ _ _ _) as [tr c]. cbn in Hr. by subst c. }
  split; [exact Heq|].
  intros method params. rewrite Heq. cbn [fst].
  intros Hin. apply elem_of_app in Hin as [Hin|Hin].
  - apply list_elem_of_fmap in Hin as (e & He & _). discriminate He.
  - apply elem_of_cons in Hin as [Hin|Hin]; [discriminate Hin|].
    by apply elem_of_nil in Hin.
Qed.

(** [getFile] hands [undefined] to [Buffer.from], whatever the client
    answers. *)
Lemma getFile_reads_no_content octokit owner repo path branch getRaw σ :
  ∃ events r,
    (1 ≤ calls events ≤ 3)%nat ∧
    getFile Buffer_from toUtf8 octokit owner repo path branch getRaw σ =
      match Buffer_from VUndefined with
      | Throw e => (events, Throw e)
      | Normal buffer =>
        (events, Normal (mkFile (Some r) (if getRaw then buffer else toUtf8 buffer)))
      end.
Proof.
  unfold getFile.
  destruct (send_resolves (Endpoint "repos.getContent")
              [("owner", owner); ("repo", repo); ("path", path); ("ref", branch)]
              octokit σ) as (r & Hr & Hcalls).
  destruct (send _ _ _ _) as [tr c]. cbn in Hr, Hcalls. subst c.
  exists tr, r. split; [done|].
  by assert (optionalGet (Some r) "content" = VUndefined) as -> by (by destruct r).
Qed.

(** X24 ([getFile]): [response] is a result object, which has no
    [content]; on a host whose [Buffer.from] refuses [undefined], [getFile]
    throws that refusal after one to three requests, whatever the client
    answers. *)
Theorem getFile_always_throws e0 octokit owner repo path branch getRaw σ :
  Buffer_from VUndefined = Throw e0 →
  ∃ events,
    getFile Buffer_from toUtf8 octokit owner repo path branch getRaw σ =
      (events, Throw e0) ∧
    (1 ≤ calls events ≤ 3)%nat.
Proof.
  intros Hbuffer.
  destruct (getFile_reads_no_content octokit owner repo path branch getRaw σ)
    as (events & r & Hcalls & Hget).
  rewrite Hbuffer in Hget. by exists events.
Qed.

Variable toBase64 : string -> string.

(** X27 ([createOrUpdateFile]): on a host whose [Buffer.from] refuses
    [undefined] with an error that has no status 404, the look-up of the
    current file throws, the [catch] block rethrows, and the request that
    would write the file is never made. *)
Theorem createOrUpdateFile_never_writes
    e0 octokit owner repo path content commit branch σ :
  Buffer_from VUndefined = Throw e0 →
  err_status e0 ≠ Some 404 →
  createOrUpdateFile Buffer_from toUtf8 toBase64 octokit
                     owner repo path content commit branch σ =
    ((getFile Buffer_from toUtf8 octokit owner repo path branch false σ).1,
     Throw e0).
Proof.
  intros Hbuffer Hstatus. unfold createOrUpdateFile.
  destruct (getFile_reads_no_content octokit owner repo path branch false σ)
    as (events & r & _ & Hget).
  rewrite Hbuffer in Hget. rewrite Hget. cbn [fst].
  by rewrite bool_decide_eq_false_2.
Qed.

End Host.

Lemma createOrUpdateFile_never_writes_witness :
  ∃ events e,
    createOrUpdateFile nodeBuffer decoded encoded octokitRepo
      "stgroves" "octokit-wrapper" "README.md" "hello" "update" "main" (mkStore ∅ ∅) =
      (events, Throw e) ∧
    err_kind e = KTypeError ∧ (1 ≤ calls events ≤ 3)%nat.
Proof.
  eexists _, _. split.
  - apply (createOrUpdateFile_never_writes nodeBuffer decoded encoded _ octokitRepo
             "stgroves" "octokit-wrapper" "README.md" "hello" "update" "main"
             (mkStore ∅ ∅) eq_refl).
    discriminate.
  - split; [reflexivity|]. vm_compute. lia.
Defined.

Lemma getFile_always_throws_witness :
  ∃ events e,
    getFile nodeBuffer decoded octokitRepo "stgroves" "octokit-wrapper" "README.md"
            "main" false (mkStore ∅ ∅) = (events, Throw e) ∧
    err_kind e = KTypeError.
Proof.
  destruct (getFile_always_throws nodeBuffer decoded _ octokitRepo
              "stgroves" "octokit-wrapper" "README.md" "main" false (mkStore ∅ ∅)
              eq_refl) as (events & Hget & _).
  by eexists events, _.
Defined.

End CallerExtras.

(** ** Signals: the decision of the listeners, and a task of two chains *)

Module SignalExtras.
Import Executors TaskFacts ChainFacts RunFacts ChainFixtures RunViews MoreFixtures.

Lemma num_eq_zero m e m' e' :
  num_eq (Finite m e) (Finite m' e') = true → (m =? 0) = (m' =? 0).
Proof.
  unfold num_eq, num_le. intros [H1%Z.leb_le H2%Z.leb_le]%andb_true_iff.
  pose proof (NumFacts.scale_pos e). pose proof (NumFacts.scale_pos e').
  destruct (Z.eqb_spec m 0), (Z.eqb_spec m' 0); try done; nia.
Qed.

Lemma strict_eq_truthy v s : strict_eq v s = true → truthy s = truthy v.
Proof.
  destruct v, s; cbn [strict_eq typeof to_number truthy]; try done;
    try (rewrite bool_decide_eq_true; by intros ->);
    try (intros H%num_eq_zero; by rewrite H);
    try (by destruct negative).
Qed.

Lemma override_truthy s v : truthy (override s v) = truthy v.
Proof.
  unfold override. destruct (strict_eq v s) eqn:Heq; [|done].
  by apply strict_eq_truthy.
Qed.

Lemma fold_override_truthy values : ∀ s,
  truthy (fold_left override values s) =
    match last values with
    | Some v => truthy v
    | None => truthy s
    end.
Proof.
  induction values as [|v values IH] using rev_ind; intros s; [done|].
  rewrite fold_left_app, last_snoc. cbn. apply override_truthy.
Qed.

(** X25 ([#dispatchEvent]): whether a signal aborts is decided by the
    last call of [event.detail.breakChain] that the listeners make, by the
    truth of its argument; without such a call, by the default of the
    signal.  The abort goes to the chain that the task refers to, and is a
    TypeError when it refers to none. *)
Theorem last_breakChain_call_decides self event payload stop w :
  let values := concat (map (λ l : Listener, l event self payload) (listeners w)) in
  let abort :=
    match last values with
    | Some value => truthy value
    | None => truthy (orDefault stop (VBool true))
    end in
  dispatchEvent self event payload stop w =
    if abort then
      match t_chain <$> tasks w !! self with
      | Some (Some c) => ([EvSignal event self payload], Normal tt, aborted w c)
      | _ => ([EvSignal event self payload], Throw nullChain, w)
      end
    else ([EvSignal event self payload], Normal tt, w).
Proof.
  intros values abort. rewrite dispatchEvent_spec.
  unfold decision. fold values. by rewrite fold_override_truthy.
Qed.

(** X26 ([addTask], [Task.run], [TaskChain.run]): a task that was added
    to a second chain afterwards answers to that chain alone: when it fails
    for good in a run of the first chain, that run finds its own abort flag
    clear, records the error and goes on with the tasks that follow. *)
Theorem failure_of_a_task_owned_elsewhere
    w c1 ch1 t rest obj c2 inputs tr1 err w1 :
  chains w !! c1 = Some ch1 →
  c_chain ch1 = VTask t :: rest →
  tasks w !! t = Some obj →
  t_chain obj = Some c2 →
  c2 ≠ c1 →
  Task_run t (mkContext inputs emptyObj) (flagged c1 (VBool false) w) =
    (tr1, Normal (Some (false, err)), w1) →
  stopChain w1 c1 = VBool false ∧
  TaskChain_run c1 inputs w =
    let '(tr2, r, w') :=
      runTasks c1 rest
               (mkContext inputs (assignProp emptyObj (t_label obj) err)) w1 in
    (tr1 ++ EvRecord (t_label obj) err :: EvCheckAbort (VBool false) :: tr2, r, w').
Proof.
  intros Hch Hmem Hobj Hown Hne Hrun.
  set (w0 := flagged c1 (VBool false) w) in *.
  assert (tasks w0 !! t = Some obj) as Hobj0 by done.
  assert (stopChain w0 c1 = VBool false) as Hflag0
    by (unfold stopChain, w0; cbn; by rewrite lookup_alter_eq, Hch).
  destruct (Task_run_outcome _ _ _ _ _ _ _ Hobj0 Hrun) as (_ & Hout & _).
  cbn in Hout. destruct Hout as [_ Hset]. unfold settled in Hset.
  assert (stopChain w1 c1 = VBool false) as Hflag1.
  { destruct (truthy _).
    - destruct Hset as (c & Hc & ->). rewrite Hown in Hc. injection Hc as <-.
      unfold stopChain, aborted, flagged. cbn [chains].
      rewrite lookup_alter_ne by done. exact Hflag0.
    - by subst. }
  split; [exact Hflag1|].
  rewrite (TaskChain_run_spec c1 inputs w ch1 Hch), Hmem. fold w0.
  cbn [runTasks run]. unfold bind at 1. rewrite Hrun. unfold bind at 1.
  assert (labelOf w1 (VTask t) = Some (t_label obj)) as Hl.
  { cbn. rewrite (Task_run_tasks _ _ _ _ _ _ _ Hobj0 Hrun). by rewrite Hobj0. }
  rewrite (getName_task _ _ _ Hl).
  unfold bind, emit, stopChainOf, gets, ret. cbn [app].
  fold (stopChain w1 c1). rewrite Hflag1. cbn [truthy ctx_inputs ctx_steps].
  destruct (runTasks c1 rest _ w1) as [[tr2 r] w'].
  done.
Qed.

Lemma failure_of_a_task_owned_elsewhere_witness :
  chainView (TaskChain_run 0 VNull shared).1.1 =
    [Ran 0; Recorded "build" (VError (exhausted (VNumber 1))); Checked false;
     Ran 1; Recorded "deploy" (VNumber 8); Checked false] ∧
  stopChain (TaskChain_run 0 VNull shared).2 1 = VBool true.
Proof.
  destruct (failure_of_a_task_owned_elsewhere shared O
              (mkChain [VTask O; VTask 1%nat] VUndefined) O [VTask 1%nat]
              (mkTask "build" fails (attempts 1) (Some 1%nat)) 1%nat VNull
              [EvRun O; EvAction O 1;
               EvSignal taskError O (VError (exhausted (VNumber 1)))]
              (VError (exhausted (VNumber 1)))
              (flagged 1 (VBool true) (flagged 0 (VBool false) shared))
              eq_refl eq_refl eq_refl eq_refl ltac:(lia) eq_refl)
    as [_ Hrun].
  rewrite Hrun. split; reflexivity.
Defined.

End SignalExtras.
